(** * AutoRange: the resilient relay pipeline

    A shallow embedding of the two cooperating components of the
    extension:

    - the content script's persistent-port manager ([connectPort],
      [scheduleReconnect], [sendPortMessage], [enqueueMessage],
      [flushMessageQueue], [compareHands] and the window message listener);
    - the background service worker's [HubPublisher] together with
      [getPublisherId], [generateUUID], [fetchHubToken], the retry alarm
      handler and [handleHandData].

    JavaScript state is threaded explicitly through records.  Everything
    the host decides (whether [postMessage] or [send] throws, what
    [Math.random] returns, what the token service answers, when a socket
    opens or closes) enters the model as an argument or as a section
    variable, so every theorem holds for every behaviour of the host. *)

From Stdlib Require Import String Ascii List ZArith QArith Qminmax Qpower Lia Bool.
From stdpp Require Import base list gmap strings.

Open Scope string_scope.
Open Scope list_scope.
Open Scope nat_scope.

(** ** JavaScript strings

    A character of a Rocq string stands for the UTF-16 code unit of the same
    number, which covers every URL whose code units are below 256 (the
    serialised [location.href] of a page is ASCII). *)

Module JsString.

(** [s.split(sep)] for a one-character separator: never empty. *)
Fixpoint split (sep : ascii) (s : string) : list string :=
  match s with
  | EmptyString => [EmptyString]
  | String c rest =>
      if Ascii.eqb c sep then EmptyString :: split sep rest
      else match split sep rest with
           | [] => [String c EmptyString]
           | seg :: segs => String c seg :: segs
           end
  end.

(** [a[0]] on an array of strings; [undefined] cannot arise for the result
    of [split], the default is only there for totality. *)
Definition first (a : list string) : string :=
  match a with
  | [] => EmptyString
  | x :: _ => x
  end.

(** [a[a.length - 1]]. *)
Fixpoint last_elem (a : list string) : option string :=
  match a with
  | [] => None
  | [x] => Some x
  | _ :: rest => last_elem rest
  end.

(** [s.replace(/\/$/, '')]: a JavaScript [$] without the [m] flag matches
    at the very end of the input only. *)
Fixpoint strip_trailing_slash (s : string) : string :=
  match s with
  | EmptyString => EmptyString
  | String c EmptyString => if Ascii.eqb c "/" then EmptyString else s
  | String c rest => String c (strip_trailing_slash rest)
  end.

(** White space and line terminators removed by [trim], among the code
    units below 256: TAB, LF, VT, FF, CR, SP and NBSP. *)
Definition is_white (c : ascii) : bool :=
  let n := nat_of_ascii c in
  (Nat.eqb n 9 || Nat.eqb n 10 || Nat.eqb n 11 || Nat.eqb n 12
   || Nat.eqb n 13 || Nat.eqb n 32 || Nat.eqb n 160)%bool.

Fixpoint all_white (s : string) : bool :=
  match s with
  | EmptyString => true
  | String c rest => is_white c && all_white rest
  end.

(** [s.trim() !== ''] *)
Definition trim_nonempty (s : string) : bool := negb (all_white s).

(** Truthiness of a string value. *)
Definition truthy (s : string) : bool :=
  match s with
  | EmptyString => false
  | String _ _ => true
  end.

End JsString.

(** ** Room extraction: [HubPublisher.extractRoomFromUrl] *)

(** A property of a message as it arrives: a string, or any other value,
    of which only the truthiness matters ([JsOther false] is [undefined],
    [null], [0] or [false]; [JsOther true] a number, an object or [true]). *)
Inductive JsVal :=
| JsStr (s : string)
| JsOther (truthy : bool).

Definition js_truthy (v : JsVal) : bool :=
  match v with
  | JsStr s => JsString.truthy s
  | JsOther b => b
  end.

(** [v || null] as it is stored in an envelope. *)
Definition js_or_null (v : JsVal) : JsVal :=
  if js_truthy v then v else JsOther false.

Definition extractRoomFromString (url : string) : option string :=
  let cleanUrl :=
    JsString.strip_trailing_slash
      (JsString.first (JsString.split "#"
         (JsString.first (JsString.split "?" url)))) in
  let segments := JsString.split "/" cleanUrl in
  match JsString.last_elem segments with
  | Some lastSegment =>
      if JsString.truthy lastSegment && JsString.trim_nonempty lastSegment
      then Some lastSegment else None
  | None => None
  end.

(** A value that is not a string has no [split] method: the call throws
    and the [catch] returns [null]. *)
Definition extractRoomFromUrl (url : JsVal) : option string :=
  match url with
  | JsStr s => extractRoomFromString s
  | JsOther _ => None
  end.

(** Room extraction as the specification words it, written without
    [split]: cut the url at the first [?] or [#], drop one trailing slash,
    keep what follows the last slash; there is no room when that is empty
    (or, as in the source, white space only). *)
Module RoomSpec.

Fixpoint cut_query_fragment (s : string) : string :=
  match s with
  | EmptyString => EmptyString
  | String c rest =>
      if (Ascii.eqb c "?" || Ascii.eqb c "#")%bool then EmptyString
      else String c (cut_query_fragment rest)
  end.

Definition ends_with_slash (s : string) : bool :=
  match last (list_ascii_of_string s) with
  | Some c => Ascii.eqb c "/"
  | None => false
  end.

Definition drop_last (s : string) : string :=
  string_of_list_ascii (removelast (list_ascii_of_string s)).

Definition trim_slash (s : string) : string :=
  if ends_with_slash s then drop_last s else s.

(** The suffix after the last slash, or the whole string without one. *)
Fixpoint final_segment_from (acc : string) (s : string) : string :=
  match s with
  | EmptyString => acc
  | String c rest =>
      if Ascii.eqb c "/" then final_segment_from rest rest
      else final_segment_from acc rest
  end.

Definition final_segment (s : string) : string := final_segment_from s s.

Definition room (url : string) : option string :=
  let seg := final_segment (trim_slash (cut_query_fragment url)) in
  if JsString.all_white seg then None else Some seg.

End RoomSpec.

(** ** Bounded FIFO queues

    Both queues are JavaScript arrays used the same way: [push] at the
    tail, then one [shift] when the length has passed the cap. *)

Definition push_shift {A : Type} (cap : nat) (q : list A) (m : A) : list A :=
  let q' := q ++ [m] in
  if cap <? length q' then tail q' else q'.

(** ** The content script's port manager *)

(** What the extension runtime provides to the content script: port objects
    and [port.postMessage], which either accepts the message or throws; the
    port it leaves behind may differ either way. *)
Class PortHost (Msg : Type) := {
  Port : Type;
  postMessage : Port -> Msg -> bool * Port
}.

Module Channel.

Definition RECONNECT_INTERVAL_MS : Q := 2000.
Definition MAX_RECONNECT_ATTEMPTS : nat := 50.
Definition MESSAGE_QUEUE_CAP : nat := 20.

(** [Math.min(RECONNECT_INTERVAL_MS * Math.pow(1.5, n - 1), 30000)], over
    the rationals.  The doubles of the source agree with it: up to
    [n = 7] the product is a dyadic rational that a double holds exactly
    (22781.25 at most), and from [n = 8] on it is far enough above 30000
    for the minimum to be 30000 in either arithmetic. *)
Definition reconnect_delay (n : nat) : Q :=
  Qmin (RECONNECT_INTERVAL_MS * Qpower (3 # 2) (Z.of_nat n - 1)) 30000.

Section WithHost.
Context {Msg : Type} `{PortHost Msg}.

(** The module-level variables of the content script, and [posted], the
    messages that [postMessage] has accepted so far (a ghost log: the
    script keeps no such list). *)
Record State := mkState {
  port : option Port;
  reconnectAttempts : nat;
  reconnectTimer : option Q;         (* the delay of the pending timeout *)
  messageQueue : list Msg;
  posted : list Msg
}.

Definition init : State := mkState None 0 None [] [].

Definition set_port (p : option Port) (st : State) : State :=
  mkState p (reconnectAttempts st) (reconnectTimer st) (messageQueue st)
    (posted st).

Definition set_reconnectAttempts (n : nat) (st : State) : State :=
  mkState (port st) n (reconnectTimer st) (messageQueue st) (posted st).

Definition set_reconnectTimer (t : option Q) (st : State) : State :=
  mkState (port st) (reconnectAttempts st) t (messageQueue st) (posted st).

Definition set_messageQueue (q : list Msg) (st : State) : State :=
  mkState (port st) (reconnectAttempts st) (reconnectTimer st) q (posted st).

Definition log_posted (m : Msg) (st : State) : State :=
  mkState (port st) (reconnectAttempts st) (reconnectTimer st)
    (messageQueue st) (posted st ++ [m]).

Definition enqueueMessage (msg : Msg) (st : State) : State :=
  set_messageQueue (push_shift MESSAGE_QUEUE_CAP (messageQueue st) msg) st.

(** The [while] loop of [flushMessageQueue] for a port that is not null:
    one iteration per queued message, until the queue is empty or
    [postMessage] throws, in which case the message is put back first. *)
Fixpoint flush_loop (q : list Msg) (p : Port) (sent : list Msg)
  : list Msg * Port * list Msg :=
  match q with
  | [] => ([], p, sent)
  | msg :: rest =>
      match postMessage p msg with
      | (true, p') => flush_loop rest p' (sent ++ [msg])
      | (false, p') => (msg :: rest, p', sent)
      end
  end.

(** A port taken through a list of messages, all accepted. *)
Inductive posts : Port -> list Msg -> Port -> Prop :=
| posts_nil p : posts p [] p
| posts_cons p msg p1 ms p2 :
    postMessage p msg = (true, p1) -> posts p1 ms p2 ->
    posts p (msg :: ms) p2.

Definition flushMessageQueue (st : State) : State :=
  match port st with
  | None => st
  | Some p =>
      match flush_loop (messageQueue st) p [] with
      | (q, p', sent) =>
          mkState (Some p') (reconnectAttempts st) (reconnectTimer st) q
            (posted st ++ sent)
      end
  end.

Definition scheduleReconnect (st : State) : State :=
  match reconnectTimer st with
  | Some _ => st
  | None =>
      if MAX_RECONNECT_ATTEMPTS <=? reconnectAttempts st then st
      else
        let n := S (reconnectAttempts st) in
        set_reconnectTimer (Some (reconnect_delay n))
          (set_reconnectAttempts n st)
  end.

(** What [connectPort] meets: an invalidated extension context, a
    [chrome.runtime.connect] (or listener registration) that throws, or a
    fresh port. *)
Inductive ConnectOutcome :=
| ContextInvalid
| ConnectThrows
| ConnectReturns (p : Port).

Definition connectPort (o : ConnectOutcome) (st : State) : State * bool :=
  match o with
  | ContextInvalid => (st, false)
  | ConnectThrows => (set_port None st, false)
  | ConnectReturns p =>
      (flushMessageQueue
         (set_reconnectTimer None
            (set_reconnectAttempts 0 (set_port (Some p) st))), true)
  end.

(** The tail of [sendPortMessage], reached when there is no port or when
    [postMessage] has thrown. *)
Definition queue_and_reconnect (msg : Msg) (st : State) : State :=
  let st1 := enqueueMessage msg st in
  match reconnectTimer st1 with
  | None => scheduleReconnect st1
  | Some _ => st1
  end.

Definition sendPortMessage (msg : Msg) (st : State) : State * bool :=
  match port st with
  | Some p =>
      match postMessage p msg with
      | (true, p') => (log_posted msg (set_port (Some p') st), true)
      | (false, _) => (queue_and_reconnect msg (set_port None st), false)
      end
  | None => (queue_and_reconnect msg st, false)
  end.

(** The [onDisconnect] listener registered by [connectPort]. *)
Definition onDisconnect (st : State) : State :=
  scheduleReconnect (set_port None st).

(** The [setTimeout] callback of [scheduleReconnect]. *)
Definition onReconnectTimer (o : ConnectOutcome) (st : State) : State :=
  fst (connectPort o (set_reconnectTimer None st)).

(** The events the content script reacts to, and a run of the script from
    a state through a list of events. *)
Inductive Event :=
| EvConnect (o : ConnectOutcome)
| EvSend (msg : Msg)
| EvDisconnect
| EvTimer (o : ConnectOutcome).

Definition step (st : State) (e : Event) : State :=
  match e with
  | EvConnect o => fst (connectPort o st)
  | EvSend msg => fst (sendPortMessage msg st)
  | EvDisconnect => onDisconnect st
  | EvTimer o =>
      match reconnectTimer st with
      | Some _ => onReconnectTimer o st
      | None => st
      end
  end.

Definition run (st : State) (es : list Event) : State := fold_left step es st.

End WithHost.

End Channel.

(** ** The content script's window message listener *)

Module Page.

(** A hand after the listener's shape check: the four card fields are
    strings, the rest is carried as it came. *)
Record Hand := mkHand {
  value1 : string;
  suit1 : string;
  value2 : string;
  suit2 : string;
  url : JsVal;
  playerId : JsVal;
  playerName : JsVal
}.

(** The object [JSON.parse] returned, before the shape check. *)
Record HandObject := mkHandObject {
  o_value1 : JsVal;
  o_suit1 : JsVal;
  o_value2 : JsVal;
  o_suit2 : JsVal;
  o_url : JsVal;
  o_playerId : JsVal;
  o_playerName : JsVal
}.

Inductive Parsed :=
| ParseThrows
| ParsedNonObject                    (* null, a number, a string, ... *)
| ParsedObject (o : HandObject).

(** [event.data.text]: not a (non-empty) string, or a string together with
    what [JSON.parse] makes of it. *)
Inductive TextField :=
| TextNotString
| TextString (parsed : Parsed).

Record MessageEvent := mkMessageEvent {
  source_is_window : bool;            (* event.source == window *)
  type_is_FROM_PAGE : bool;           (* data.type && data.type == "FROM_PAGE" *)
  text : TextField
}.

(** The [HAND_DATA] message handed to [sendPortMessage]. *)
Record HandData := mkHandData {
  hd_value1 : string;
  hd_suit1 : string;
  hd_value2 : string;
  hd_suit2 : string;
  hd_url : JsVal;
  hd_playerId : JsVal;
  hd_playerName : JsVal;
  hd_timestamp : Z
}.

(** [compareHands(hand1, hand2)]; an absent argument is [None].  The
    fields compared are strings on both sides, on which [==] is equality
    of strings. *)
Definition compareHands (hand1 hand2 : option Hand) : bool :=
  match hand1, hand2 with
  | Some h1, Some h2 =>
      if String.eqb (value1 h1) (value1 h2) && String.eqb (suit1 h1) (suit1 h2)
      then
        if String.eqb (value2 h1) (value2 h2)
           && String.eqb (suit2 h1) (suit2 h2)
        then true else false
      else false
  | _, _ => false
  end.

(** The four [typeof ... !== "string"] tests. *)
Definition check_shape (o : HandObject) : option Hand :=
  match o_value1 o, o_suit1 o, o_value2 o, o_suit2 o with
  | JsStr v1, JsStr s1, JsStr v2, JsStr s2 =>
      Some (mkHand v1 s1 v2 s2 (o_url o) (o_playerId o) (o_playerName o))
  | _, _, _, _ => None
  end.

Definition hand_data (now : Z) (h : Hand) : HandData :=
  mkHandData (value1 h) (suit1 h) (value2 h) (suit2 h)
    (url h) (playerId h) (playerName h) now.

Section WithHost.
Context `{PortHost HandData}.

(** The script's state: the port manager, [previousHand], and the hands
    [checkRange] has been called with (its body, a storage lookup that
    answers the page later, is outside this development). *)
Record State := mkState {
  chan : Channel.State (Msg := HandData);
  previousHand : option Hand;
  rangeChecks : list Hand
}.

Definition init : State := mkState Channel.init None [].

Definition checkRange (h : Hand) (pg : State) : State :=
  mkState (chan pg) (previousHand pg) (rangeChecks pg ++ [h]).

Definition send (m : HandData) (pg : State) : State :=
  mkState (fst (Channel.sendPortMessage m (chan pg))) (previousHand pg)
    (rangeChecks pg).

Definition set_previousHand (h : Hand) (pg : State) : State :=
  mkState (chan pg) (Some h) (rangeChecks pg).

(** The listener registered with [window.addEventListener("message", ...)];
    [now] is what [Date.now()] returns. *)
Definition onWindowMessage (now : Z) (ev : MessageEvent) (pg : State)
  : State :=
  if negb (source_is_window ev) then pg
  else if negb (type_is_FROM_PAGE ev) then pg
  else
    match text ev with
    | TextNotString => pg
    | TextString ParseThrows => pg
    | TextString ParsedNonObject => pg
    | TextString (ParsedObject o) =>
        match check_shape o with
        | None => pg
        | Some hand =>
            let pg1 :=
              if negb (compareHands (Some hand) (previousHand pg))
              then send (hand_data now hand) (checkRange hand pg)
              else pg in
            set_previousHand hand pg1
        end
    end.

(** The hand carried by an event that passes every guard of the listener;
    [None] for an event the listener returns from early. *)
Definition accepted (ev : MessageEvent) : option Hand :=
  if source_is_window ev && type_is_FROM_PAGE ev then
    match text ev with
    | TextString (ParsedObject o) => check_shape o
    | _ => None
    end
  else None.

Definition run (pg : State) (evs : list (Z * MessageEvent)) : State :=
  fold_left (fun pg '(now, ev) => onWindowMessage now ev pg) evs pg.

(** The two things the listener can do with an accepted hand. *)
Definition processed (now : Z) (hand : Hand) (pg pg' : State) : Prop :=
  rangeChecks pg' = rangeChecks pg ++ [hand] /\
  chan pg' = fst (Channel.sendPortMessage (hand_data now hand) (chan pg)).

Definition suppressed (pg pg' : State) : Prop :=
  rangeChecks pg' = rangeChecks pg /\ chan pg' = chan pg.

End WithHost.

Definition same_cards (h1 h2 : Hand) : Prop :=
  value1 h1 = value1 h2 /\ suit1 h1 = suit1 h2 /\
  value2 h1 = value2 h2 /\ suit2 h1 = suit2 h2.

End Page.

(** ** The background service worker's hub publisher *)

Module Hub.

Definition HUB_HOST : string := "dom-hub.onrender.com".
Definition MAX_RETRIES : nat := 100.
Definition INITIAL_BACKOFF_MS : Z := 1000.
Definition MAX_BACKOFF_MS : Z := 10000.
Definition AUTH_ERROR_BACKOFF_MS : Z := 60000.
Definition QUEUE_CAP : nat := 100.

(** [Math.min(INITIAL_BACKOFF_MS * Math.pow(2, retryCount - 1),
    MAX_BACKOFF_MS)] for a [retryCount] that has just been incremented, so
    that the exponent is not negative.  The product is a small integer
    times a power of two, which a double holds exactly. *)
Definition exponential_backoff (retryCount : nat) : Z :=
  Z.min (INITIAL_BACKOFF_MS * 2 ^ (Z.of_nat retryCount - 1)) MAX_BACKOFF_MS.

Inductive ReadyState := CONNECTING | OPEN | CLOSING | CLOSED.

Definition is_OPEN (r : ReadyState) : bool :=
  match r with OPEN => true | _ => false end.

Definition is_CONNECTING (r : ReadyState) : bool :=
  match r with CONNECTING => true | _ => false end.

Definition is_CLOSED (r : ReadyState) : bool :=
  match r with CLOSED => true | _ => false end.

(** A [WebSocket] object made by [connect].  [ws_onclose] is the room its
    [onclose] closure was created for, [None] once [disconnect] has set the
    handler to [null]; the [onopen] and [onerror] handlers stay attached
    for the life of the object.  [ws_sent] are the frames [send] accepted. *)
Record WebSocket := mkWebSocket {
  ws_room : string;
  ws_url : string;
  readyState : ReadyState;
  ws_onclose : option string;
  ws_sent : list string
}.

(** The message built by [publishMessage] in [handleHandData]; its [type]
    is always ["hand"].  [publisherId] is what [getPublisherId] resolved
    with: a string, or a value of another kind (see [lookup_id]). *)
Record Envelope := mkEnvelope {
  publisherId : JsVal;
  pokerNowPlayerId : JsVal;
  playerName : JsVal;
  data : Page.HandData;
  timestamp : Z
}.

(** What the worker's host decides: whether [JSON.stringify] returns a
    string or throws, whether [send] on a socket accepts a frame or throws,
    and the digit [Math.random() * 16 | 0] of the k-th call of
    [Math.random]. *)
Class HubHost := {
  stringify : Envelope -> option string;
  socket_send : WebSocket -> string -> bool;
  random16 : nat -> nat
}.

(** A suspended [async] continuation.  [chrome.storage.local.get] is served
    in the order of the requests, so a pending read holds the stored map
    as it was when the read was requested. *)
Inductive Task :=
| AwaitIdentity (roomId : string) (snapshot : gmap string string)
| AwaitToken (roomId : string) (publisherId : JsVal)
| AwaitPublish (roomId : string) (handData : Page.HandData)
    (snapshot : gmap string string).

(** The fields of the [hubPublisher] singleton, followed by the worker's
    surroundings: every socket object created so far ([ws] is an index into
    it), the [hub-retry] alarm's [when] if one is set, the stored
    [publisherIds], the number of [Math.random] calls made, and the
    suspended continuations. *)
Record World := mkWorld {
  ws : option nat;
  queue : list Envelope;
  retryCount : nat;
  currentRoom : option string;
  isConnecting : bool;
  authErrorBackoff : bool;
  sockets : list WebSocket;
  alarm : option Z;
  publisherIds : gmap string string;
  randoms : nat;
  inflight : list Task
}.

Definition init : World :=
  mkWorld None [] 0 None false false [] None ∅ 0 [].

Definition set_ws (x : option nat) (w : World) : World :=
  mkWorld x (queue w) (retryCount w) (currentRoom w) (isConnecting w)
    (authErrorBackoff w) (sockets w) (alarm w) (publisherIds w) (randoms w)
    (inflight w).

Definition set_queue (x : list Envelope) (w : World) : World :=
  mkWorld (ws w) x (retryCount w) (currentRoom w) (isConnecting w)
    (authErrorBackoff w) (sockets w) (alarm w) (publisherIds w) (randoms w)
    (inflight w).

Definition set_retryCount (x : nat) (w : World) : World :=
  mkWorld (ws w) (queue w) x (currentRoom w) (isConnecting w)
    (authErrorBackoff w) (sockets w) (alarm w) (publisherIds w) (randoms w)
    (inflight w).

Definition set_currentRoom (x : option string) (w : World) : World :=
  mkWorld (ws w) (queue w) (retryCount w) x (isConnecting w)
    (authErrorBackoff w) (sockets w) (alarm w) (publisherIds w) (randoms w)
    (inflight w).

Definition set_isConnecting (x : bool) (w : World) : World :=
  mkWorld (ws w) (queue w) (retryCount w) (currentRoom w) x
    (authErrorBackoff w) (sockets w) (alarm w) (publisherIds w) (randoms w)
    (inflight w).

Definition set_authErrorBackoff (x : bool) (w : World) : World :=
  mkWorld (ws w) (queue w) (retryCount w) (currentRoom w) (isConnecting w)
    x (sockets w) (alarm w) (publisherIds w) (randoms w) (inflight w).

Definition set_sockets (x : list WebSocket) (w : World) : World :=
  mkWorld (ws w) (queue w) (retryCount w) (currentRoom w) (isConnecting w)
    (authErrorBackoff w) x (alarm w) (publisherIds w) (randoms w)
    (inflight w).

Definition set_alarm (x : option Z) (w : World) : World :=
  mkWorld (ws w) (queue w) (retryCount w) (currentRoom w) (isConnecting w)
    (authErrorBackoff w) (sockets w) x (publisherIds w) (randoms w)
    (inflight w).

Definition set_publisherIds (x : gmap string string) (w : World) : World :=
  mkWorld (ws w) (queue w) (retryCount w) (currentRoom w) (isConnecting w)
    (authErrorBackoff w) (sockets w) (alarm w) x (randoms w) (inflight w).

Definition set_randoms (x : nat) (w : World) : World :=
  mkWorld (ws w) (queue w) (retryCount w) (currentRoom w) (isConnecting w)
    (authErrorBackoff w) (sockets w) (alarm w) (publisherIds w) x
    (inflight w).

Definition set_inflight (x : list Task) (w : World) : World :=
  mkWorld (ws w) (queue w) (retryCount w) (currentRoom w) (isConnecting w)
    (authErrorBackoff w) (sockets w) (alarm w) (publisherIds w) (randoms w)
    x.

(** The socket object [this.ws] refers to, if any. *)
Definition current_socket (w : World) : option WebSocket :=
  match ws w with
  | Some id => sockets w !! id
  | None => None
  end.

(** [this.ws && this.ws.readyState === WebSocket.OPEN] *)
Definition ws_is_open (w : World) : bool :=
  match current_socket w with
  | Some s => is_OPEN (readyState s)
  | None => false
  end.

(** [this.ws && (readyState === CONNECTING || readyState === OPEN)] *)
Definition ws_is_live (w : World) : bool :=
  match current_socket w with
  | Some s => is_CONNECTING (readyState s) || is_OPEN (readyState s)
  | None => false
  end.

Definition set_readyState (r : ReadyState) (s : WebSocket) : WebSocket :=
  mkWebSocket (ws_room s) (ws_url s) r (ws_onclose s) (ws_sent s).

Definition detach_onclose (s : WebSocket) : WebSocket :=
  mkWebSocket (ws_room s) (ws_url s) (readyState s) None (ws_sent s).

Definition log_sent (frame : string) (s : WebSocket) : WebSocket :=
  mkWebSocket (ws_room s) (ws_url s) (readyState s) (ws_onclose s)
    (ws_sent s ++ [frame]).

(** [socket.close()]: a socket that is not yet closing starts to. *)
Definition close_socket (s : WebSocket) : WebSocket :=
  match readyState s with
  | CLOSING | CLOSED => s
  | CONNECTING | OPEN => set_readyState CLOSING s
  end.

Definition update_socket (id : nat) (f : WebSocket -> WebSocket) (w : World)
  : World :=
  set_sockets (alter f id (sockets w)) w.

(** *** Identity: [generateUUID] and [getPublisherId] *)

Definition hex_digit (v : nat) : ascii :=
  match v with
  | 0 => "0" | 1 => "1" | 2 => "2" | 3 => "3" | 4 => "4" | 5 => "5"
  | 6 => "6" | 7 => "7" | 8 => "8" | 9 => "9" | 10 => "a" | 11 => "b"
  | 12 => "c" | 13 => "d" | 14 => "e" | _ => "f"
  end%char.

Definition UUID_TEMPLATE : string := "xxxxxxxx-xxxx-4xxx-yxxx-xxxxxxxxxxxx".

(** The property names a plain object inherits from [Object.prototype].
    Each of them is a function, or for [__proto__] the prototype object
    itself: a truthy value that is not a string. *)
Definition OBJECT_PROTOTYPE_MEMBERS : list string :=
  ["constructor"; "__defineGetter__"; "__defineSetter__"; "hasOwnProperty";
   "__lookupGetter__"; "__lookupSetter__"; "isPrototypeOf";
   "propertyIsEnumerable"; "toString"; "valueOf"; "__proto__";
   "toLocaleString"].

Definition inherited (name : string) : bool :=
  existsb (String.eqb name) OBJECT_PROTOTYPE_MEMBERS.

(** [publisherIds[roomId]] on the plain object whose own properties are
    [ids]: the own property when there is one, else what the prototype
    holds under that name, else [undefined]. *)
Definition lookup_id (ids : gmap string string) (roomId : string) : JsVal :=
  match ids !! roomId with
  | Some u => JsStr u
  | None => JsOther (inherited roomId)
  end.

(** The token service's answer to [fetch], as [fetchHubToken] sees it. *)
Inductive HttpOutcome :=
| FetchThrows                          (* network failure, body not JSON *)
| Response (status : Z) (body_token : option string).

Record TokenResult := mkTokenResult {
  token : option string;
  isAuthError : bool
}.

Definition fetchHubToken (o : HttpOutcome) : TokenResult :=
  match o with
  | Response status tok =>
      if ((200 <=? status) && (status <=? 299))%Z then mkTokenResult tok false
      else if (status =? 401)%Z then mkTokenResult None true
      else mkTokenResult None false
  | FetchThrows => mkTokenResult None false
  end.

(** [!tokenResult.token] is false exactly for a non-empty string. *)
Definition usable_token (r : TokenResult) : option string :=
  match token r with
  | Some t => if JsString.truthy t then Some t else None
  | None => None
  end.

Section WithHost.
Context `{HubHost}.

(** The replacement callback of [generateUUID], applied to the template
    from left to right; [k] counts the calls of [Math.random]. *)
Fixpoint fill_template (tpl : string) (k : nat) : string * nat :=
  match tpl with
  | EmptyString => (EmptyString, k)
  | String c rest =>
      if Ascii.eqb c "x" then
        let r := random16 k mod 16 in
        let '(s, k') := fill_template rest (S k) in
        (String (hex_digit r) s, k')
      else if Ascii.eqb c "y" then
        let r := random16 k mod 16 in
        let v := Nat.lor (Nat.land r 3) 8 in
        let '(s, k') := fill_template rest (S k) in
        (String (hex_digit v) s, k')
      else
        let '(s, k') := fill_template rest k in
        (String c s, k')
  end.

Definition generateUUID (w : World) : string * World :=
  let '(u, k) := fill_template UUID_TEMPLATE (randoms w) in
  (u, set_randoms k w).

(** The callback [getPublisherId] passes to [chrome.storage.local.get],
    run on the map [result] that the read returned: when
    [publisherIds[roomId]] is falsy an id is generated, assigned and the
    whole map written back; the promise resolves with
    [publisherIds[roomId]]. *)
Definition getPublisherId_callback (roomId : string)
    (result : gmap string string) (w : World) : JsVal * World :=
  if js_truthy (lookup_id result roomId) then (lookup_id result roomId, w)
  else
    let '(u, w1) := generateUUID w in
    (JsStr u, set_publisherIds (<[roomId := u]> result) w1).


(** *** The [HubPublisher] methods *)

Definition clearRetryAlarm (w : World) : World := set_alarm None w.

(** [now] is [Date.now()]; the [roomId] parameter is not used by the body. *)
Definition scheduleRetry (now : Z) (roomId : string)
    (overrideBackoff : option Z) (w : World) : World :=
  if MAX_RETRIES <=? retryCount w then clearRetryAlarm w
  else
    let w1 := clearRetryAlarm w in
    let w2 := set_retryCount (S (retryCount w1)) w1 in
    let backoff :=
      match overrideBackoff with
      | Some b => b
      | None => exponential_backoff (retryCount w2)
      end in
    set_alarm (Some (now + backoff)%Z) w2.

Definition disconnect (w : World) : World :=
  let w1 := clearRetryAlarm w in
  let w2 :=
    match ws w1 with
    | Some id =>
        set_ws None
          (update_socket id (fun s => close_socket (detach_onclose s)) w1)
    | None => w1
    end in
  set_isConnecting false w2.

Definition enqueue (message : Envelope) (w : World) : World :=
  set_queue (push_shift QUEUE_CAP (queue w) message) w.

(** [this.ws.send(msgStr)]: the frame is logged on the socket when [send]
    accepts it. *)
Definition ws_send (msgStr : string) (w : World) : bool * World :=
  match ws w, current_socket w with
  | Some id, Some s =>
      if socket_send s msgStr
      then (true, update_socket id (log_sent msgStr) w)
      else (false, w)
  | _, _ => (false, w)
  end.

(** The world after the current socket has accepted the given frames, one
    after another. *)
Definition log_frames (frames : list string) (w : World) : World :=
  fold_left
    (fun w frame =>
       match ws w with
       | Some id => update_socket id (log_sent frame) w
       | None => w
       end) frames w.

(** Two worlds that differ in their socket objects at most. *)
Definition same_but_sockets (w w' : World) : Prop :=
  ws w' = ws w /\ queue w' = queue w /\ retryCount w' = retryCount w /\
  currentRoom w' = currentRoom w /\ isConnecting w' = isConnecting w /\
  authErrorBackoff w' = authErrorBackoff w /\ alarm w' = alarm w /\
  publisherIds w' = publisherIds w /\ randoms w' = randoms w /\
  inflight w' = inflight w.

Definition publish (message : Envelope) (w : World) : World :=
  match stringify message with
  | None => w
  | Some msgStr =>
      if ws_is_open w then
        match ws_send msgStr w with
        | (true, w') => w'
        | (false, w') => enqueue message w'
        end
      else enqueue message w
  end.

(** The [while] loop of [flushQueue] over the queue [q]; the world's own
    [queue] field is written back by [flushQueue]. *)
Fixpoint flush_loop (q : list Envelope) (w : World) : list Envelope * World :=
  match q with
  | [] => ([], w)
  | message :: rest =>
      if ws_is_open w then
        match stringify message with
        | None => (message :: rest, w)
        | Some msgStr =>
            match ws_send msgStr w with
            | (true, w') => flush_loop rest w'
            | (false, w') => (message :: rest, w')
            end
        end
      else (q, w)
  end.

Definition flushQueue (w : World) : World :=
  let '(q, w') := flush_loop (queue w) w in
  set_queue q w'.

(** [connect] up to its first [await]: the flag tells whether the call
    went on to request the publisher id. *)
Definition connect_begin (roomId : string) (w : World) : World * bool :=
  if negb (JsString.truthy roomId) then (w, false)
  else if bool_decide (currentRoom w = Some roomId) && ws_is_open w
  then (w, false)
  else
    let w1 :=
      if bool_decide (currentRoom w = Some roomId) then w
      else
        set_authErrorBackoff false
          (set_retryCount 0 (set_currentRoom (Some roomId) (disconnect w))) in
    if isConnecting w1 then (w1, false)
    else if ws_is_live w1 then (w1, false)
    else (clearRetryAlarm (set_isConnecting true w1), true).

(** [connect(roomId)] as a caller sees it: the synchronous part, and the
    suspended rest of the call when there is one. *)
Definition connect (roomId : string) (w : World) : World :=
  match connect_begin roomId w with
  | (w1, true) =>
      set_inflight (inflight w1 ++ [AwaitIdentity roomId (publisherIds w1)]) w1
  | (w1, false) => w1
  end.

Definition wsUrl (roomId tok : string) : string :=
  String.append "wss://" (String.append HUB_HOST
    (String.append "/?room=" (String.append roomId
      (String.append "&role=pub&token=" tok)))).

Definition new_socket (roomId tok : string) (w : World) : World :=
  set_ws (Some (length (sockets w)))
    (set_sockets
       (sockets w ++ [mkWebSocket roomId (wsUrl roomId tok) CONNECTING
                        (Some roomId) []]) w).

(** [connect] from the moment [fetchHubToken] has answered.
    [ctor_ok] tells whether [new WebSocket(wsUrl)] returned or threw. *)
Definition connect_resume (now : Z) (roomId : string) (r : TokenResult)
    (ctor_ok : bool) (w : World) : World :=
  match usable_token r with
  | None =>
      let w1 := set_isConnecting false w in
      if isAuthError r then
        scheduleRetry now roomId (Some AUTH_ERROR_BACKOFF_MS)
          (set_authErrorBackoff true w1)
      else scheduleRetry now roomId None w1
  | Some tok =>
      let w1 := set_authErrorBackoff false w in
      if ctor_ok then new_socket roomId tok w1
      else scheduleRetry now roomId None (set_isConnecting false w1)
  end.

(** The three handlers [connect] attaches to a new socket. *)
Definition onopen (w : World) : World :=
  flushQueue (set_retryCount 0 (set_isConnecting false w)).

Definition onerror (w : World) : World := w.

Definition onclose (now : Z) (roomId : string) (w : World) : World :=
  scheduleRetry now roomId None (set_ws None (set_isConnecting false w)).

(** The [chrome.alarms.onAlarm] listener for the [hub-retry] alarm. *)
Definition onAlarm (w : World) : World :=
  match currentRoom w with
  | Some room => connect room w
  | None => w
  end.

Definition publishMessage (now : Z) (handData : Page.HandData)
    (publisherId : JsVal) (w : World) : World :=
  publish
    (mkEnvelope publisherId (js_or_null (Page.hd_playerId handData))
       (js_or_null (Page.hd_playerName handData)) handData now) w.

(** [handleHandData] up to the point where it waits for the publisher id.
    The promise of [getPublisherId] is never rejected, so the [catch]
    branch, which would publish under a fresh [generateUUID()], is not
    part of the model. *)
Definition handleHandData (handData : Page.HandData) (w : World) : World :=
  if negb (js_truthy (Page.hd_url handData)) then w
  else
    match extractRoomFromUrl (Page.hd_url handData) with
    | None => w
    | Some roomId =>
        let w1 := connect roomId w in
        set_inflight
          (inflight w1 ++ [AwaitPublish roomId handData (publisherIds w1)]) w1
    end.

(** *** The worker's event loop

    One event is one task of the loop.  An event that cannot happen in the
    world at hand (no such suspended continuation, a socket that does not
    exist or has already closed, no alarm set) has no successor. *)
Inductive Event :=
| EvHandData (handData : Page.HandData)
| EvIdentity (k : nat)
| EvToken (k : nat) (now : Z) (o : HttpOutcome) (ctor_ok : bool)
| EvPublish (k : nat) (now : Z)
| EvSocketOpen (id : nat)
| EvSocketError (id : nat)
| EvSocketClose (id : nat) (now : Z)
| EvAlarm.

Definition take_task (k : nat) (w : World) : option (Task * World) :=
  match inflight w !! k with
  | Some t => Some (t, set_inflight (delete k (inflight w)) w)
  | None => None
  end.

Definition step (w : World) (e : Event) : option World :=
  match e with
  | EvHandData handData => Some (handleHandData handData w)
  | EvIdentity k =>
      match take_task k w with
      | Some (AwaitIdentity roomId snapshot, w1) =>
          let '(pid, w2) := getPublisherId_callback roomId snapshot w1 in
          Some (set_inflight (inflight w2 ++ [AwaitToken roomId pid]) w2)
      | _ => None
      end
  | EvToken k now o ctor_ok =>
      match take_task k w with
      | Some (AwaitToken roomId _, w1) =>
          Some (connect_resume now roomId (fetchHubToken o) ctor_ok w1)
      | _ => None
      end
  | EvPublish k now =>
      match take_task k w with
      | Some (AwaitPublish roomId handData snapshot, w1) =>
          let '(pid, w2) := getPublisherId_callback roomId snapshot w1 in
          Some (publishMessage now handData pid w2)
      | _ => None
      end
  | EvSocketOpen id =>
      match sockets w !! id with
      | Some s =>
          if is_CONNECTING (readyState s)
          then Some (onopen (update_socket id (set_readyState OPEN) w))
          else None
      | None => None
      end
  | EvSocketError id =>
      match sockets w !! id with
      | Some _ => Some (onerror w)
      | None => None
      end
  | EvSocketClose id now =>
      match sockets w !! id with
      | Some s =>
          if is_CLOSED (readyState s) then None
          else
            let w1 := update_socket id (set_readyState CLOSED) w in
            match ws_onclose s with
            | Some roomId => Some (onclose now roomId w1)
            | None => Some w1
            end
      | None => None
      end
  | EvAlarm =>
      match alarm w with
      | Some _ => Some (onAlarm (clearRetryAlarm w))
      | None => None
      end
  end.

Fixpoint run (w : World) (es : list Event) : option World :=
  match es with
  | [] => Some w
  | e :: rest =>
      match step w e with
      | Some w' => run w' rest
      | None => None
      end
  end.

End WithHost.

End Hub.

(** ** Concrete hosts, for running the model *)

Module Demo.

(** A port that accepts a given number of messages and throws afterwards. *)
Definition budget_port (Msg : Type) : PortHost Msg := {|
  Port := nat;
  postMessage p _ := match p with 0 => (false, 0) | S n => (true, n) end
|}.

(** A worker host in which nothing throws: an envelope is serialised to its
    publisher id and card fields (a field that is not a string as null),
    and the k-th random digit is [digits k]. *)
Definition url_text (v : JsVal) : string :=
  match v with
  | JsStr u => u
  | JsOther _ => "null"
  end.

Definition serialise (e : Hub.Envelope) : string :=
  String.append (url_text (Hub.publisherId e))
    (String.append " " (String.append (url_text (Page.hd_url (Hub.data e)))
       (String.append " " (String.append (Page.hd_value1 (Hub.data e))
          (String.append (Page.hd_suit1 (Hub.data e))
             (String.append (Page.hd_value2 (Hub.data e))
                (Page.hd_suit2 (Hub.data e)))))))).

Definition reliable (digits : nat -> nat) : Hub.HubHost := {|
  Hub.stringify e := Some (serialise e);
  Hub.socket_send _ _ := true;
  Hub.random16 := digits
|}.

(** A worker host in which [JSON.stringify] throws, as it does on a value
    that is cyclic or holds a BigInt. *)
Definition throwing (digits : nat -> nat) : Hub.HubHost := {|
  Hub.stringify _ := None;
  Hub.socket_send _ _ := true;
  Hub.random16 := digits
|}.

(** Ace-king suited, seen on the page at [u]. *)
Definition hand_at (u : string) : Page.HandData :=
  Page.mkHandData "A" "s" "K" "s" (JsStr u) (JsOther false) (JsOther false) 0.


(** A hand arrives for room r; the token service answers 401; the retry
    alarm fires and the token service answers 500. *)
Definition auth_trace : list Hub.Event :=
  [ Hub.EvHandData (hand_at "https://host/games/r");
    Hub.EvIdentity 0;
    Hub.EvToken 1 1000 (Hub.Response 401 None) true;
    Hub.EvAlarm;
    Hub.EvIdentity 1;
    Hub.EvToken 1 70000 (Hub.Response 500 None) true ].

(** The same beginning, with 500 as the first answer. *)
Definition plain_trace : list Hub.Event :=
  [ Hub.EvHandData (hand_at "https://host/games/r");
    Hub.EvIdentity 0;
    Hub.EvToken 1 1000 (Hub.Response 500 None) true ].


(** A hand for room A, a hand for room B, and then the answers to the
    connection attempt for A. *)
Definition stale_trace : list Hub.Event :=
  [ Hub.EvHandData (hand_at "https://host/games/A");
    Hub.EvHandData (hand_at "https://host/games/B");
    Hub.EvIdentity 0;
    Hub.EvToken 3 20 (Hub.Response 200 (Some "tok")) true ].


(** The worker after a hand for room r has arrived and the socket to r
    has opened. *)
Definition connected_trace : list Hub.Event :=
  [ Hub.EvHandData (hand_at "https://host/games/r");
    Hub.EvIdentity 0;
    Hub.EvToken 1 0 (Hub.Response 200 (Some "tok")) true;
    Hub.EvSocketOpen 0 ].

Definition connected (digits : nat -> nat) : Hub.World :=
  default Hub.init (Hub.run (H := reliable digits) Hub.init connected_trace).

Definition room_r_socket : Hub.WebSocket :=
  Hub.mkWebSocket "r" "wss://dom-hub.onrender.com/?room=r&role=pub&token=tok"
    Hub.OPEN (Some "r") [].

(** The n-th of a series of envelopes. *)
Definition envelope (n : nat) : Hub.Envelope :=
  Hub.mkEnvelope (JsStr "00000000-0000-4000-8000-000000000000")
    (JsOther false)
    (JsOther false) (hand_at "https://host/games/r") (Z.of_nat n).

Definition hand (v1 s1 v2 s2 : string) (u : string) : Page.Hand :=
  Page.mkHand v1 s1 v2 s2 (JsStr u) (JsOther false) (JsOther false).

Definition hand_object (h : Page.Hand) : Page.HandObject :=
  Page.mkHandObject (JsStr (Page.value1 h)) (JsStr (Page.suit1 h))
    (JsStr (Page.value2 h)) (JsStr (Page.suit2 h)) (Page.url h)
    (Page.playerId h) (Page.playerName h).

Definition from_page (h : Page.Hand) : Page.MessageEvent :=
  Page.mkMessageEvent true true
    (Page.TextString (Page.ParsedObject (hand_object h))).

(** A port that never throws. *)
Definition steady_port (Msg : Type) : PortHost Msg := {|
  Port := unit;
  postMessage p _ := (true, p)
|}.

(** Two messages sent before a port that never throws is connected, and
    one after. *)
Definition steady_trace
  : list (Channel.Event (Msg := nat) (H := steady_port nat)) :=
  [ Channel.EvSend 1; Channel.EvSend 2;
    Channel.EvConnect (Channel.ConnectReturns (H := steady_port nat) tt);
    Channel.EvSend 3 ].

(** The worker with a publisher id stored for room r and nothing else. *)
Definition known_room : Hub.World :=
  Hub.set_publisherIds {[ "r" := "p1" ]} Hub.init.

End Demo.

(** ** The fold table of the content script: [checkRange] *)

Module Range.

(** The rank names as the content script orders them (its [values]), and
    as the range table orders them ([DEFAULT_RANGE_VALUES], which is also
    the [values] of the background script). *)
Definition values : list string :=
  ["2"; "3"; "4"; "5"; "6"; "7"; "8"; "9"; "10"; "J"; "Q"; "K"; "A"].

Definition DEFAULT_RANGE_VALUES : list string :=
  ["A"; "K"; "Q"; "J"; "10"; "9"; "8"; "7"; "6"; "5"; "4"; "3"; "2"].

Definition DEFAULT_RANGE_SIZE : nat := 169.

(** [a.indexOf(x)] on an array of strings; [None] is -1. *)
Fixpoint indexOf (x : string) (a : list string) : option nat :=
  match a with
  | [] => None
  | y :: rest =>
      if String.eqb y x then Some 0
      else match indexOf x rest with
           | Some i => Some (S i)
           | None => None
           end
  end.

(** [a + " " + b + " " + tag] *)
Definition spaced (a b tag : string) : string :=
  String.append a (String.append " " (String.append b (String.append " " tag))).

(** The string pushed for the indices [i] and [j] of the two loops that
    build the table, over the array [vals]. *)
Definition cell (vals : list string) (i j : nat) : string :=
  if j <? i then spaced (nth j vals EmptyString) (nth i vals EmptyString) "o"
  else spaced (nth i vals EmptyString) (nth j vals EmptyString) "s".

(** The nested [for] loops of [buildDefaultRange] and of the background
    script's [onInstalled] listener. *)
Definition build (vals : list string) : list string :=
  flat_map (fun i => map (fun j => cell vals i j) (seq 0 (length vals)))
    (seq 0 (length vals)).

Definition buildDefaultRange : list string := build DEFAULT_RANGE_VALUES.

(** What [chrome.storage.local.get(["fold", "range"])] returned: [None]
    for a property that is missing or not an array.  An entry of [fold] is
    only ever read through [Boolean(...)], so it is kept as its
    truthiness. *)
Record Stored := mkStored {
  s_range : option (list string);
  s_fold : option (list bool)
}.

Definition needs_default {A : Type} (a : option (list A)) : bool :=
  match a with
  | Some l => negb (length l =? DEFAULT_RANGE_SIZE)
  | None => true
  end.

(** [normalizeRangeFold]: the pair it returns, and what it hands to
    [safeStorageSet], if anything. *)
Definition normalizeRangeFold (result : Stored)
  : (list string * list bool) * option (list string * list bool) :=
  let needsRange := needs_default (s_range result) in
  let needsFold := needs_default (s_fold result) in
  let range :=
    if needsRange then buildDefaultRange else default [] (s_range result) in
  let fold :=
    if needsFold then replicate DEFAULT_RANGE_SIZE false
    else default [] (s_fold result) in
  ((range, fold), if needsRange || needsFold then Some (range, fold) else None).

(** The string [checkRange] looks up, for a hand whose ranks are at [c1]
    and [c2] in [values]. *)
Definition handString (hand : Page.Hand) (c1 c2 : nat) : string :=
  let pair :=
    if c1 <? c2
    then String.append (Page.value2 hand)
           (String.append " " (Page.value1 hand))
    else String.append (Page.value1 hand)
           (String.append " " (Page.value2 hand)) in
  if String.eqb (Page.value1 hand) (Page.value2 hand)
  then String.append pair " s"
  else if String.eqb (Page.suit1 hand) (Page.suit2 hand)
  then String.append pair " s"
  else String.append pair " o".

(** What the storage callback of [checkRange] does: the table it writes
    back, the [text] of the [FROM_EXTENSION] message it posts, whether it
    plays the alert, and whether it asks for [handsFolded] to be
    incremented. *)
Record Verdict := mkVerdict {
  written : option (list string * list bool);
  text : bool;
  alert : bool;
  counted : bool
}.

(** [alertUrl] tells whether [safeGetURL("media/alert.mp3")] returns a
    url. *)
Definition checkRange (alertUrl : bool) (hand : Page.Hand) (result : Stored)
  : Verdict :=
  let '((range, fold), w) := normalizeRangeFold result in
  match indexOf (Page.value1 hand) values, indexOf (Page.value2 hand) values
  with
  | Some c1, Some c2 =>
      let action :=
        match indexOf (handString hand c1 c2) range with
        | Some i => nth i fold false
        | None => false
        end in
      if action then mkVerdict w true false true
      else mkVerdict w false alertUrl false
  | _, _ => mkVerdict w false false false
  end.

(** What the background script's [onInstalled] listener stores. *)
Definition installed : Stored :=
  mkStored (Some (build DEFAULT_RANGE_VALUES))
    (Some (replicate 169 false)).

(** The position in the table of the hand with ranks at [c1] and [c2] of
    [values]: row and column count down from the ace; suited hands and
    pairs have the higher rank as row, the others as column. *)
Definition table_index (c1 c2 : nat) (suited : bool) : nat :=
  let hi := Nat.max c1 c2 in
  let lo := Nat.min c1 c2 in
  if suited || (c1 =? c2) then (12 - hi) * 13 + (12 - lo)
  else (12 - lo) * 13 + (12 - hi).

Definition swap (hand : Page.Hand) : Page.Hand :=
  Page.mkHand (Page.value2 hand) (Page.suit2 hand) (Page.value1 hand)
    (Page.suit1 hand) (Page.url hand) (Page.playerId hand)
    (Page.playerName hand).

End Range.

(** ** Descriptions used to state properties of runs *)

Module Expect.

#[export] Instance same_cards_dec (h1 h2 : Page.Hand) :
  Decision (Page.same_cards h1 h2).
Proof. unfold Page.same_cards. apply _. Defined.

(** The hands of a list that do not repeat the cards of the hand just
    before them; [prev] is the hand before the first. *)
Fixpoint fresh (prev : option Page.Hand) (hands : list (Z * Page.Hand))
  : list (Z * Page.Hand) :=
  match hands with
  | [] => []
  | (now, h) :: rest =>
      match prev with
      | Some p =>
          if decide (Page.same_cards h p) then fresh (Some h) rest
          else (now, h) :: fresh (Some h) rest
      | None => (now, h) :: fresh (Some h) rest
      end
  end.

(** The hands among a list of window messages, with their times. *)
Definition accepted_hands (evs : list (Z * Page.MessageEvent))
  : list (Z * Page.Hand) :=
  omap (fun '(now, ev) =>
          match Page.accepted ev with
          | Some h => Some (now, h)
          | None => None
          end) evs.

(** The port manager event of sending the message for a hand. *)
Definition send_event `{PortHost Page.HandData} (x : Z * Page.Hand)
  : Channel.Event (Msg := Page.HandData) :=
  Channel.EvSend (Page.hand_data (fst x) (snd x)).

(** The messages among a list of port manager events. *)
Definition sends {Msg : Type} `{PortHost Msg}
    (es : list (Channel.Event (Msg := Msg))) : list Msg :=
  omap (fun e => match e with Channel.EvSend m => Some m | _ => None end) es.

(** A port manager state whose pending timer, if any, waits the delay of
    the current attempt, within the budget of attempts. *)
Definition timer_in_step {Msg : Type} `{PortHost Msg}
    (st : Channel.State (Msg := Msg)) : Prop :=
  Channel.reconnectAttempts st <= Channel.MAX_RECONNECT_ATTEMPTS /\
  forall d, Channel.reconnectTimer st = Some d ->
            1 <= Channel.reconnectAttempts st /\
            d = Channel.reconnect_delay (Channel.reconnectAttempts st).

Definition is_hex (c : ascii) : bool :=
  existsb (Ascii.eqb c) (list_ascii_of_string "0123456789abcdef").

Definition is_variant (c : ascii) : bool :=
  existsb (Ascii.eqb c) (list_ascii_of_string "89ab").

(** A string of the shape of a template of [x], [y] and literal characters:
    a hexadecimal digit for [x], one of 8, 9, a, b for [y]. *)
Fixpoint matches_template (tpl u : string) : bool :=
  match tpl, u with
  | EmptyString, EmptyString => true
  | String t tpl', String c u' =>
      (if Ascii.eqb t "x" then is_hex c
       else if Ascii.eqb t "y" then is_variant c
       else Ascii.eqb t c)
      && matches_template tpl' u'
  | _, _ => false
  end.


(** A string without any of the characters that delimit a room. *)
Definition plain (s : string) : Prop :=
  forall c, In c (list_ascii_of_string s) ->
            c <> "/"%char /\ c <> "?"%char /\ c <> "#"%char.

(** A token service answer that lets [connect] open a socket. *)
Definition grants (o : Hub.HttpOutcome) (tok : string) : Prop :=
  exists status,
    o = Hub.Response status (Some tok) /\
    (200 <= status <= 299)%Z /\ tok <> EmptyString.

(** The room a suspended connection attempt is for. *)
Definition attempt_room (t : Hub.Task) : option string :=
  match t with
  | Hub.AwaitIdentity r _ | Hub.AwaitToken r _ => Some r
  | Hub.AwaitPublish _ _ _ => None
  end.

Definition task_room (t : Hub.Task) : string :=
  match t with
  | Hub.AwaitIdentity r _ | Hub.AwaitToken r _ | Hub.AwaitPublish r _ _ => r
  end.

(** A socket as [connect] makes and keeps them: its room is not the empty
    string, its [onclose] handler, while attached, is the closure made
    with that room as its [roomId], a socket without the handler is
    closing or closed, and a socket that is still connecting has been sent
    nothing. *)
Definition socket_ok (s : Hub.WebSocket) : Prop :=
  JsString.truthy (Hub.ws_room s) = true /\
  (forall r, Hub.ws_onclose s = Some r -> r = Hub.ws_room s) /\
  (Hub.ws_onclose s = None ->
   Hub.is_CONNECTING (Hub.readyState s) = false /\
   Hub.is_OPEN (Hub.readyState s) = false) /\
  (Hub.is_CONNECTING (Hub.readyState s) = true -> Hub.ws_sent s = []).

(** A worker in order: [ws] refers to a socket that exists, has not
    closed and still has its [onclose] handler; the retry count is within
    its budget; the targeted room and the rooms of the suspended
    continuations are not the empty string; every socket is as above. *)
Definition in_order (w : Hub.World) : Prop :=
  (forall id, Hub.ws w = Some id ->
     exists s, Hub.sockets w !! id = Some s /\
               Hub.ws_onclose s = Some (Hub.ws_room s) /\
               Hub.is_CLOSED (Hub.readyState s) = false) /\
  Hub.retryCount w <= Hub.MAX_RETRIES /\
  (forall r, Hub.currentRoom w = Some r -> JsString.truthy r = true) /\
  Forall (fun t => JsString.truthy (task_room t) = true) (Hub.inflight w) /\
  Forall socket_ok (Hub.sockets w).

(** The numbers of the [readyState] constants of a [WebSocket]. *)
Definition state_rank (r : Hub.ReadyState) : nat :=
  match r with
  | Hub.CONNECTING => 0
  | Hub.OPEN => 1
  | Hub.CLOSING => 2
  | Hub.CLOSED => 3
  end.

(** A socket at a later time: the same room and url, a state that has not
    gone back, the frames sent so far and perhaps more, none more once it
    was closing, and no [onclose] handler again once it was taken off. *)
Definition socket_advances (s s' : Hub.WebSocket) : Prop :=
  Hub.ws_room s' = Hub.ws_room s /\
  Hub.ws_url s' = Hub.ws_url s /\
  state_rank (Hub.readyState s) <= state_rank (Hub.readyState s') /\
  Hub.ws_sent s `prefix_of` Hub.ws_sent s' /\
  (2 <= state_rank (Hub.readyState s) -> Hub.ws_sent s' = Hub.ws_sent s) /\
  (Hub.ws_onclose s = None -> Hub.ws_onclose s' = None).

Definition sockets_advance (w w' : Hub.World) : Prop :=
  forall id s, Hub.sockets w !! id = Some s ->
    exists s', Hub.sockets w' !! id = Some s' /\ socket_advances s s'.

End Expect.

(** * Properties *)

(** ** Bounded queues *)

Section PushShift.
Context {A : Type}.
Implicit Types (q ms : list A) (m : A) (cap : nat).

Lemma push_shift_length_le cap q m :
  length q <= cap -> length (push_shift cap q m) <= cap.
Proof.
  intros Hq. unfold push_shift. cbn zeta.
  destruct (Nat.ltb_spec cap (length (q ++ [m]))) as [Hlt|Hge]; [|lia].
  rewrite length_app in Hlt. cbn in Hlt.
  destruct q as [|x q]; cbn in *; [lia|].
  rewrite length_app. cbn. lia.
Qed.

Lemma push_shift_drop cap q m :
  length q <= cap ->
  push_shift cap q m = drop (length (q ++ [m]) - cap) (q ++ [m]).
Proof.
  intros Hq. unfold push_shift. cbn zeta.
  destruct (Nat.ltb_spec cap (length (q ++ [m]))) as [Hlt|Hge].
  - rewrite length_app in *. cbn in *.
    replace (length q + 1 - cap) with 1 by lia.
    by destruct q.
  - replace (length (q ++ [m]) - cap) with 0 by lia. done.
Qed.

Lemma fold_push_shift cap ms : forall q,
  length q <= cap ->
  fold_left (push_shift cap) ms q = drop (length (q ++ ms) - cap) (q ++ ms).
Proof.
  induction ms as [|m ms IH]; intros q Hq.
  - cbn. rewrite app_nil_r. replace (length q - cap) with 0 by lia. done.
  - cbn [fold_left]. rewrite IH by (by apply push_shift_length_le).
    rewrite push_shift_drop by done.
    set (d := length (q ++ [m]) - cap).
    assert (Hd : d <= length (q ++ [m])) by (unfold d; lia).
    assert (Hcap : d = 0 \/ length (q ++ [m]) = cap + d).
    { unfold d. rewrite length_app in *. cbn in *. lia. }
    replace (drop d (q ++ [m]) ++ ms) with (drop d ((q ++ [m]) ++ ms))
      by (by rewrite drop_app_le).
    rewrite drop_drop, <- app_assoc. cbn [app].
    f_equal. rewrite length_drop, !length_app in *. cbn in *. lia.
Qed.

Lemma fold_push_shift_last cap ms q :
  length q <= cap -> cap <= length ms ->
  fold_left (push_shift cap) ms q = drop (length ms - cap) ms.
Proof.
  intros Hq Hms. rewrite fold_push_shift by done.
  rewrite length_app.
  replace (length q + length ms - cap)
    with (length q + (length ms - cap)) by lia.
  by rewrite drop_app_add.
Qed.

Lemma fold_push_shift_length cap ms : forall q,
  length q <= cap -> length (fold_left (push_shift cap) ms q) <= cap.
Proof.
  induction ms as [|m ms IH]; intros q Hq; cbn; [done|].
  by apply IH, push_shift_length_le.
Qed.

End PushShift.

(** ** The port manager *)

Section ChannelFacts.
Context {Msg : Type} `{PortHost Msg}.
Implicit Types (st : Channel.State (Msg := Msg)) (msg : Msg) (q : list Msg).

Lemma posts_snoc p ms p1 msg p2 :
  Channel.posts p ms p1 -> postMessage p1 msg = (true, p2) ->
  Channel.posts p (ms ++ [msg]) p2.
Proof.
  induction 1 as [p|p m0 p0 ms p1 Hm _ IH]; intros Hlast; cbn.
  - econstructor; [exact Hlast|constructor].
  - econstructor; [exact Hm|by apply IH].
Qed.

(** The loop of [flushMessageQueue]: what it posts is a prefix of the
    queue, what it leaves is the rest, and it stops early only at a message
    that [postMessage] refused. *)
Lemma flush_loop_spec q : forall p sent q' p' sent',
  Channel.flush_loop q p sent = (q', p', sent') ->
  exists done p1,
    sent' = sent ++ done /\ q = done ++ q' /\ Channel.posts p done p1 /\
    ((q' = [] /\ p' = p1) \/
     (exists msg rest, q' = msg :: rest /\ postMessage p1 msg = (false, p'))).
Proof.
  induction q as [|msg rest IH]; intros p sent q' p' sent' Hrun; cbn in Hrun.
  - injection Hrun as <- <- <-. exists [], p.
    rewrite app_nil_r. repeat split; [constructor|by left].
  - destruct (postMessage p msg) as [[|] pn] eqn:Hpost.
    + apply IH in Hrun as (done & p1 & -> & -> & Hposts & Hstop).
      exists (msg :: done), p1. rewrite <- app_assoc. cbn.
      repeat split; [econstructor; eauto|exact Hstop].
    + injection Hrun as <- <- <-. exists [], p.
      rewrite app_nil_r. repeat split; [constructor|].
      right. by exists msg, rest.
Qed.

Lemma enqueue_fold_queue msgs : forall st,
  Channel.messageQueue
    (fold_left (fun s m => Channel.enqueueMessage m s) msgs st)
  = fold_left (push_shift Channel.MESSAGE_QUEUE_CAP) msgs
      (Channel.messageQueue st).
Proof.
  induction msgs as [|m msgs IH]; intros st; cbn; [done|].
  by rewrite IH.
Qed.

Lemma scheduleReconnect_queue st :
  Channel.messageQueue (Channel.scheduleReconnect st) = Channel.messageQueue st
  /\ Channel.port (Channel.scheduleReconnect st) = Channel.port st
  /\ Channel.posted (Channel.scheduleReconnect st) = Channel.posted st.
Proof.
  unfold Channel.scheduleReconnect.
  destruct (Channel.reconnectTimer st); [done|].
  by destruct (_ <=? _).
Qed.

Lemma queue_and_reconnect_queue msg st :
  Channel.messageQueue (Channel.queue_and_reconnect msg st)
  = push_shift Channel.MESSAGE_QUEUE_CAP (Channel.messageQueue st) msg
  /\ Channel.port (Channel.queue_and_reconnect msg st) = Channel.port st
  /\ Channel.posted (Channel.queue_and_reconnect msg st) = Channel.posted st.
Proof.
  unfold Channel.queue_and_reconnect. cbn zeta.
  destruct (Channel.reconnectTimer _); [done|].
  destruct (scheduleReconnect_queue (Channel.enqueueMessage msg st))
    as (-> & -> & ->). done.
Qed.

(** Sending while there is no port is enqueueing. *)
Lemma send_disconnected msgs : forall st,
  Channel.port st = None ->
  Channel.port (Channel.run st (map Channel.EvSend msgs)) = None /\
  Channel.messageQueue (Channel.run st (map Channel.EvSend msgs))
  = fold_left (push_shift Channel.MESSAGE_QUEUE_CAP) msgs
      (Channel.messageQueue st).
Proof.
  induction msgs as [|m msgs IH]; intros st Hport; cbn; [done|].
  unfold Channel.sendPortMessage. rewrite Hport. cbn [fst].
  destruct (queue_and_reconnect_queue m st) as (Hq & Hp & _).
  fold (Channel.run (Channel.queue_and_reconnect m st)
          (map Channel.EvSend msgs)).
  destruct (IH (Channel.queue_and_reconnect m st)) as (Hp' & Hq');
    [by rewrite Hp|].
  by rewrite Hp', Hq', Hq.
Qed.

Lemma flushMessageQueue_length st :
  length (Channel.messageQueue (Channel.flushMessageQueue st))
  <= length (Channel.messageQueue st).
Proof.
  unfold Channel.flushMessageQueue.
  destruct (Channel.port st) as [p|]; [|done].
  destruct (Channel.flush_loop _ _ _) as [[q' p'] sent'] eqn:Hrun.
  apply flush_loop_spec in Hrun as (done & p1 & _ & -> & _). cbn.
  rewrite length_app. lia.
Qed.

(** The cap is an invariant of the script: no event takes the queue past
    it. *)
Lemma step_queue_cap st e :
  length (Channel.messageQueue st) <= Channel.MESSAGE_QUEUE_CAP ->
  length (Channel.messageQueue (Channel.step st e))
  <= Channel.MESSAGE_QUEUE_CAP.
Proof.
  intros Hcap.
  assert (Hconn : forall o s,
    length (Channel.messageQueue s) <= Channel.MESSAGE_QUEUE_CAP ->
    length (Channel.messageQueue (fst (Channel.connectPort o s)))
    <= Channel.MESSAGE_QUEUE_CAP).
  { intros [| |p] s Hs; unfold Channel.connectPort; cbn [fst]; try done.
    etransitivity; [apply flushMessageQueue_length|done]. }
  destruct e as [o|msg| |o]; cbn.
  - by apply Hconn.
  - unfold Channel.sendPortMessage.
    destruct (Channel.port st) as [p|] eqn:Hp.
    + destruct (postMessage p msg) as [[|] p']; cbn; [done|].
      destruct (queue_and_reconnect_queue msg (Channel.set_port None st))
        as (-> & _). by apply push_shift_length_le.
    + cbn. destruct (queue_and_reconnect_queue msg st) as (-> & _).
      by apply push_shift_length_le.
  - unfold Channel.onDisconnect.
    by destruct (scheduleReconnect_queue (Channel.set_port None st)) as (-> & _).
  - destruct (Channel.reconnectTimer st); [|done].
    unfold Channel.onReconnectTimer. by apply Hconn.
Qed.

Lemma run_queue_cap es : forall st,
  length (Channel.messageQueue st) <= Channel.MESSAGE_QUEUE_CAP ->
  length (Channel.messageQueue (Channel.run st es))
  <= Channel.MESSAGE_QUEUE_CAP.
Proof.
  induction es as [|e es IH]; intros st Hcap; cbn; [done|].
  by apply IH, step_queue_cap.
Qed.

End ChannelFacts.

(** ** The reconnect delay of the port manager *)

Lemma reconnect_delay_ceiling n : (Channel.reconnect_delay n <= 30000)%Q.
Proof. apply Q.le_min_r. Qed.

Lemma reconnect_delay_mono n m :
  n <= m -> (Channel.reconnect_delay n <= Channel.reconnect_delay m)%Q.
Proof.
  intros Hnm. unfold Channel.reconnect_delay.
  apply Q.min_le_compat_r.
  rewrite !(Qmult_comm Channel.RECONNECT_INTERVAL_MS).
  apply Qmult_le_compat_r; [|by vm_compute].
  apply Qpower_le_compat_l; [lia|by vm_compute].
Qed.

Lemma reconnect_delay_saturated n :
  8 <= n -> (Channel.reconnect_delay n == 30000)%Q.
Proof.
  intros Hn. unfold Channel.reconnect_delay.
  apply Q.min_r.
  apply Qle_trans with (Channel.RECONNECT_INTERVAL_MS * (3 # 2) ^ 7)%Q;
    [by vm_compute|].
  rewrite !(Qmult_comm Channel.RECONNECT_INTERVAL_MS).
  apply Qmult_le_compat_r; [|by vm_compute].
  apply Qpower_le_compat_l; [lia|by vm_compute].
Qed.

(** The delays before saturation, in milliseconds. *)
Lemma reconnect_delay_table :
  (Channel.reconnect_delay 1 == 2000 /\
   Channel.reconnect_delay 2 == 3000 /\
   Channel.reconnect_delay 3 == 4500 /\
   Channel.reconnect_delay 4 == 6750 /\
   Channel.reconnect_delay 5 == 10125 /\
   Channel.reconnect_delay 6 == 30375 # 2 /\
   Channel.reconnect_delay 7 == 91125 # 4)%Q.
Proof. repeat split; by vm_compute. Qed.

(** ** The hub publisher *)

Lemma exponential_backoff_ceiling n :
  (Hub.exponential_backoff n <= Hub.MAX_BACKOFF_MS)%Z.
Proof. apply Z.le_min_r. Qed.

Lemma exponential_backoff_mono n m :
  1 <= n -> n <= m ->
  (Hub.exponential_backoff n <= Hub.exponential_backoff m)%Z.
Proof.
  intros Hn Hnm. unfold Hub.exponential_backoff.
  apply Z.min_le_compat_r, Z.mul_le_mono_nonneg_l; [by vm_compute|].
  apply Z.pow_le_mono_r; lia.
Qed.

Lemma exponential_backoff_saturated n :
  5 <= n -> Hub.exponential_backoff n = 10000%Z.
Proof.
  intros Hn. unfold Hub.exponential_backoff.
  apply Z.min_r.
  transitivity (Hub.INITIAL_BACKOFF_MS * 2 ^ 4)%Z; [by vm_compute|].
  apply Z.mul_le_mono_nonneg_l; [by vm_compute|].
  apply Z.pow_le_mono_r; lia.
Qed.

Lemma exponential_backoff_table :
  Hub.exponential_backoff 1 = 1000%Z /\ Hub.exponential_backoff 2 = 2000%Z /\
  Hub.exponential_backoff 3 = 4000%Z /\ Hub.exponential_backoff 4 = 8000%Z.
Proof. by vm_compute. Qed.

Section HubFacts.
Context `{Hub.HubHost}.
Implicit Types (w : Hub.World) (e : Hub.Envelope) (q : list Hub.Envelope).

Lemma scheduleRetry_within now room ov w :
  Hub.retryCount w < Hub.MAX_RETRIES ->
  Hub.scheduleRetry now room ov w
  = Hub.set_alarm
      (Some (now + match ov with
                   | Some b => b
                   | None => Hub.exponential_backoff (S (Hub.retryCount w))
                   end)%Z)
      (Hub.set_retryCount (S (Hub.retryCount w)) w).
Proof.
  intros Hlt. unfold Hub.scheduleRetry.
  destruct (Nat.leb_spec Hub.MAX_RETRIES (Hub.retryCount w)); [lia|].
  by destruct w.
Qed.

Lemma scheduleRetry_exhausted now room ov w :
  Hub.MAX_RETRIES <= Hub.retryCount w ->
  Hub.scheduleRetry now room ov w = Hub.clearRetryAlarm w.
Proof.
  intros Hge. unfold Hub.scheduleRetry.
  by destruct (Nat.leb_spec Hub.MAX_RETRIES (Hub.retryCount w)); [|lia].
Qed.

Lemma scheduleRetry_queue now room ov w :
  Hub.queue (Hub.scheduleRetry now room ov w) = Hub.queue w.
Proof. unfold Hub.scheduleRetry. by destruct (_ <=? _). Qed.

Lemma ws_send_accepted frame w w' :
  Hub.ws_send frame w = (true, w') -> w' = Hub.log_frames [frame] w.
Proof.
  unfold Hub.ws_send, Hub.log_frames. cbn.
  destruct (Hub.ws w) as [id|]; [|done].
  destruct (Hub.current_socket w) as [s|]; [|done].
  destruct (Hub.socket_send s frame); [|done].
  by intros [= <-].
Qed.

Lemma ws_send_refused frame w w' :
  Hub.ws_send frame w = (false, w') -> w' = w.
Proof.
  unfold Hub.ws_send.
  destruct (Hub.ws w) as [id|]; [|by intros [= <-]].
  destruct (Hub.current_socket w) as [s|]; [|by intros [= <-]].
  destruct (Hub.socket_send s frame); [done|by intros [= <-]].
Qed.

Lemma log_frames_cons f frames w :
  Hub.log_frames (f :: frames) w
  = Hub.log_frames frames
      (match Hub.ws w with
       | Some id => Hub.update_socket id (Hub.log_sent f) w
       | None => w
       end).
Proof. reflexivity. Qed.

(** The frames change nothing but the log of the current socket. *)
Lemma log_frames_fields frames : forall w,
  Hub.same_but_sockets w (Hub.log_frames frames w).
Proof.
  induction frames as [|f frames IH]; intros w.
  - by repeat split.
  - rewrite log_frames_cons.
    specialize (IH (match Hub.ws w with
                    | Some id => Hub.update_socket id (Hub.log_sent f) w
                    | None => w
                    end)).
    unfold Hub.same_but_sockets in *.
    destruct IH as (-> & -> & -> & -> & -> & -> & -> & -> & -> & ->).
    by destruct (Hub.ws w) eqn:Hws; repeat split.
Qed.

Lemma log_frames_current frames : forall w s,
  Hub.current_socket w = Some s ->
  Hub.current_socket (Hub.log_frames frames w)
  = Some (Hub.mkWebSocket (Hub.ws_room s) (Hub.ws_url s) (Hub.readyState s)
            (Hub.ws_onclose s) (Hub.ws_sent s ++ frames)).
Proof.
  induction frames as [|f frames IH]; intros w s Hs.
  - cbn. rewrite app_nil_r, Hs. by destruct s.
  - rewrite log_frames_cons. unfold Hub.current_socket in Hs.
    destruct (Hub.ws w) as [id|] eqn:Hid; [|done].
    rewrite (IH _ (Hub.log_sent f s)).
    + cbn. by rewrite <- app_assoc.
    + unfold Hub.current_socket. cbn. rewrite Hid.
      by rewrite list_lookup_alter_eq, Hs.
Qed.

Lemma log_frames_no_socket frames : forall w,
  Hub.current_socket w = None ->
  Hub.current_socket (Hub.log_frames frames w) = None.
Proof.
  induction frames as [|f frames IH]; intros w Hnone; [done|].
  rewrite log_frames_cons. apply IH. unfold Hub.current_socket in *.
  destruct (Hub.ws w) as [id|] eqn:Hid; [|by rewrite Hid].
  cbn. by rewrite Hid, list_lookup_alter_eq, Hnone.
Qed.

(** Sending does not change whether the socket is open. *)
Lemma log_frames_open frames w :
  Hub.ws_is_open (Hub.log_frames frames w) = Hub.ws_is_open w.
Proof.
  unfold Hub.ws_is_open.
  destruct (Hub.current_socket w) as [s|] eqn:Hs.
  - by rewrite (log_frames_current frames w s Hs).
  - by rewrite (log_frames_no_socket frames w Hs).
Qed.

Lemma log_frames_app frames1 frames2 w :
  Hub.log_frames (frames1 ++ frames2) w
  = Hub.log_frames frames2 (Hub.log_frames frames1 w).
Proof. unfold Hub.log_frames. by rewrite fold_left_app. Qed.

(** The loop of [flushQueue]: the envelopes it sends are a prefix of the
    queue, their frames go to the current socket in that order, what it
    leaves is the rest of the queue, and it stops early only when the
    socket is not open or at an envelope that could not be serialised or
    sent. *)
Lemma hub_flush_loop_spec q : forall w q' w',
  Hub.flush_loop q w = (q', w') ->
  exists done frames,
    q = done ++ q' /\
    Forall2 (fun e frame => Hub.stringify e = Some frame) done frames /\
    w' = Hub.log_frames frames w /\
    (q' = [] \/ Hub.ws_is_open w' = false \/
     exists e rest, q' = e :: rest /\
       (Hub.stringify e = None \/
        exists frame, Hub.stringify e = Some frame /\
                      Hub.ws_send frame w' = (false, w'))).
Proof.
  induction q as [|e rest IH]; intros w q' w' Hrun; cbn in Hrun.
  - injection Hrun as <- <-. exists [], []. repeat split; auto.
  - destruct (Hub.ws_is_open w) eqn:Hopen.
    + destruct (Hub.stringify e) as [frame|] eqn:Hstr.
      * destruct (Hub.ws_send frame w) as [[|] w1] eqn:Hsend.
        -- apply IH in Hrun as (done & frames & -> & Hall & -> & Hstop).
           exists (e :: done), (frame :: frames).
           apply ws_send_accepted in Hsend as ->.
           repeat split; [by constructor|exact Hstop].
        -- injection Hrun as <- <-. exists [], [].
           pose proof (ws_send_refused _ _ _ Hsend) as ->.
           repeat split; [constructor|].
           right; right. exists e, rest. split; [done|].
           right. by exists frame.
      * injection Hrun as <- <-. exists [], [].
        repeat split; [constructor|].
        right; right. exists e, rest. split; [done|by left].
    + injection Hrun as <- <-. exists [], []. repeat split; auto.
Qed.

Lemma hub_flush_loop_closed q w :
  Hub.ws_is_open w = false -> Hub.flush_loop q w = (q, w).
Proof. intros Hopen. destruct q; cbn; [done|by rewrite Hopen]. Qed.

Lemma flushQueue_length w :
  length (Hub.queue (Hub.flushQueue w)) <= length (Hub.queue w).
Proof.
  unfold Hub.flushQueue.
  destruct (Hub.flush_loop (Hub.queue w) w) as [q' w'] eqn:Hrun.
  apply hub_flush_loop_spec in Hrun as (done & frames & -> & _).
  cbn. rewrite length_app. lia.
Qed.

Lemma enqueue_fold_hub_queue msgs : forall w,
  Hub.queue (fold_left (fun w e => Hub.enqueue e w) msgs w)
  = fold_left (push_shift Hub.QUEUE_CAP) msgs (Hub.queue w).
Proof.
  induction msgs as [|m msgs IH]; intros w; cbn; [done|].
  by rewrite IH.
Qed.

Lemma ws_send_set_queue frame q w :
  fst (Hub.ws_send frame (Hub.set_queue q w)) = fst (Hub.ws_send frame w).
Proof.
  unfold Hub.ws_send, Hub.current_socket. cbn.
  destruct (Hub.ws w) as [id|]; [|done].
  destruct (Hub.sockets w !! id) as [s|]; [|done].
  by destruct (Hub.socket_send s frame).
Qed.

(** Steps that leave the queue alone. *)
Ltac queue_untouched :=
  repeat (case_match; try done);
  rewrite ?scheduleRetry_queue; try done.

Lemma callback_queue roomId ids w :
  Hub.queue (snd (Hub.getPublisherId_callback roomId ids w)) = Hub.queue w.
Proof.
  unfold Hub.getPublisherId_callback, Hub.generateUUID.
  queue_untouched.
Qed.

Lemma connect_queue roomId w :
  Hub.queue (Hub.connect roomId w) = Hub.queue w.
Proof.
  unfold Hub.connect, Hub.connect_begin, Hub.disconnect.
  repeat (case_match; try done); simplify_eq; cbn; try done.
  all: by destruct (Hub.ws w).
Qed.

Lemma connect_resume_queue now roomId r ctor_ok w :
  Hub.queue (Hub.connect_resume now roomId r ctor_ok w) = Hub.queue w.
Proof. unfold Hub.connect_resume. queue_untouched. Qed.

Lemma publish_queue_cap e w :
  length (Hub.queue w) <= Hub.QUEUE_CAP ->
  length (Hub.queue (Hub.publish e w)) <= Hub.QUEUE_CAP.
Proof.
  intros Hcap. unfold Hub.publish.
  destruct (Hub.stringify e) as [frame|]; [|done].
  destruct (Hub.ws_is_open w); [|by apply push_shift_length_le].
  destruct (Hub.ws_send frame w) as [[|] w'] eqn:Hsend.
  - apply ws_send_accepted in Hsend as ->.
    by destruct (log_frames_fields [frame] w) as (_ & -> & _).
  - apply ws_send_refused in Hsend as ->. by apply push_shift_length_le.
Qed.

(** The cap is an invariant of the worker: no event takes the queue past
    it. *)
Lemma hub_step_queue_cap w ev w' :
  Hub.step w ev = Some w' ->
  length (Hub.queue w) <= Hub.QUEUE_CAP ->
  length (Hub.queue w') <= Hub.QUEUE_CAP.
Proof.
  intros Hstep Hcap. destruct ev; cbn in Hstep.
  - injection Hstep as <-. unfold Hub.handleHandData.
    repeat (case_match; try done). cbn. by rewrite connect_queue.
  - unfold Hub.take_task in Hstep.
    destruct (Hub.inflight w !! k) as [[room snap| |]|]; try done.
    destruct (Hub.getPublisherId_callback _ _ _) as [pid w2] eqn:Hcb.
    injection Hstep as <-. cbn.
    change w2 with (snd (pid, w2)). by rewrite <- Hcb, callback_queue.
  - unfold Hub.take_task in Hstep.
    destruct (Hub.inflight w !! k) as [[|room pid|]|]; try done.
    injection Hstep as <-. by rewrite connect_resume_queue.
  - unfold Hub.take_task in Hstep.
    destruct (Hub.inflight w !! k) as [[| |room hd snap]|]; try done.
    destruct (Hub.getPublisherId_callback _ _ _) as [pid w2] eqn:Hcb.
    injection Hstep as <-. apply publish_queue_cap.
    change w2 with (snd (pid, w2)). by rewrite <- Hcb, callback_queue.
  - destruct (Hub.sockets w !! id) as [s|]; [|done].
    destruct (Hub.is_CONNECTING _); [|done].
    injection Hstep as <-. unfold Hub.onopen.
    etransitivity; [apply flushQueue_length|done].
  - destruct (Hub.sockets w !! id) as [s|]; [|done]. by injection Hstep as <-.
  - destruct (Hub.sockets w !! id) as [s|]; [|done].
    destruct (Hub.is_CLOSED _); [done|].
    destruct (Hub.ws_onclose s); injection Hstep as <-; [|done].
    unfold Hub.onclose. by rewrite scheduleRetry_queue.
  - destruct (Hub.alarm w); [|done]. injection Hstep as <-.
    unfold Hub.onAlarm. destruct (Hub.currentRoom _) eqn:Hroom; [|done].
    by rewrite connect_queue.
Qed.

Lemma hub_run_queue_cap evs : forall w w',
  Hub.run w evs = Some w' ->
  length (Hub.queue w) <= Hub.QUEUE_CAP ->
  length (Hub.queue w') <= Hub.QUEUE_CAP.
Proof.
  induction evs as [|ev evs IH]; intros w w' Hrun Hcap; cbn in Hrun.
  - by injection Hrun as <-.
  - destruct (Hub.step w ev) as [w1|] eqn:Hstep; [|done].
    eapply IH; [exact Hrun|]. by eapply hub_step_queue_cap.
Qed.

(** Publishing while the socket is not open is enqueueing, for envelopes
    that can be serialised. *)
Lemma publish_closed_fold envelopes : forall w,
  Hub.ws_is_open w = false ->
  Forall (fun e => Hub.stringify e <> None) envelopes ->
  fold_left (fun w e => Hub.publish e w) envelopes w
  = fold_left (fun w e => Hub.enqueue e w) envelopes w.
Proof.
  induction envelopes as [|e envelopes IH]; intros w Hclosed Hall; [done|].
  inversion Hall as [|? ? He Hrest]; subst. cbn [fold_left].
  assert (Hpub : Hub.publish e w = Hub.enqueue e w).
  { unfold Hub.publish. destruct (Hub.stringify e); [|done].
    by rewrite Hclosed. }
  rewrite Hpub. apply IH; [|done].
  by destruct w.
Qed.

End HubFacts.

(** * The claims of the specification *)

Section Claims.
Context {Msg : Type} `{PortHost Msg} `{Hub.HubHost}.

(** C1.  A queue that is within its capacity C and then takes N > C
    enqueue operations while disconnected holds exactly the last C
    messages, in the order they were enqueued, and is never longer than C
    on the way.  C is 20 for the port manager's [messageQueue], where the
    operations are calls of [sendPortMessage] without a port, and 100 for
    the hub publisher's [queue], where they are calls of [enqueue], or of
    [publish] without an open socket for envelopes that can be
    serialised. *)
Theorem queues_keep_the_newest
    (st : Channel.State (Msg := Msg)) (sends : list Msg)
    (w : Hub.World) (envelopes : list Hub.Envelope) :
  Channel.port st = None ->
  length (Channel.messageQueue st) <= Channel.MESSAGE_QUEUE_CAP ->
  Channel.MESSAGE_QUEUE_CAP < length sends ->
  length (Hub.queue w) <= Hub.QUEUE_CAP ->
  Hub.QUEUE_CAP < length envelopes ->
  Channel.messageQueue (Channel.run st (map Channel.EvSend sends))
  = drop (length sends - 20) sends /\
  Channel.messageQueue
    (fold_left (fun s m => Channel.enqueueMessage m s) sends st)
  = drop (length sends - 20) sends /\
  (forall k,
     length (Channel.messageQueue
               (Channel.run st (map Channel.EvSend (take k sends)))) <= 20) /\
  Hub.queue (fold_left (fun w e => Hub.enqueue e w) envelopes w)
  = drop (length envelopes - 100) envelopes /\
  (forall k,
     length (Hub.queue
               (fold_left (fun w e => Hub.enqueue e w) (take k envelopes) w))
     <= 100) /\
  (Hub.ws_is_open w = false ->
   Forall (fun e => Hub.stringify e <> None) envelopes ->
   Hub.queue (fold_left (fun w e => Hub.publish e w) envelopes w)
   = drop (length envelopes - 100) envelopes).
Proof.
  intros Hport Hq Hsends Hw Henvs.
  change Channel.MESSAGE_QUEUE_CAP with 20 in *.
  change Hub.QUEUE_CAP with 100 in *.
  split_and!.
  - destruct (send_disconnected sends st Hport) as (_ & ->).
    apply fold_push_shift_last; [done|lia].
  - rewrite enqueue_fold_queue. apply fold_push_shift_last; [done|lia].
  - intros k. by apply run_queue_cap.
  - rewrite enqueue_fold_hub_queue. apply fold_push_shift_last; [done|lia].
  - intros k. rewrite enqueue_fold_hub_queue.
    by apply fold_push_shift_length.
  - intros Hclosed Hall. rewrite publish_closed_fold by done.
    rewrite enqueue_fold_hub_queue. apply fold_push_shift_last; [done|lia].
Qed.

(** C5.  [flushMessageQueue] and [flushQueue] hand the queued messages to
    the link from the head of the queue on, in order, for as long as the
    link takes them: what was transmitted followed by what is still queued
    is the queue as it was.  Without a port, or with a socket that is not
    open, nothing is transmitted.  A flush that leaves messages behind on a
    live link stopped at a transmit that failed (for the hub, at an
    envelope that [JSON.stringify] or [send] threw on), and the message
    that failed is at the head of the queue again. *)
Theorem flush_is_fifo_and_lossless
    (st : Channel.State (Msg := Msg)) (w : Hub.World) :
  (exists done,
     Channel.messageQueue st
     = done ++ Channel.messageQueue (Channel.flushMessageQueue st) /\
     Channel.posted (Channel.flushMessageQueue st)
     = Channel.posted st ++ done /\
     match Channel.port st with
     | None => done = []
     | Some p =>
         exists p1, Channel.posts p done p1 /\
           (Channel.messageQueue (Channel.flushMessageQueue st) = [] \/
            exists msg rest,
              Channel.messageQueue (Channel.flushMessageQueue st)
              = msg :: rest /\
              fst (postMessage p1 msg) = false)
     end) /\
  (exists done frames,
     Hub.queue w = done ++ Hub.queue (Hub.flushQueue w) /\
     Forall2 (fun e frame => Hub.stringify e = Some frame) done frames /\
     Hub.flushQueue w
     = Hub.set_queue (Hub.queue (Hub.flushQueue w)) (Hub.log_frames frames w) /\
     match Hub.current_socket w with
     | Some s =>
         exists s', Hub.current_socket (Hub.flushQueue w) = Some s' /\
                    Hub.ws_sent s' = Hub.ws_sent s ++ frames
     | None => frames = []
     end /\
     (if Hub.ws_is_open w then
        Hub.queue (Hub.flushQueue w) = [] \/
        exists e rest,
          Hub.queue (Hub.flushQueue w) = e :: rest /\
          (Hub.stringify e = None \/
           exists frame, Hub.stringify e = Some frame /\
             fst (Hub.ws_send frame (Hub.flushQueue w)) = false)
      else done = [])).
Proof.
  split.
  - unfold Channel.flushMessageQueue.
    destruct (Channel.port st) as [p|] eqn:Hport.
    + destruct (Channel.flush_loop _ _ _) as [[q' p'] sent'] eqn:Hrun.
      apply flush_loop_spec in Hrun
        as (done & p1 & -> & Hq & Hposts & Hstop).
      exists done. cbn. repeat split; [done|].
      exists p1. split; [done|].
      destruct Hstop as [[-> _]|(msg & rest & -> & Hfail)]; [by left|].
      right. exists msg, rest. by rewrite Hfail.
    + exists []. by rewrite app_nil_r.
  - unfold Hub.flushQueue.
    destruct (Hub.flush_loop (Hub.queue w) w) as [q' w'] eqn:Hrun.
    destruct (Hub.ws_is_open w) eqn:Hopen.
    + apply hub_flush_loop_spec in Hrun
        as (done & frames & Hq & Hall & -> & Hstop).
      exists done, frames. cbn. repeat apply conj; [done..| |].
      { unfold Hub.ws_is_open in Hopen.
        destruct (Hub.current_socket w) as [s|] eqn:Hs; [|done].
        exists (Hub.mkWebSocket (Hub.ws_room s) (Hub.ws_url s)
                  (Hub.readyState s) (Hub.ws_onclose s)
                  (Hub.ws_sent s ++ frames)).
        split; [|done]. exact (log_frames_current frames w s Hs). }
      destruct Hstop as [->|[Hclosed|(e & rest & -> & Hfail)]]; [by left| |].
      { rewrite log_frames_open in Hclosed. congruence. }
      right. exists e, rest. split; [done|].
      destruct Hfail as [Hnone|(frame & Hsome & Hsend)]; [by left|].
      right. exists frame. split; [done|].
      by rewrite ws_send_set_queue, Hsend.
    + rewrite hub_flush_loop_closed in Hrun by done.
      injection Hrun as <- <-. exists [], []. cbn.
      repeat apply conj; try done.
      destruct (Hub.current_socket w) as [s|] eqn:Hs; [|done].
      exists s. split; [exact Hs|by rewrite app_nil_r].
Qed.

(** C6.  The delay of the n-th retry (n >= 1 is the retry count after the
    increment) is min(2000 * 1.5^(n-1), 30000) ms for the port manager and
    min(1000 * 2^(n-1), 10000) ms for the hub publisher; both sequences
    are non-decreasing in n and stay at or below their ceiling; a retry
    count of 50 (port manager) or 100 (hub publisher) schedules nothing. *)
Theorem retry_delays_are_capped_exponentials
    (st : Channel.State (Msg := Msg)) (w : Hub.World) (now : Z)
    (room : string) (n m : nat) :
  1 <= n -> n <= m ->
  (Channel.reconnect_delay n
   == Qmin (2000 * (3 # 2) ^ Z.of_nat (n - 1)) 30000)%Q /\
  (Channel.reconnect_delay n <= Channel.reconnect_delay m)%Q /\
  (Channel.reconnect_delay m <= 30000)%Q /\
  (Channel.reconnectTimer st = None ->
   S (Channel.reconnectAttempts st) = n -> n <= 50 ->
   Channel.reconnectAttempts (Channel.scheduleReconnect st) = n /\
   Channel.reconnectTimer (Channel.scheduleReconnect st)
   = Some (Channel.reconnect_delay n)) /\
  (50 <= Channel.reconnectAttempts st -> Channel.scheduleReconnect st = st) /\
  Hub.exponential_backoff n = Z.min (1000 * 2 ^ Z.of_nat (n - 1)) 10000 /\
  (Hub.exponential_backoff n <= Hub.exponential_backoff m)%Z /\
  (Hub.exponential_backoff m <= 10000)%Z /\
  (S (Hub.retryCount w) = n -> n <= 100 ->
   Hub.retryCount (Hub.scheduleRetry now room None w) = n /\
   Hub.alarm (Hub.scheduleRetry now room None w)
   = Some (now + Hub.exponential_backoff n)%Z) /\
  (100 <= Hub.retryCount w ->
   forall ov,
     Hub.alarm (Hub.scheduleRetry now room ov w) = None /\
     Hub.retryCount (Hub.scheduleRetry now room ov w) = Hub.retryCount w).
Proof.
  intros Hn Hnm.
  assert (Hexp : (Z.of_nat n - 1 = Z.of_nat (n - 1))%Z) by lia.
  repeat apply conj.
  - unfold Channel.reconnect_delay. by rewrite Hexp.
  - by apply reconnect_delay_mono.
  - apply reconnect_delay_ceiling.
  - intros Htimer Hcount Hmax. unfold Channel.scheduleReconnect.
    rewrite Htimer.
    destruct (Nat.leb_spec Channel.MAX_RECONNECT_ATTEMPTS
                (Channel.reconnectAttempts st)) as [Hge|_].
    + change Channel.MAX_RECONNECT_ATTEMPTS with 50 in Hge. lia.
    + cbn. by rewrite Hcount.
  - intros Hge. unfold Channel.scheduleReconnect.
    destruct (Channel.reconnectTimer st); [done|].
    destruct (Nat.leb_spec Channel.MAX_RECONNECT_ATTEMPTS
                (Channel.reconnectAttempts st)) as [_|Hlt]; [done|].
    change Channel.MAX_RECONNECT_ATTEMPTS with 50 in Hlt. lia.
  - unfold Hub.exponential_backoff. by rewrite Hexp.
  - by apply exponential_backoff_mono.
  - apply exponential_backoff_ceiling.
  - intros Hcount Hmax. rewrite scheduleRetry_within.
    + cbn. by rewrite Hcount.
    + change Hub.MAX_RETRIES with 100. lia.
  - intros Hge ov. by rewrite scheduleRetry_exhausted.
Qed.

End Claims.

(** ** The window message listener *)

Lemma push_shift_last {A : Type} cap (q : list A) m :
  1 <= cap -> last (push_shift cap q m) = Some m.
Proof.
  intros Hcap. unfold push_shift. cbn zeta.
  destruct (cap <? length (q ++ [m])) eqn:Hlt.
  - apply Nat.ltb_lt in Hlt. rewrite length_app in Hlt. cbn in Hlt.
    destruct q as [|x q]; cbn in *; [lia|]. apply last_snoc.
  - apply last_snoc.
Qed.

Lemma compareHands_absent h1 h2 :
  h1 = None \/ h2 = None -> Page.compareHands h1 h2 = false.
Proof. intros [-> | ->]; [done|by destruct h1]. Qed.

Lemma compareHands_same_cards h1 h2 :
  Page.compareHands (Some h1) (Some h2) = true <-> Page.same_cards h1 h2.
Proof.
  unfold Page.compareHands, Page.same_cards.
  destruct (String.eqb_spec (Page.value1 h1) (Page.value1 h2));
    destruct (String.eqb_spec (Page.suit1 h1) (Page.suit1 h2));
    destruct (String.eqb_spec (Page.value2 h1) (Page.value2 h2));
    destruct (String.eqb_spec (Page.suit2 h1) (Page.suit2 h2));
    cbn; (split; [intros Heq; try discriminate; auto
                 |intros (? & ? & ? & ?); congruence]).
Qed.

Section PageFacts.
Context `{PortHost Page.HandData}.

(** A message handed to [sendPortMessage] is either accepted by the port
    or the newest entry of the queue. *)
Lemma sendPortMessage_keeps msg (st : Channel.State (Msg := Page.HandData)) :
  let st' := fst (Channel.sendPortMessage msg st) in
  (Channel.posted st' = Channel.posted st ++ [msg] /\
   Channel.messageQueue st' = Channel.messageQueue st) \/
  (Channel.posted st' = Channel.posted st /\
   last (Channel.messageQueue st') = Some msg).
Proof.
  unfold Channel.sendPortMessage.
  destruct (Channel.port st) as [p|] eqn:Hport.
  - destruct (postMessage p msg) as [[|] p']; cbn [fst]; [by left|].
    right.
    destruct (queue_and_reconnect_queue msg (Channel.set_port None st))
      as (-> & _ & ->).
    split; [done|]. apply push_shift_last.
    change Channel.MESSAGE_QUEUE_CAP with 20. lia.
  - right. cbn [fst].
    destruct (queue_and_reconnect_queue msg st) as (-> & _ & ->).
    split; [done|]. apply push_shift_last.
    change Channel.MESSAGE_QUEUE_CAP with 20. lia.
Qed.

Lemma onWindowMessage_rejected now ev pg :
  Page.accepted ev = None -> Page.onWindowMessage now ev pg = pg.
Proof.
  unfold Page.accepted, Page.onWindowMessage.
  destruct (Page.source_is_window ev); [|done].
  destruct (Page.type_is_FROM_PAGE ev); [|done]. cbn.
  destruct (Page.text ev) as [|[| |o]]; try done.
  by intros ->.
Qed.

Lemma onWindowMessage_accepted now ev hand pg :
  Page.accepted ev = Some hand ->
  Page.onWindowMessage now ev pg
  = Page.set_previousHand hand
      (if negb (Page.compareHands (Some hand) (Page.previousHand pg))
       then Page.send (Page.hand_data now hand) (Page.checkRange hand pg)
       else pg).
Proof.
  unfold Page.accepted, Page.onWindowMessage.
  destruct (Page.source_is_window ev); [|done].
  destruct (Page.type_is_FROM_PAGE ev); [|done]. cbn.
  destruct (Page.text ev) as [|[| |o]]; try done.
  by intros ->.
Qed.

Lemma run_rejected evs : forall pg,
  Forall (fun '(_, ev) => Page.accepted ev = None) evs ->
  Page.run pg evs = pg.
Proof.
  induction evs as [|[now ev] evs IH]; intros pg Hall; [done|].
  inversion Hall as [|? ? Hev Hrest]; subst. cbn.
  rewrite onWindowMessage_rejected by done. by apply IH.
Qed.

(** C10.  [compareHands] answers false whenever one of its arguments is
    absent.  Hence the first hand that passes the listener's guards after
    the script has loaded, whatever rejected messages came before it, is
    processed: [checkRange] is called with it and a [HAND_DATA] message
    for it goes to [sendPortMessage], which posts it or queues it as the
    newest entry.  Later, an accepted hand is suppressed exactly when its
    four card fields equal those of the accepted hand just before it;
    either way it becomes the previous hand. *)
Theorem first_hand_is_always_processed
    (earlier : list (Z * Page.MessageEvent)) (pg : Page.State) (now : Z)
    (ev : Page.MessageEvent) (hand : Page.Hand) :
  Page.accepted ev = Some hand ->
  let pg' := Page.onWindowMessage now ev pg in
  (forall h1 h2, h1 = None \/ h2 = None -> Page.compareHands h1 h2 = false) /\
  Page.previousHand pg' = Some hand /\
  (Forall (fun '(_, e) => Page.accepted e = None) earlier ->
   Page.processed now hand (Page.run Page.init earlier)
     (Page.onWindowMessage now ev (Page.run Page.init earlier))) /\
  (Page.previousHand pg = None -> Page.processed now hand pg pg') /\
  (forall prev, Page.previousHand pg = Some prev ->
     (Page.same_cards hand prev -> Page.suppressed pg pg') /\
     (~ Page.same_cards hand prev -> Page.processed now hand pg pg')) /\
  (Page.processed now hand pg pg' ->
   (Channel.posted (Page.chan pg')
    = Channel.posted (Page.chan pg) ++ [Page.hand_data now hand]) \/
   last (Channel.messageQueue (Page.chan pg'))
   = Some (Page.hand_data now hand)).
Proof.
  intros Hacc pg'.
  assert (Hnone : forall s, Page.previousHand s = None ->
            Page.processed now hand s (Page.onWindowMessage now ev s)).
  { intros s Hprev. rewrite (onWindowMessage_accepted _ _ _ _ Hacc), Hprev.
    by split. }
  split; [exact compareHands_absent|].
  split; [unfold pg'; by rewrite (onWindowMessage_accepted _ _ _ _ Hacc)|].
  split; [intros Hall; apply Hnone; by rewrite run_rejected|].
  split; [exact (Hnone pg)|].
  split.
  - intros prev Hprev. unfold pg'.
    rewrite (onWindowMessage_accepted _ _ _ _ Hacc), Hprev.
    destruct (Page.compareHands (Some hand) (Some prev)) eqn:Hcmp.
    + apply compareHands_same_cards in Hcmp. by split.
    + split; [|by split].
      intros Hsame. apply compareHands_same_cards in Hsame. congruence.
  - intros [_ Hchan]. rewrite Hchan.
    destruct (sendPortMessage_keeps (Page.hand_data now hand) (Page.chan pg))
      as [[Hp _]|[_ Hq]]; [by left|by right].
Qed.

End PageFacts.

(** ** Room extraction *)

Lemma split_first sep c rest :
  JsString.first (JsString.split sep (String c rest))
  = if Ascii.eqb c sep then EmptyString
    else String c (JsString.first (JsString.split sep rest)).
Proof.
  cbn. destruct (Ascii.eqb c sep); [done|].
  by destruct (JsString.split sep rest).
Qed.

Lemma split_not_nil sep s : JsString.split sep s <> [].
Proof.
  destruct s as [|c rest]; cbn; [done|].
  destruct (Ascii.eqb c sep); [done|].
  by destruct (JsString.split sep rest).
Qed.

Lemma split_single sep s seg : JsString.split sep s = [seg] -> seg = s.
Proof.
  revert seg. induction s as [|c rest IH]; intros seg; cbn.
  - by intros [= <-].
  - destruct (Ascii.eqb c sep).
    + intros [= _ Hnil]. by apply split_not_nil in Hnil.
    + destruct (JsString.split sep rest) as [|seg' segs] eqn:Hsplit;
        [by apply split_not_nil in Hsplit|].
      intros [= <- ->]. by rewrite (IH seg').
Qed.

Lemma cut_query_fragment_split url :
  JsString.first (JsString.split "#"
    (JsString.first (JsString.split "?" url)))
  = RoomSpec.cut_query_fragment url.
Proof.
  induction url as [|c rest IH]; [done|].
  rewrite split_first. cbn [RoomSpec.cut_query_fragment].
  destruct (Ascii.eqb c "?"); [done|].
  rewrite split_first. cbn [orb].
  destruct (Ascii.eqb c "#"); [done|].
  by rewrite IH.
Qed.

Lemma strip_trailing_slash_trim s :
  JsString.strip_trailing_slash s = RoomSpec.trim_slash s.
Proof.
  unfold RoomSpec.trim_slash, RoomSpec.ends_with_slash, RoomSpec.drop_last.
  induction s as [|c rest IH]; [done|].
  destruct rest as [|c' rest'].
  - cbn. by destruct (Ascii.eqb c "/").
  - change (JsString.strip_trailing_slash (String c (String c' rest')))
      with (String c (JsString.strip_trailing_slash (String c' rest'))).
    rewrite IH. cbn.
    by destruct (last (c' :: list_ascii_of_string rest')) as [x|];
      [destruct (Ascii.eqb x "/")|].
Qed.

Lemma last_elem_cons x l : exists y, JsString.last_elem (x :: l) = Some y.
Proof.
  revert x. induction l as [|z l IH]; intros x; [by exists x|].
  destruct (IH z) as [y Hy]. exists y. exact Hy.
Qed.

Lemma final_segment_split s : forall acc seg segs,
  JsString.split "/" s = seg :: segs ->
  RoomSpec.final_segment_from acc s
  = match JsString.last_elem segs with
    | Some l => l
    | None => acc
    end.
Proof.
  induction s as [|c rest IH]; intros acc seg segs; cbn.
  - by intros [= <- <-].
  - destruct (Ascii.eqb c "/").
    + intros [= <- <-].
      destruct (JsString.split "/" rest) as [|seg' segs'] eqn:Hsplit;
        [by apply split_not_nil in Hsplit|].
      rewrite (IH rest seg' segs') by done.
      destruct segs' as [|x segs'].
      * cbn. by apply split_single in Hsplit.
      * change (JsString.last_elem (seg' :: x :: segs'))
          with (JsString.last_elem (x :: segs')).
        by destruct (last_elem_cons x segs') as [y ->].
    + destruct (JsString.split "/" rest) as [|seg' segs'] eqn:Hsplit;
        [by apply split_not_nil in Hsplit|].
      intros [= <- <-]. by apply (IH acc seg' segs').
Qed.

Lemma last_segment_final s :
  JsString.last_elem (JsString.split "/" s) = Some (RoomSpec.final_segment s).
Proof.
  unfold RoomSpec.final_segment.
  destruct (JsString.split "/" s) as [|seg segs] eqn:Hsplit;
    [by apply split_not_nil in Hsplit|].
  rewrite (final_segment_split s s seg segs Hsplit).
  destruct segs as [|x segs].
  - cbn. by apply split_single in Hsplit as ->.
  - change (JsString.last_elem (seg :: x :: segs))
      with (JsString.last_elem (x :: segs)).
    by destruct (last_elem_cons x segs) as [y ->].
Qed.

(** The source computes what the specification describes. *)
Lemma extractRoomFromString_spec url :
  extractRoomFromString url = RoomSpec.room url.
Proof.
  unfold extractRoomFromString, RoomSpec.room. cbn zeta.
  rewrite cut_query_fragment_split, strip_trailing_slash_trim,
    last_segment_final.
  unfold JsString.trim_nonempty.
  destruct (RoomSpec.final_segment _) as [|c seg]; [done|].
  cbn [JsString.truthy andb].
  by destruct (JsString.all_white (String c seg)).
Qed.


(** ** Publisher identities *)

Section IdentityFacts.
Context `{Hub.HubHost}.
Implicit Types (w : Hub.World) (ids : gmap string string).

(** A generated id takes 31 random digits and is never the empty string. *)
Lemma generateUUID_draws w :
  Hub.randoms (snd (Hub.generateUUID w)) = 31 + Hub.randoms w /\
  JsString.truthy (fst (Hub.generateUUID w)) = true /\
  fst (Hub.generateUUID w)
  = fst (Hub.fill_template Hub.UUID_TEMPLATE (Hub.randoms w)) /\
  Hub.publisherIds (snd (Hub.generateUUID w)) = Hub.publisherIds w.
Proof. by unfold Hub.generateUUID. Qed.


(** A read that finds a truthy value resolves with it and writes nothing. *)
Lemma callback_settled roomId ids w :
  js_truthy (Hub.lookup_id ids roomId) = true ->
  Hub.getPublisherId_callback roomId ids w = (Hub.lookup_id ids roomId, w).
Proof. intros Hfound. unfold Hub.getPublisherId_callback. by rewrite Hfound. Qed.

Lemma callback_known roomId ids u w :
  ids !! roomId = Some u -> JsString.truthy u = true ->
  Hub.getPublisherId_callback roomId ids w = (JsStr u, w).
Proof.
  intros Hu Htruthy.
  assert (Hlook : Hub.lookup_id ids roomId = JsStr u).
  { unfold Hub.lookup_id. by rewrite Hu. }
  rewrite callback_settled; rewrite Hlook; done.
Qed.






End IdentityFacts.

(** ** Claims about the hub publisher *)

Section HubClaims.
Context `{Hub.HubHost}.
Implicit Types (w : Hub.World) (e : Hub.Envelope).


(** C7, as the code has it.  For an envelope that [JSON.stringify]
    serialises: with an open socket the frame is sent, and if [send]
    throws the envelope is enqueued; without an open socket the envelope
    is enqueued; an enqueued envelope is the newest entry of a queue of at
    most 100, so such an envelope is never discarded.  An envelope that
    [JSON.stringify] throws on is dropped: the world is left as it was. *)
Theorem publish_sends_or_queues (e : Hub.Envelope) (w : Hub.World) :
  match Hub.stringify e with
  | Some frame =>
      (if Hub.ws_is_open w then
         if fst (Hub.ws_send frame w)
         then Hub.publish e w = Hub.log_frames [frame] w
         else Hub.publish e w = Hub.enqueue e w
       else Hub.publish e w = Hub.enqueue e w)
  | None => Hub.publish e w = w
  end /\
  Hub.queue (Hub.enqueue e w) = push_shift 100 (Hub.queue w) e /\
  last (Hub.queue (Hub.enqueue e w)) = Some e /\
  (length (Hub.queue w) <= 100 ->
   length (Hub.queue (Hub.enqueue e w)) <= 100).
Proof.
  repeat apply conj.
  - unfold Hub.publish.
    destruct (Hub.stringify e) as [frame|]; [|done].
    destruct (Hub.ws_is_open w); [|done].
    destruct (Hub.ws_send frame w) as [[|] w'] eqn:Hsend; cbn [fst].
    + by apply ws_send_accepted.
    + by apply ws_send_refused in Hsend as ->.
  - done.
  - apply push_shift_last. change Hub.QUEUE_CAP with 100. lia.
  - apply push_shift_length_le.
Qed.

(** C2, as the code has it.  A 401 from the token service sets
    [authErrorBackoff] and, while [retryCount] is below 100, sets the
    alarm to the fixed 60000 ms whatever [retryCount] is, and increments
    [retryCount]; from 100 on it schedules nothing.  Because of the
    increment, a later failure that is not a 401 waits
    min(1000 * 2^(n+1), 10000) ms, where n is the [retryCount] from before
    the 401: the 401 has advanced the exponential schedule by one step. *)
Theorem auth_failure_waits_a_fixed_minute
    (w : Hub.World) (now : Z) (roomId : string) (body : option string)
    (ctor_ok : bool) :
  let w' :=
    Hub.connect_resume now roomId (Hub.fetchHubToken (Hub.Response 401 body))
      ctor_ok w in
  Hub.authErrorBackoff w' = true /\
  (if Hub.retryCount w <? 100 then
     Hub.alarm w' = Some (now + 60000)%Z /\
     Hub.retryCount w' = S (Hub.retryCount w)
   else Hub.alarm w' = None /\ Hub.retryCount w' = Hub.retryCount w) /\
  (forall w1 now1 o ctor1,
     Hub.retryCount w1 = S (Hub.retryCount w) ->
     S (Hub.retryCount w) < 100 ->
     Hub.usable_token (Hub.fetchHubToken o) = None ->
     Hub.isAuthError (Hub.fetchHubToken o) = false ->
     Hub.alarm (Hub.connect_resume now1 roomId (Hub.fetchHubToken o) ctor1 w1)
     = Some (now1
             + Z.min (1000 * 2 ^ (Z.of_nat (Hub.retryCount w) + 1)) 10000)%Z).
Proof.
  cbn zeta. unfold Hub.connect_resume. cbn [Hub.fetchHubToken].
  change ((200 <=? 401)%Z && (401 <=? 299)%Z) with false. cbn iota.
  change (401 =? 401)%Z with true. cbn iota.
  change (Hub.usable_token (Hub.mkTokenResult None true)) with (@None string).
  cbn iota beta. cbn [Hub.isAuthError].
  repeat apply conj.
  - unfold Hub.scheduleRetry. by destruct (_ <=? _).
  - destruct (Nat.ltb_spec (Hub.retryCount w) 100) as [Hlt|Hge].
    + by rewrite scheduleRetry_within.
    + by rewrite scheduleRetry_exhausted.
  - intros w1 now1 o ctor1 Hcount Hlt Htoken Hauth.
    rewrite Htoken, Hauth. rewrite scheduleRetry_within.
    + cbn. rewrite Hcount. unfold Hub.exponential_backoff.
      do 3 f_equal. unfold Hub.INITIAL_BACKOFF_MS. do 2 f_equal. lia.
    + cbn. change Hub.MAX_RETRIES with 100. lia.
Qed.

(** C3, as the code has it.  [extractRoomFromUrl] cuts the url at the first
    [?] or [#], removes one trailing slash and returns what follows the
    last slash, or no room when that segment is empty or white space only.
    So the two game urls of the specification give room abc123, but
    https://host/ gives room host (after the trailing slash has gone, the
    host name is the last segment), and an event with that url is routed
    to room host.  An event whose url gives no room leaves the world as it
    was: nothing is connected, queued or published. *)
Theorem room_is_the_last_segment
    (url : string) (handData : Page.HandData) (w : Hub.World) :
  extractRoomFromUrl (JsStr url) = RoomSpec.room url /\
  extractRoomFromUrl (JsStr "https://host/games/abc123/") = Some "abc123" /\
  extractRoomFromUrl (JsStr "https://host/games/abc123?x=1#y")
  = Some "abc123" /\
  extractRoomFromUrl (JsStr "https://host/") = Some "host" /\
  extractRoomFromUrl (JsStr "https://host//") = None /\
  match extractRoomFromUrl (Page.hd_url handData) with
  | None => Hub.handleHandData handData w = w
  | Some roomId =>
      let w1 := Hub.connect roomId w in
      Hub.handleHandData handData w
      = Hub.set_inflight
          (Hub.inflight w1
           ++ [Hub.AwaitPublish roomId handData (Hub.publisherIds w1)]) w1
  end.
Proof.
  repeat apply conj; try reflexivity.
  - apply extractRoomFromString_spec.
  - unfold Hub.handleHandData.
    destruct (Page.hd_url handData) as [u|b]; cbn.
    + destruct u as [|c u]; [done|]. cbn.
      by destruct (extractRoomFromString (String c u)).
    + by destruct b.
Qed.

(** [disconnect] written as one update of the world. *)
Lemma disconnect_spec w :
  Hub.disconnect w
  = Hub.set_isConnecting false
      (Hub.set_ws None
         (Hub.set_sockets
            (match Hub.ws w with
             | Some id =>
                 alter (fun s => Hub.close_socket (Hub.detach_onclose s)) id
                   (Hub.sockets w)
             | None => Hub.sockets w
             end)
            (Hub.clearRetryAlarm w))).
Proof. destruct w as [[id|] q rc room ic ab socks al ids rs fl]; reflexivity. Qed.

(** [connect] for a room other than the targeted one always gets as far as
    requesting the publisher id, from a world in which the old cycle is
    gone. *)
Lemma connect_begin_switch roomId w :
  JsString.truthy roomId = true ->
  Hub.currentRoom w <> Some roomId ->
  Hub.connect_begin roomId w
  = (Hub.set_isConnecting true
       (Hub.set_authErrorBackoff false
          (Hub.set_retryCount 0
             (Hub.set_currentRoom (Some roomId) (Hub.disconnect w)))), true).
Proof.
  intros Htruthy Hroom. unfold Hub.connect_begin.
  rewrite Htruthy. cbn [negb].
  rewrite (bool_decide_eq_false_2 _ Hroom). cbn [andb].
  rewrite disconnect_spec. reflexivity.
Qed.


(** The close event of a socket whose [onclose] handler has been removed
    changes the socket and nothing else. *)
Lemma close_event_detached w id s now :
  Hub.sockets w !! id = Some s ->
  Hub.is_CLOSED (Hub.readyState s) = false ->
  Hub.ws_onclose s = None ->
  Hub.step w (Hub.EvSocketClose id now)
  = Some (Hub.update_socket id (Hub.set_readyState Hub.CLOSED) w).
Proof. intros Hs Hopen Hdet. cbn. by rewrite Hs, Hopen, Hdet. Qed.

Lemma close_event_attached w id s now roomId :
  Hub.sockets w !! id = Some s ->
  Hub.is_CLOSED (Hub.readyState s) = false ->
  Hub.ws_onclose s = Some roomId ->
  Hub.step w (Hub.EvSocketClose id now)
  = Some (Hub.onclose now roomId
            (Hub.update_socket id (Hub.set_readyState Hub.CLOSED) w)).
Proof. intros Hs Hopen Hdet. cbn. by rewrite Hs, Hopen, Hdet. Qed.

Lemma torn_down_socket s :
  let s' := Hub.close_socket (Hub.detach_onclose s) in
  Hub.ws_onclose s' = None /\
  Hub.is_CONNECTING (Hub.readyState s') = false /\
  Hub.is_OPEN (Hub.readyState s') = false /\
  Hub.is_CLOSED (Hub.readyState s') = Hub.is_CLOSED (Hub.readyState s) /\
  Hub.ws_sent s' = Hub.ws_sent s.
Proof. destruct s as [r u [] oc sent]; by cbn. Qed.


(** The retry after a close, once its alarm fires: a connection attempt
    for the room that is targeted then, whatever room the closed socket
    was for. *)
Lemma close_then_alarm w id s now roomId cur :
  Hub.sockets w !! id = Some s ->
  Hub.is_CLOSED (Hub.readyState s) = false ->
  Hub.ws_onclose s = Some roomId ->
  Hub.currentRoom w = Some cur -> JsString.truthy cur = true ->
  Hub.retryCount w < Hub.MAX_RETRIES ->
  exists w',
    Hub.run w [Hub.EvSocketClose id now; Hub.EvAlarm] = Some w' /\
    Hub.inflight w'
    = Hub.inflight w ++ [Hub.AwaitIdentity cur (Hub.publisherIds w)] /\
    Hub.currentRoom w' = Some cur /\ Hub.isConnecting w' = true /\
    Hub.ws w' = None /\ Hub.alarm w' = None /\
    Hub.retryCount w' = S (Hub.retryCount w).
Proof.
  intros Hs Hlive Hhandler Hcur Htruthy Hbudget.
  cbn [Hub.run].
  rewrite (close_event_attached _ _ _ _ _ Hs Hlive Hhandler).
  unfold Hub.onclose. rewrite scheduleRetry_within by done.
  cbn [Hub.step Hub.alarm Hub.set_alarm]. unfold Hub.onAlarm.
  cbn [Hub.currentRoom Hub.clearRetryAlarm Hub.set_alarm Hub.set_retryCount
       Hub.set_ws Hub.set_isConnecting Hub.update_socket Hub.set_sockets].
  rewrite Hcur. unfold Hub.connect, Hub.connect_begin. rewrite Htruthy.
  cbn [negb Hub.currentRoom]. rewrite (bool_decide_eq_true_2 _ Hcur).
  eexists. split; [reflexivity|]. by split_and!.
Qed.

(** C8, as the code has it.  The close event of a socket that still has
    its [onclose] handler clears [ws] and, while [retryCount] is below 100,
    sets the retry alarm to the next exponential backoff; from 100 on, the
    retry budget being exhausted, it sets none.  The [onerror] handler is
    empty, so an error followed by the close does what the close alone
    does.  When the alarm fires, the attempt it starts is for the room
    targeted then: the room of the closed socket if that is still the one
    targeted, another one if the room has been switched since that
    socket's connection attempt began.  [disconnect] clears the alarm and
    removes the [onclose] handler of the socket in [ws] before closing it,
    so the close event that follows changes that socket only: no alarm, no
    change of [retryCount]. *)
Theorem close_retries_but_disconnect_does_not
    (w : Hub.World) (id : nat) (s : Hub.WebSocket) (now : Z)
    (roomId : string) :
  Hub.sockets w !! id = Some s ->
  Hub.is_CLOSED (Hub.readyState s) = false ->
  Hub.ws_onclose s = Some roomId ->
  (exists w',
     Hub.step w (Hub.EvSocketClose id now) = Some w' /\
     Hub.ws w' = None /\ Hub.isConnecting w' = false /\
     if Hub.retryCount w <? 100 then
       Hub.alarm w'
       = Some (now + Hub.exponential_backoff (S (Hub.retryCount w)))%Z /\
       Hub.retryCount w' = S (Hub.retryCount w)
     else Hub.alarm w' = None /\ Hub.retryCount w' = Hub.retryCount w) /\
  Hub.step w (Hub.EvSocketError id) = Some w /\
  Hub.run w [Hub.EvSocketError id; Hub.EvSocketClose id now]
  = Hub.run w [Hub.EvSocketClose id now] /\
  (forall cur,
     Hub.currentRoom w = Some cur -> JsString.truthy cur = true ->
     Hub.retryCount w < 100 ->
     exists w',
       Hub.run w [Hub.EvSocketClose id now; Hub.EvAlarm] = Some w' /\
       Hub.inflight w'
       = Hub.inflight w ++ [Hub.AwaitIdentity cur (Hub.publisherIds w)] /\
       Hub.currentRoom w' = Some cur /\ Hub.isConnecting w' = true /\
       Hub.ws w' = None /\ Hub.alarm w' = None /\
       Hub.retryCount w' = S (Hub.retryCount w)) /\
  (forall w1 room,
     Hub.currentRoom w1 = Some room -> Hub.alarm w1 <> None ->
     Hub.step w1 Hub.EvAlarm
     = Some (Hub.connect room (Hub.clearRetryAlarm w1))) /\
  (Hub.ws w = Some id ->
   let wd := Hub.disconnect w in
   Hub.alarm wd = None /\ Hub.ws wd = None /\
   Hub.isConnecting wd = false /\ Hub.retryCount wd = Hub.retryCount w /\
   Hub.sockets wd !! id = Some (Hub.close_socket (Hub.detach_onclose s)) /\
   forall now',
     exists wd',
       Hub.step wd (Hub.EvSocketClose id now') = Some wd' /\
       Hub.alarm wd' = None /\ Hub.retryCount wd' = Hub.retryCount w /\
       Hub.ws wd' = None /\ Hub.inflight wd' = Hub.inflight w).
Proof.
  intros Hs Hlive Hhandler. repeat apply conj.
  - rewrite (close_event_attached _ _ _ _ _ Hs Hlive Hhandler).
    eexists. split; [reflexivity|]. unfold Hub.onclose.
    destruct (Nat.ltb_spec (Hub.retryCount w) 100) as [Hlt|Hge].
    + by rewrite scheduleRetry_within.
    + by rewrite scheduleRetry_exhausted.
  - cbn. by rewrite Hs.
  - cbn [Hub.run].
    assert (Herror : Hub.step w (Hub.EvSocketError id) = Some w).
    { cbn. by rewrite Hs. }
    by rewrite Herror.
  - intros cur Hcur Htruthy Hbudget.
    by apply (close_then_alarm w id s now roomId cur).
  - intros w1 room Hroom Halarm. cbn.
    destruct (Hub.alarm w1); [|done]. unfold Hub.onAlarm. cbn.
    by rewrite Hroom.
  - intros Hid wd. unfold wd. rewrite disconnect_spec.
    set (W := Hub.set_isConnecting false _).
    destruct (torn_down_socket s) as (Hdet & _ & _ & Hclosed & _).
    assert (Hlook : Hub.sockets W !! id
                    = Some (Hub.close_socket (Hub.detach_onclose s))).
    { subst W. cbn. by rewrite Hid, list_lookup_alter_eq, Hs. }
    repeat apply conj; try done.
    intros now'. eexists. split.
    + apply (close_event_detached _ id _ now' Hlook); [by rewrite Hclosed|done].
    + done.
Qed.

End HubClaims.

(** * The claims at concrete inputs *)

(** C2 fails as stated.  From the initial worker, a 401 followed by a 500
    leaves the alarm 2000 ms after the second failure, whereas a 500 at the
    retry count of before the 401 (zero) waits 1000 ms: the 401 has moved
    the exponential schedule on. *)
Lemma auth_failure_advances_the_schedule :
  exists w_auth w_plain,
    Hub.run (H := Demo.reliable id) Hub.init Demo.auth_trace = Some w_auth /\
    Hub.run (H := Demo.reliable id) Hub.init Demo.plain_trace = Some w_plain /\
    Hub.retryCount Hub.init = 0 /\
    Hub.alarm w_plain = Some (1000 + 1000)%Z /\
    Hub.alarm w_auth = Some (70000 + 2000)%Z /\
    Hub.retryCount w_auth = 2.
Proof. do 2 eexists. split_and!; vm_compute; reflexivity. Qed.

(** C3 fails as stated: https://host/ yields room host, and a hand with
    that url is not dropped but queued for room host. *)
Lemma host_url_yields_room_host :
  extractRoomFromUrl (JsStr "https://host/") = Some "host" /\
  exists w e,
    Hub.run (H := Demo.reliable id) Hub.init
      [Hub.EvHandData (Demo.hand_at "https://host/"); Hub.EvPublish 1 7]
    = Some w /\
    Hub.currentRoom w = Some "host" /\
    Hub.queue w = [e] /\ Hub.data e = Demo.hand_at "https://host/".
Proof.
  split; [reflexivity|]. do 2 eexists. split_and!; vm_compute; reflexivity.
Qed.


(** C7 fails as stated: when [JSON.stringify] throws, the envelope is
    neither sent nor queued, be the queue empty and the socket absent or
    open. *)
Lemma unserialisable_envelope_is_dropped :
  Hub.stringify (HubHost := Demo.throwing id) (Demo.envelope 0) = None /\
  Hub.queue Hub.init = [] /\
  Hub.publish (H := Demo.throwing id) (Demo.envelope 0) Hub.init = Hub.init /\
  Hub.queue (Demo.connected id) = [] /\
  Hub.current_socket (Demo.connected id) = Some Demo.room_r_socket /\
  Hub.publish (H := Demo.throwing id) (Demo.envelope 0) (Demo.connected id)
  = Demo.connected id.
Proof. split_and!; vm_compute; reflexivity. Qed.

(** C8 fails as stated: the retry is not always for the room of the socket
    that closed.  After hands for room A and then room B, the token for A
    arrives and A's socket is made while B is the room targeted.  When
    that socket closes, its handler sets the alarm, and the alarm starts
    an attempt for room B; no attempt for room A is made. *)
Lemma close_of_an_overtaken_socket_retries_the_new_room :
  exists w s w1 w2,
    Hub.run (H := Demo.reliable id) Hub.init Demo.stale_trace = Some w /\
    Hub.sockets w = [s] /\ Hub.ws_room s = "A" /\
    Hub.ws_onclose s = Some "A" /\ Hub.readyState s = Hub.CONNECTING /\
    Hub.currentRoom w = Some "B" /\
    omap Expect.attempt_room (Hub.inflight w) = ["B"] /\
    Hub.step (H := Demo.reliable id) w (Hub.EvSocketClose 0 30) = Some w1 /\
    Hub.alarm w1 = Some (30 + 1000)%Z /\
    omap Expect.attempt_room (Hub.inflight w1) = ["B"] /\
    Hub.step (H := Demo.reliable id) w1 Hub.EvAlarm = Some w2 /\
    Hub.currentRoom w2 = Some "B" /\
    omap Expect.attempt_room (Hub.inflight w2) = ["B"; "B"].
Proof. do 4 eexists. split_and!; vm_compute; reflexivity. Qed.


(** A connection attempt that is waiting for its token when the room is
    switched is not cancelled: its socket, for the old room, becomes the
    publisher's socket while the new room is targeted. *)
Lemma suspended_connect_survives_a_switch :
  exists w s,
    Hub.run (H := Demo.reliable id) Hub.init Demo.stale_trace = Some w /\
    Hub.currentRoom w = Some "B" /\
    Hub.current_socket w = Some s /\ Hub.ws_room s = "A" /\
    Hub.ws_onclose s = Some "A".
Proof. do 2 eexists. split_and!; vm_compute; reflexivity. Qed.

(** C1 at work: 25 sends without a port leave the last 20, and 101
    envelopes leave the last 100. *)
Lemma queues_keep_the_newest_witness :
  Channel.messageQueue
    (Channel.run (H := Demo.budget_port nat) Channel.init
       (map Channel.EvSend (seq 0 25)))
  = seq 5 20 /\
  Hub.queue
    (fold_left (fun w e => Hub.publish (H := Demo.reliable id) e w)
       (map Demo.envelope (seq 0 101)) Hub.init)
  = map Demo.envelope (seq 1 100).
Proof.
  destruct (queues_keep_the_newest (H := Demo.budget_port nat)
              (H0 := Demo.reliable id) Channel.init
              (seq 0 25) Hub.init (map Demo.envelope (seq 0 101)))
    as (Hsend & _ & _ & _ & _ & Hpublish).
  - reflexivity.
  - vm_compute. lia.
  - vm_compute. lia.
  - vm_compute. lia.
  - vm_compute. lia.
  - split; [exact Hsend|]. apply Hpublish; [reflexivity|].
    apply Forall_forall. intros e _. discriminate.
Defined.

(** C6 at work: the first retry of either component, and the first delay
    against the eighth. *)
Lemma retry_delays_witness :
  Channel.reconnectTimer
    (Channel.scheduleReconnect (H := Demo.budget_port nat) Channel.init)
  = Some (Channel.reconnect_delay 1) /\
  (Channel.reconnect_delay 1 <= Channel.reconnect_delay 8)%Q /\
  Hub.alarm (Hub.scheduleRetry 0 "r" None Hub.init)
  = Some (0 + Hub.exponential_backoff 1)%Z.
Proof.
  destruct (retry_delays_are_capped_exponentials (H := Demo.budget_port nat)
              Channel.init Hub.init 0 "r" 1 8)
    as (_ & Hmono & _ & Hchan & _ & _ & _ & _ & Hhub & _).
  - lia.
  - lia.
  - split; [|split].
    + apply Hchan; [reflexivity|reflexivity|lia].
    + exact Hmono.
    + apply Hhub; [reflexivity|lia].
Defined.

(** C10 at work: the first hand the page reports is processed. *)
Lemma first_hand_witness :
  Page.processed (H := Demo.budget_port Page.HandData) 5
    (Demo.hand "A" "s" "K" "s" "https://host/games/r") Page.init
    (Page.onWindowMessage 5
       (Demo.from_page (Demo.hand "A" "s" "K" "s" "https://host/games/r"))
       Page.init).
Proof.
  destruct (first_hand_is_always_processed (H := Demo.budget_port Page.HandData)
              [] Page.init 5
              (Demo.from_page (Demo.hand "A" "s" "K" "s" "https://host/games/r"))
              (Demo.hand "A" "s" "K" "s" "https://host/games/r"))
    as (_ & _ & _ & Hfirst & _).
  - reflexivity.
  - apply Hfirst. reflexivity.
Defined.

(** C2 at work: a 500 after a 401 at retry count zero waits 2000 ms. *)
Lemma auth_failure_witness :
  Hub.alarm
    (Hub.connect_resume 70000 "r" (Hub.fetchHubToken (Hub.Response 500 None))
       true
       (Hub.connect_resume 1000 "r"
          (Hub.fetchHubToken (Hub.Response 401 None)) true Hub.init))
  = Some (70000 + 2000)%Z.
Proof.
  destruct (auth_failure_waits_a_fixed_minute Hub.init 1000 "r" None true)
    as (_ & _ & Hnext).
  apply (Hnext _ 70000%Z (Hub.Response 500 None) true).
  - reflexivity.
  - vm_compute. lia.
  - reflexivity.
  - reflexivity.
Defined.


(** C8 at work: the connected worker's socket closes by itself and the
    alarm starts a new attempt for its room, or it is disconnected
    first. *)
Lemma close_retries_witness :
  (exists w',
     Hub.step (H := Demo.reliable id) (Demo.connected id)
       (Hub.EvSocketClose 0 9) = Some w' /\
     Hub.alarm w' = Some (9 + Hub.exponential_backoff 1)%Z) /\
  (exists w',
     Hub.run (H := Demo.reliable id) (Demo.connected id)
       [Hub.EvSocketClose 0 9; Hub.EvAlarm] = Some w' /\
     Hub.inflight w'
     = Hub.inflight (Demo.connected id)
       ++ [Hub.AwaitIdentity "r" (Hub.publisherIds (Demo.connected id))]) /\
  (exists wd',
     Hub.step (H := Demo.reliable id) (Hub.disconnect (Demo.connected id))
       (Hub.EvSocketClose 0 9) = Some wd' /\
     Hub.alarm wd' = None).
Proof.
  destruct (close_retries_but_disconnect_does_not (H := Demo.reliable id)
              (Demo.connected id) 0 Demo.room_r_socket 9 "r")
    as ((w' & Hstep & _ & _ & Halarm & _) & _ & _ & Hretry & _ & Hdisc).
  - reflexivity.
  - reflexivity.
  - reflexivity.
  - split_and!.
    + exists w'. split; [exact Hstep|exact Halarm].
    + destruct (Hretry "r") as (w2 & Hrun & Hflight & _).
      * reflexivity.
      * reflexivity.
      * vm_compute. lia.
      * exists w2. split; [exact Hrun|exact Hflight].
    + destruct Hdisc as (_ & _ & _ & _ & _ & Hclose); [reflexivity|].
      destruct (Hclose 9%Z) as (wd' & Hstep' & Halarm' & _).
      exists wd'. split; [exact Hstep'|exact Halarm'].
Defined.


(** C7 at work: an envelope published to the initial worker is queued. *)
Lemma publish_witness :
  Hub.publish (H := Demo.reliable id) (Demo.envelope 0) Hub.init
  = Hub.enqueue (Demo.envelope 0) Hub.init /\
  length (Hub.queue (Hub.enqueue (Demo.envelope 0) Hub.init)) <= 100.
Proof.
  destruct (publish_sends_or_queues (H := Demo.reliable id) (Demo.envelope 0)
              Hub.init)
    as (Hpublish & _ & _ & Hlen).
  split; [exact Hpublish|]. apply Hlen. cbn. lia.
Defined.


(** * Further properties of the code *)

(** ** The fold table *)

Lemma indexOf_lookup x a : forall i,
  Range.indexOf x a = Some i -> a !! i = Some x.
Proof.
  induction a as [|y rest IH]; intros i; cbn; [done|].
  destruct (String.eqb_spec y x) as [->|_]; [by intros [= <-]|].
  destruct (Range.indexOf x rest) as [j|]; [|done].
  intros [= <-]. by apply IH.
Qed.

(** Only the ranks and the equality of the two suits enter the string
    looked up. *)
Lemma handString_suits hand c1 c2 :
  Range.handString hand c1 c2
  = Range.handString
      (Page.mkHand (Page.value1 hand) "x" (Page.value2 hand)
         (if String.eqb (Page.suit1 hand) (Page.suit2 hand) then "x" else "y")
         (JsOther false) (JsOther false) (JsOther false)) c1 c2.
Proof.
  unfold Range.handString. cbn.
  by destruct (String.eqb (Page.suit1 hand) (Page.suit2 hand)).
Qed.

(** The table, checked cell by cell. *)
Lemma table_checked :
  forallb (fun c1 =>
    forallb (fun c2 =>
      forallb (fun suited : bool =>
        match Range.indexOf
                (Range.handString
                   (Page.mkHand (nth c1 Range.values EmptyString) "x"
                      (nth c2 Range.values EmptyString)
                      (if suited then "x" else "y")
                      (JsOther false) (JsOther false) (JsOther false)) c1 c2)
                Range.buildDefaultRange
        with
        | Some i => (i =? Range.table_index c1 c2 suited) && (i <? 169)
        | None => false
        end) [true; false]) (seq 0 13)) (seq 0 13) = true.
Proof. vm_compute. reflexivity. Qed.

Lemma handString_in_table hand c1 c2 :
  Range.values !! c1 = Some (Page.value1 hand) ->
  Range.values !! c2 = Some (Page.value2 hand) ->
  Range.indexOf (Range.handString hand c1 c2) Range.buildDefaultRange
  = Some (Range.table_index c1 c2
            (String.eqb (Page.suit1 hand) (Page.suit2 hand))) /\
  Range.table_index c1 c2 (String.eqb (Page.suit1 hand) (Page.suit2 hand))
  < 169.
Proof.
  intros H1 H2. rewrite handString_suits.
  pose proof (lookup_lt_Some _ _ _ H1) as Hc1.
  pose proof (lookup_lt_Some _ _ _ H2) as Hc2.
  apply (nth_lookup_Some _ _ EmptyString) in H1, H2.
  rewrite <- H1, <- H2.
  pose proof table_checked as Hall.
  rewrite forallb_forall in Hall.
  specialize (Hall c1). rewrite in_seq in Hall.
  specialize (Hall (conj (Nat.le_0_l _) Hc1)).
  rewrite forallb_forall in Hall.
  specialize (Hall c2). rewrite in_seq in Hall.
  specialize (Hall (conj (Nat.le_0_l _) Hc2)).
  rewrite forallb_forall in Hall.
  specialize (Hall (String.eqb (Page.suit1 hand) (Page.suit2 hand))).
  assert (Hin : In (String.eqb (Page.suit1 hand) (Page.suit2 hand))
                  [true; false])
    by (destruct (String.eqb _ _); cbn; auto).
  specialize (Hall Hin).
  destruct (Range.indexOf _ Range.buildDefaultRange) as [i|]; [|done].
  apply andb_prop in Hall as [Heq Hlt].
  apply Nat.eqb_eq in Heq. apply Nat.ltb_lt in Hlt. by subst.
Qed.

Lemma normalize_lengths result :
  length (fst (fst (Range.normalizeRangeFold result))) = 169 /\
  length (snd (fst (Range.normalizeRangeFold result))) = 169.
Proof.
  unfold Range.normalizeRangeFold, Range.needs_default. cbn zeta. cbn [fst snd].
  split.
  - destruct (Range.s_range result) as [r|]; [|by vm_compute].
    destruct (Nat.eqb_spec (length r) Range.DEFAULT_RANGE_SIZE) as [Hlen|_];
      [done|by vm_compute].
  - destruct (Range.s_fold result) as [f|]; [|by vm_compute].
    destruct (Nat.eqb_spec (length f) Range.DEFAULT_RANGE_SIZE) as [Hlen|_];
      [done|by vm_compute].
Qed.

Lemma needs_default_false {A : Type} (a : option (list A)) :
  Range.needs_default a = false <-> exists l, a = Some l /\ length l = 169.
Proof.
  unfold Range.needs_default. destruct a as [l|].
  - change Range.DEFAULT_RANGE_SIZE with 169.
    destruct (Nat.eqb_spec (length l) 169) as [Hlen|Hlen]; cbn.
    + split; [|done]. intros _. by exists l.
    + split; [done|]. intros (l' & [= <-] & Hl). done.
  - split; [done|]. by intros (l & ? & _).
Qed.

Lemma normalize_fixed (r : list string) (f : list bool) :
  length r = 169 -> length f = 169 ->
  Range.normalizeRangeFold (Range.mkStored (Some r) (Some f)) = ((r, f), None).
Proof.
  intros Hr Hf. unfold Range.normalizeRangeFold, Range.needs_default. cbn.
  change Range.DEFAULT_RANGE_SIZE with 169. by rewrite Hr, Hf.
Qed.

Lemma normalizeRangeFold_repairs_storage_aux result :
  (Range.needs_default (Range.s_fold result) = true ->
   snd (fst (Range.normalizeRangeFold result)) = replicate 169 false) /\
  (forall f, Range.s_fold result = Some f -> length f = 169 ->
             snd (fst (Range.normalizeRangeFold result)) = f).
Proof.
  unfold Range.normalizeRangeFold. cbn. split.
  - by intros ->.
  - intros f Hsome Hlen.
    assert (Hnf : Range.needs_default (Range.s_fold result) = false)
      by (apply needs_default_false; eauto).
    by rewrite Hnf, Hsome.
Qed.

(** X1.  [normalizeRangeFold] always returns a range and a fold table of
    169 entries each.  It writes to storage exactly when what was stored
    is not what it returns, and in that case writes what it returns; a
    stored table of the right size is returned as it is, the other one
    being replaced by its default.  Normalising what it returned changes
    nothing and writes nothing. *)
Theorem normalizeRangeFold_repairs_storage (result : Range.Stored) :
  let range := fst (fst (Range.normalizeRangeFold result)) in
  let fold := snd (fst (Range.normalizeRangeFold result)) in
  length range = 169 /\ length fold = 169 /\
  (snd (Range.normalizeRangeFold result) = None <->
   Range.s_range result = Some range /\ Range.s_fold result = Some fold) /\
  (snd (Range.normalizeRangeFold result) <> None ->
   snd (Range.normalizeRangeFold result) = Some (range, fold)) /\
  (forall r, Range.s_range result = Some r -> length r = 169 -> range = r) /\
  (forall f, Range.s_fold result = Some f -> length f = 169 -> fold = f) /\
  (Range.needs_default (Range.s_range result) = true ->
   range = Range.buildDefaultRange) /\
  (Range.needs_default (Range.s_fold result) = true ->
   fold = replicate 169 false) /\
  Range.normalizeRangeFold (Range.mkStored (Some range) (Some fold))
  = ((range, fold), None).
Proof.
  intros range fold.
  destruct (normalize_lengths result) as [Hr Hf].
  fold range in Hr. fold fold in Hf.
  split; [exact Hr|]. split; [exact Hf|].
  pose proof (normalize_fixed range fold Hr Hf) as Hagain.
  split_and!; try exact Hagain.
  - split.
    + intros Hnone. subst range fold.
      unfold Range.normalizeRangeFold in *. cbn in *.
      destruct (Range.needs_default (Range.s_range result)) eqn:Hnr;
        [done|].
      destruct (Range.needs_default (Range.s_fold result)) eqn:Hnf;
        [done|].
      apply needs_default_false in Hnr as (r & -> & _).
      apply needs_default_false in Hnf as (f & -> & _). done.
    + intros [Hsr Hsf].
      assert (Hnr : Range.needs_default (Range.s_range result) = false)
        by (apply needs_default_false; eauto).
      assert (Hnf : Range.needs_default (Range.s_fold result) = false)
        by (apply needs_default_false; eauto).
      unfold Range.normalizeRangeFold. cbn. by rewrite Hnr, Hnf.
  - subst range fold.
    unfold Range.normalizeRangeFold. cbn.
    by destruct (Range.needs_default _ || Range.needs_default _).
  - intros r Hsome Hlen. subst range.
    unfold Range.normalizeRangeFold, Range.needs_default. cbn.
    by rewrite Hsome, Hlen.
  - intros f Hsome Hlen. subst fold.
    unfold Range.normalizeRangeFold, Range.needs_default. cbn.
    by rewrite Hsome, Hlen.
  - intros Hneed. subst range. unfold Range.normalizeRangeFold. cbn.
    by rewrite Hneed.
  - intros Hneed. subst fold. unfold Range.normalizeRangeFold. cbn.
    by rewrite Hneed.
Qed.

Lemma checkRange_parsed alertUrl hand result c1 c2 :
  Range.indexOf (Page.value1 hand) Range.values = Some c1 ->
  Range.indexOf (Page.value2 hand) Range.values = Some c2 ->
  let action :=
    match Range.indexOf (Range.handString hand c1 c2)
            (fst (fst (Range.normalizeRangeFold result))) with
    | Some i => nth i (snd (fst (Range.normalizeRangeFold result))) false
    | None => false
    end in
  Range.checkRange alertUrl hand result
  = if action
    then Range.mkVerdict (snd (Range.normalizeRangeFold result)) true false true
    else Range.mkVerdict (snd (Range.normalizeRangeFold result)) false
           alertUrl false.
Proof.
  intros H1 H2. unfold Range.checkRange.
  destruct (Range.normalizeRangeFold result) as [[range fold] w].
  by rewrite H1, H2.
Qed.

(** X2.  With the default range in use (stored as such, or missing or
    damaged in storage), [checkRange] answers every hand whose two ranks
    are among [values] with the entry of the fold table at the hand's
    position: rows and columns count down from the ace, suited hands and
    pairs lie on and above the diagonal, offsuit hands below it.  The
    position is inside the table; a fold is counted exactly when the
    answer is true, and the alert is played exactly when the answer is
    false and the alert's url is available. *)
Theorem checkRange_reads_the_fold_table
    (alertUrl : bool) (hand : Page.Hand) (result : Range.Stored)
    (c1 c2 : nat) :
  Range.indexOf (Page.value1 hand) Range.values = Some c1 ->
  Range.indexOf (Page.value2 hand) Range.values = Some c2 ->
  fst (fst (Range.normalizeRangeFold result)) = Range.buildDefaultRange ->
  let fold := snd (fst (Range.normalizeRangeFold result)) in
  let i :=
    Range.table_index c1 c2
      (String.eqb (Page.suit1 hand) (Page.suit2 hand)) in
  let v := Range.checkRange alertUrl hand result in
  i < length fold /\
  Range.text v = nth i fold false /\
  Range.counted v = Range.text v /\
  Range.alert v = alertUrl && negb (Range.text v) /\
  Range.written v = snd (Range.normalizeRangeFold result).
Proof.
  intros H1 H2 Hrange fold i v.
  destruct (handString_in_table hand c1 c2) as [Hfound Hlt];
    [by apply indexOf_lookup..|].
  destruct (normalize_lengths result) as [_ Hlen].
  split; [unfold fold, i; rewrite Hlen; exact Hlt|].
  unfold v. rewrite (checkRange_parsed _ _ _ _ _ H1 H2). cbn zeta.
  rewrite Hrange, Hfound. fold fold. fold i.
  destruct (nth i fold false); cbn; by rewrite ?andb_false_r, ?andb_true_r.
Qed.

(** X3.  [checkRange] never answers true, and counts no fold, when the
    stored fold table is missing or has the wrong size, or is the one
    written at installation; and when one of the two ranks is not among
    [values] it answers false without playing the alert. *)
Theorem checkRange_folds_nothing_by_default
    (alertUrl : bool) (hand : Page.Hand) (result : Range.Stored) :
  (Range.needs_default (Range.s_fold result) = true \/
   Range.s_fold result = Some (replicate 169 false) ->
   Range.text (Range.checkRange alertUrl hand result) = false /\
   Range.counted (Range.checkRange alertUrl hand result) = false) /\
  (Range.indexOf (Page.value1 hand) Range.values = None \/
   Range.indexOf (Page.value2 hand) Range.values = None ->
   Range.checkRange alertUrl hand result
   = Range.mkVerdict (snd (Range.normalizeRangeFold result)) false false
       false) /\
  Range.text (Range.checkRange alertUrl hand Range.installed) = false.
Proof.
  assert (Hquiet : forall res,
    snd (fst (Range.normalizeRangeFold res)) = replicate 169 false ->
    Range.text (Range.checkRange alertUrl hand res) = false /\
    Range.counted (Range.checkRange alertUrl hand res) = false).
  { intros res Hfold. unfold Range.checkRange.
    destruct (Range.normalizeRangeFold res) as [[range fold] w].
    cbn [fst snd] in Hfold. subst fold.
    destruct (Range.indexOf (Page.value1 hand) Range.values) as [c1|];
      [|done].
    destruct (Range.indexOf (Page.value2 hand) Range.values) as [c2|];
      [|done].
    destruct (Range.indexOf _ range) as [i|]; [|done].
    assert (Hnth : nth i (replicate 169 false) false = false).
    { destruct (decide (i < 169)) as [Hlt|Hge].
      - apply nth_lookup_Some with (d := false) (x := false).
        by apply lookup_replicate_2.
      - apply nth_overflow. rewrite length_replicate. lia. }
    by rewrite Hnth. }
  split_and!.
  - intros Hfold. apply Hquiet.
    destruct (normalizeRangeFold_repairs_storage_aux result) as [Hneed Hkeep].
    destruct Hfold as [Hmissing|Hstored]; [by apply Hneed|].
    apply (Hkeep _ Hstored). by rewrite length_replicate.
  - intros Hbad. unfold Range.checkRange.
    destruct (Range.normalizeRangeFold result) as [[range fold] w].
    destruct Hbad as [-> | ->]; [done|].
    by destruct (Range.indexOf (Page.value1 hand) Range.values).
  - apply Hquiet. reflexivity.
Qed.

Lemma handString_swap hand c1 c2 :
  Range.values !! c1 = Some (Page.value1 hand) ->
  Range.values !! c2 = Some (Page.value2 hand) ->
  Range.handString (Range.swap hand) c2 c1 = Range.handString hand c1 c2.
Proof.
  intros H1 H2. unfold Range.handString, Range.swap.
  cbn [Page.value1 Page.value2 Page.suit1 Page.suit2].
  rewrite (String.eqb_sym (Page.value2 hand)),
    (String.eqb_sym (Page.suit2 hand)).
  destruct (Nat.ltb_spec c2 c1) as [Hlt|Hge],
    (Nat.ltb_spec c1 c2) as [Hlt'|Hge']; try lia; try done.
  assert (c1 = c2) as -> by lia.
  assert (Page.value1 hand = Page.value2 hand) as -> by congruence.
  done.
Qed.

(** X4.  The order in which the two cards of a hand are reported does not
    matter to [checkRange]: the hand with its cards exchanged gets the
    same answer and the same effects, whatever is stored. *)
Theorem checkRange_ignores_card_order
    (alertUrl : bool) (hand : Page.Hand) (result : Range.Stored) :
  Range.checkRange alertUrl (Range.swap hand) result
  = Range.checkRange alertUrl hand result.
Proof.
  unfold Range.checkRange.
  destruct (Range.normalizeRangeFold result) as [[range fold] w].
  change (Page.value1 (Range.swap hand)) with (Page.value2 hand).
  change (Page.value2 (Range.swap hand)) with (Page.value1 hand).
  destruct (Range.indexOf (Page.value1 hand) Range.values) as [c1|] eqn:H1,
    (Range.indexOf (Page.value2 hand) Range.values) as [c2|] eqn:H2;
    try done.
  rewrite handString_swap by (by apply indexOf_lookup). done.
Qed.

(** ** Runs of the window message listener *)

Section ListenerRuns.
Context `{PortHost Page.HandData}.

(** X5.  Over any sequence of window messages, the listener calls
    [checkRange], and then [sendPortMessage], exactly for the accepted
    hands that do not repeat the four card fields of the accepted hand
    just before them, in order, each message stamped with the time of its
    event; rejected messages in between neither count as a hand nor reset
    the comparison.  The previous hand afterwards is the last accepted
    one. *)
Theorem listener_processes_each_new_hand_once
    (evs : list (Z * Page.MessageEvent)) (pg : Page.State) :
  let news := Expect.fresh (Page.previousHand pg) (Expect.accepted_hands evs) in
  Page.rangeChecks (Page.run pg evs) = Page.rangeChecks pg ++ map snd news /\
  Page.chan (Page.run pg evs)
  = Channel.run (Page.chan pg) (map Expect.send_event news) /\
  Page.previousHand (Page.run pg evs)
  = match last (Expect.accepted_hands evs) with
    | Some (_, h) => Some h
    | None => Page.previousHand pg
    end.
Proof.
  revert pg. induction evs as [|[now ev] evs IH]; intros pg.
  - cbn. by rewrite app_nil_r.
  - change (Page.run pg ((now, ev) :: evs))
      with (Page.run (Page.onWindowMessage now ev pg) evs).
    specialize (IH (Page.onWindowMessage now ev pg)).
    cbn zeta in IH. destruct IH as (IHr & IHc & IHp).
    rewrite IHr, IHc, IHp. clear IHr IHc IHp.
    unfold Expect.accepted_hands. cbn [omap list_omap].
    fold (Expect.accepted_hands evs).
    destruct (Page.accepted ev) as [hand|] eqn:Hacc.
    + rewrite (onWindowMessage_accepted _ _ _ _ Hacc).
      cbn [Expect.fresh]. rewrite last_cons.
      assert (Hprev : forall x, Page.previousHand (Page.set_previousHand hand x)
                                = Some hand) by done.
      rewrite Hprev.
      assert (Hlast : match last (Expect.accepted_hands evs) with
                      | Some (_, h) => Some h
                      | None => Some hand
                      end
                      = match
                          match last (Expect.accepted_hands evs) with
                          | Some x => Some x
                          | None => Some (now, hand)
                          end
                        with
                        | Some (_, h) => Some h
                        | None => Page.previousHand pg
                        end).
      { by destruct (last (Expect.accepted_hands evs)) as [[? ?]|]. }
      assert (Hrc : forall m,
                Page.rangeChecks
                  (Page.set_previousHand hand
                     (Page.send m (Page.checkRange hand pg)))
                = Page.rangeChecks pg ++ [hand]) by done.
      assert (Hch : forall m,
                Page.chan
                  (Page.set_previousHand hand
                     (Page.send m (Page.checkRange hand pg)))
                = fst (Channel.sendPortMessage m (Page.chan pg))) by done.
      destruct (Page.previousHand pg) as [p|] eqn:Hp.
      * destruct (decide (Page.same_cards hand p)) as [Hsame|Hdiff].
        -- apply compareHands_same_cards in Hsame. rewrite Hsame. cbn [negb].
           by split_and!.
        -- assert (Hcmp : Page.compareHands (Some hand) (Some p) = false).
           { destruct (Page.compareHands (Some hand) (Some p)) eqn:Hc; [|done].
             by apply compareHands_same_cards in Hc. }
           rewrite Hcmp. cbn [negb map]. rewrite Hrc, Hch.
           split_and!; [by rewrite <- app_assoc|done|done].
      * cbn [Page.compareHands negb map]. rewrite Hrc, Hch.
        split_and!; [by rewrite <- app_assoc|done|done].
    + rewrite (onWindowMessage_rejected _ _ _ Hacc). by split_and!.
Qed.

End ListenerRuns.

(** ** Runs of the port manager *)

Section ChannelRuns.
Context {Msg : Type} `{PortHost Msg}.
Implicit Types (st : Channel.State (Msg := Msg)) (msg : Msg).

Lemma scheduleReconnect_in_step st :
  Expect.timer_in_step st -> Expect.timer_in_step (Channel.scheduleReconnect st).
Proof.
  intros Hst. unfold Channel.scheduleReconnect.
  destruct (Channel.reconnectTimer st) as [d|] eqn:Hd; [exact Hst|].
  destruct (Nat.leb_spec Channel.MAX_RECONNECT_ATTEMPTS
              (Channel.reconnectAttempts st)) as [Hge|Hlt]; [exact Hst|].
  split; cbn; [lia|]. intros d [= <-]. split; [lia|done].
Qed.

Lemma flushMessageQueue_timer st :
  Channel.reconnectTimer (Channel.flushMessageQueue st)
  = Channel.reconnectTimer st /\
  Channel.reconnectAttempts (Channel.flushMessageQueue st)
  = Channel.reconnectAttempts st.
Proof.
  unfold Channel.flushMessageQueue.
  destruct (Channel.port st); [|done].
  by destruct (Channel.flush_loop _ _ _) as [[q' p'] sent'].
Qed.

Lemma connectPort_in_step o st :
  Expect.timer_in_step st ->
  Expect.timer_in_step (fst (Channel.connectPort o st)).
Proof.
  intros Hst. destruct o as [| |p]; unfold Channel.connectPort; cbn [fst];
    [done|done|].
  unfold Expect.timer_in_step.
  destruct (flushMessageQueue_timer
              (Channel.set_reconnectTimer None
                 (Channel.set_reconnectAttempts 0
                    (Channel.set_port (Some p) st)))) as [-> ->].
  cbn. split; [lia|done].
Qed.

Lemma step_in_step st e :
  Expect.timer_in_step st -> Expect.timer_in_step (Channel.step st e).
Proof.
  intros Hst. destruct e as [o|msg| |o]; cbn [Channel.step].
  - by apply connectPort_in_step.
  - unfold Channel.sendPortMessage, Channel.queue_and_reconnect.
    destruct (Channel.port st) as [p|].
    + destruct (postMessage p msg) as [[|] p']; cbn [fst]; [done|].
      cbn zeta.
      destruct (Channel.reconnectTimer _) eqn:Ht; [done|].
      by apply scheduleReconnect_in_step.
    + cbn [fst]. cbn zeta.
      destruct (Channel.reconnectTimer _) eqn:Ht; [done|].
      by apply scheduleReconnect_in_step.
  - by apply scheduleReconnect_in_step.
  - destruct (Channel.reconnectTimer st) as [d|] eqn:Hd; [|done].
    unfold Channel.onReconnectTimer. apply connectPort_in_step.
    destruct Hst as [Hmax _]. by split.
Qed.

(** X6.  However the content script is driven, it never counts more than
    50 reconnection attempts, and a pending reconnection timer always
    waits the delay that belongs to the current count, at most 30000 ms.
    Timers do not stack: scheduling a reconnection again while one is
    pending, or after the budget is spent, changes nothing. *)
Theorem reconnect_timer_stays_in_step
    (es : list (Channel.Event (Msg := Msg))) (st : Channel.State) :
  Expect.timer_in_step (Channel.run Channel.init es) /\
  (Expect.timer_in_step st -> Expect.timer_in_step (Channel.run st es)) /\
  (Expect.timer_in_step st ->
   forall d, Channel.reconnectTimer st = Some d -> (d <= 30000)%Q) /\
  Channel.scheduleReconnect (Channel.scheduleReconnect st)
  = Channel.scheduleReconnect st.
Proof.
  assert (Hrun : forall es s,
            Expect.timer_in_step s -> Expect.timer_in_step (Channel.run s es)).
  { clear. induction es as [|e es IH]; intros s Hs; [done|].
    cbn. by apply IH, step_in_step. }
  split_and!.
  - apply Hrun. split; cbn; [lia|done].
  - apply Hrun.
  - intros [_ Htimer] d Hd. destruct (Htimer d Hd) as [_ ->].
    apply reconnect_delay_ceiling.
  - assert (Hsame : Channel.scheduleReconnect st = st \/
                    exists d, Channel.reconnectTimer
                                (Channel.scheduleReconnect st) = Some d).
    { unfold Channel.scheduleReconnect.
      destruct (Channel.reconnectTimer st) as [d|]; [by left|].
      destruct (Channel.MAX_RECONNECT_ATTEMPTS <=? _); [by left|].
      right. by eexists. }
    destruct Hsame as [Hsame|[d Hd]]; [by rewrite !Hsame|].
    unfold Channel.scheduleReconnect at 1. by rewrite Hd.
Qed.

End ChannelRuns.

Section ChannelDelivery.
Context {Msg : Type} `{PortHost Msg}.
Implicit Types (st : Channel.State (Msg := Msg)) (msg : Msg).

Lemma push_shift_sublist {A : Type} cap (q : list A) m :
  push_shift cap q m `sublist_of` q ++ [m].
Proof.
  unfold push_shift. cbn zeta.
  destruct (cap <? length (q ++ [m])); [|done].
  destruct (q ++ [m]) as [|x l]; [done|]. cbn. by apply sublist_cons.
Qed.

(** What one event does to the log of posted messages and to the queue:
    the log only grows, the queue stays a part of itself followed by the
    message sent, if any, and the two together gain at most that
    message. *)
Lemma step_delivery st e :
  Channel.posted st `prefix_of` Channel.posted (Channel.step st e) /\
  Channel.messageQueue (Channel.step st e)
    `sublist_of` Channel.messageQueue st ++ Expect.sends [e] /\
  Channel.posted (Channel.step st e) ++ Channel.messageQueue (Channel.step st e)
    ⊆+ (Channel.posted st ++ Channel.messageQueue st) ++ Expect.sends [e].
Proof.
  assert (Hflush : forall s,
    Channel.posted s `prefix_of` Channel.posted (Channel.flushMessageQueue s) /\
    Channel.messageQueue (Channel.flushMessageQueue s)
      `sublist_of` Channel.messageQueue s /\
    Channel.posted (Channel.flushMessageQueue s)
      ++ Channel.messageQueue (Channel.flushMessageQueue s)
    = Channel.posted s ++ Channel.messageQueue s).
  { intros s. unfold Channel.flushMessageQueue.
    destruct (Channel.port s) as [p|]; [|done].
    destruct (Channel.flush_loop _ _ _) as [[q' p'] sent'] eqn:Hrun.
    apply flush_loop_spec in Hrun as (done & p1 & -> & -> & _). cbn.
    split_and!.
    - by apply prefix_app_r.
    - by apply sublist_inserts_l.
    - by rewrite <- app_assoc. }
  assert (Hconn : forall o s,
    Channel.posted s `prefix_of` Channel.posted (fst (Channel.connectPort o s)) /\
    Channel.messageQueue (fst (Channel.connectPort o s))
      `sublist_of` Channel.messageQueue s /\
    Channel.posted (fst (Channel.connectPort o s))
      ++ Channel.messageQueue (fst (Channel.connectPort o s))
    = Channel.posted s ++ Channel.messageQueue s).
  { intros [| |p] s; unfold Channel.connectPort; cbn [fst]; [done..|].
    apply (Hflush (Channel.set_reconnectTimer None
                     (Channel.set_reconnectAttempts 0
                        (Channel.set_port (Some p) s)))). }
  assert (Hqueue : forall s msg,
    Channel.posted s
      `prefix_of` Channel.posted (Channel.queue_and_reconnect msg s) /\
    Channel.messageQueue (Channel.queue_and_reconnect msg s)
      `sublist_of` Channel.messageQueue s ++ [msg] /\
    Channel.posted (Channel.queue_and_reconnect msg s)
      ++ Channel.messageQueue (Channel.queue_and_reconnect msg s)
      ⊆+ (Channel.posted s ++ Channel.messageQueue s) ++ [msg]).
  { intros s msg.
    destruct (queue_and_reconnect_queue msg s) as (-> & _ & ->).
    split_and!; [done|apply push_shift_sublist|].
    rewrite <- app_assoc. apply submseteq_app; [done|].
    apply sublist_submseteq, push_shift_sublist. }
  destruct e as [o|msg| |o]; cbn [Channel.step Expect.sends omap list_omap].
  - destruct (Hconn o st) as (Hp & Hq & Hpq).
    rewrite !app_nil_r. split_and!; [done..|by rewrite Hpq].
  - unfold Channel.sendPortMessage.
    destruct (Channel.port st) as [p|].
    + destruct (postMessage p msg) as [[|] p']; cbn [fst].
      * cbn. split_and!.
        -- by apply prefix_app_r.
        -- by apply sublist_inserts_r.
        -- rewrite <- !app_assoc. apply submseteq_app; [done|].
           apply Permutation_submseteq. by rewrite Permutation_app_comm.
      * apply (Hqueue (Channel.set_port None st) msg).
    + apply Hqueue.
  - unfold Channel.onDisconnect.
    destruct (scheduleReconnect_queue (Channel.set_port None st))
      as (-> & _ & ->).
    rewrite !app_nil_r. by split_and!.
  - rewrite !app_nil_r.
    destruct (Channel.reconnectTimer st); [|by split_and!].
    unfold Channel.onReconnectTimer.
    destruct (Hconn o (Channel.set_reconnectTimer None st)) as (Hp & Hq & Hpq).
    split_and!; [done..|by rewrite Hpq].
Qed.

(** X7.  No message is ever duplicated or invented by the port manager,
    however it is driven: the messages [postMessage] has accepted together
    with those still queued are, counted with multiplicity, among those
    there were before and those passed to [sendPortMessage] since; the
    log of accepted messages only grows; and the queue holds its messages
    in the order in which they were sent. *)
Theorem port_manager_never_duplicates
    (es : list (Channel.Event (Msg := Msg))) (st : Channel.State) :
  Channel.posted st `prefix_of` Channel.posted (Channel.run st es) /\
  Channel.messageQueue (Channel.run st es)
    `sublist_of` Channel.messageQueue st ++ Expect.sends es /\
  Channel.posted (Channel.run st es) ++ Channel.messageQueue (Channel.run st es)
    ⊆+ (Channel.posted st ++ Channel.messageQueue st) ++ Expect.sends es.
Proof.
  revert st. induction es as [|e es IH]; intros st.
  - cbn. rewrite !app_nil_r. by split_and!.
  - change (Channel.run st (e :: es))
      with (Channel.run (Channel.step st e) es).
    assert (Hsends : Expect.sends (e :: es)
                     = Expect.sends [e] ++ Expect.sends es).
    { unfold Expect.sends. cbn. by destruct e. }
    destruct (IH (Channel.step st e)) as (IHp & IHq & IHpq).
    destruct (step_delivery st e) as (Hp & Hq & Hpq).
    rewrite Hsends. split_and!.
    + by transitivity (Channel.posted (Channel.step st e)).
    + transitivity (Channel.messageQueue (Channel.step st e)
                    ++ Expect.sends es); [exact IHq|].
      rewrite app_assoc. by apply sublist_app.
    + transitivity ((Channel.posted (Channel.step st e)
                     ++ Channel.messageQueue (Channel.step st e))
                    ++ Expect.sends es); [exact IHpq|].
      rewrite (app_assoc _ (Expect.sends [e])). by apply submseteq_app.
Qed.

End ChannelDelivery.

Section ChannelReconnect.
Context {Msg : Type} `{PortHost Msg}.
Implicit Types (st : Channel.State (Msg := Msg)) (msg : Msg).

Lemma flush_loop_all q : forall p p1 sent,
  Channel.posts p q p1 -> Channel.flush_loop q p sent = ([], p1, sent ++ q).
Proof.
  induction q as [|msg rest IH]; intros p p1 sent Hposts;
    inversion Hposts as [|? ? p' ? ? Hpost Hrest]; subst; cbn.
  - by rewrite app_nil_r.
  - rewrite Hpost, (IH p' p1) by done. by rewrite <- app_assoc.
Qed.

Lemma send_disconnected_posted msgs : forall st,
  Channel.port st = None ->
  Channel.posted (Channel.run st (map Channel.EvSend msgs))
  = Channel.posted st.
Proof.
  induction msgs as [|m msgs IH]; intros st Hport; [done|].
  cbn. unfold Channel.sendPortMessage. rewrite Hport. cbn [fst].
  destruct (queue_and_reconnect_queue m st) as (_ & Hp & Hposted).
  fold (Channel.run (Channel.queue_and_reconnect m st)
          (map Channel.EvSend msgs)).
  rewrite IH by (by rewrite Hp). exact Hposted.
Qed.

Lemma connect_returns_all st p p1 :
  Channel.posts p (Channel.messageQueue st) p1 ->
  fst (Channel.connectPort (Channel.ConnectReturns p) st)
  = Channel.mkState (Some p1) 0 None []
      (Channel.posted st ++ Channel.messageQueue st).
Proof.
  intros Hposts. unfold Channel.connectPort, Channel.flushMessageQueue.
  cbn. by rewrite (flush_loop_all _ p p1 [] Hposts).
Qed.

(** X8.  Messages sent while there is no port are delivered when the port
    comes back: if the new port accepts them, [connectPort] posts what the
    queue has kept (the last 20 of what was queued and sent), in the order
    sent and once each, and leaves the queue empty, the attempt count at
    zero and no timer pending. *)
Theorem reconnect_delivers_the_queue
    (st : Channel.State (Msg := Msg)) (msgs : list Msg) (p p1 : Port) :
  Channel.port st = None ->
  length (Channel.messageQueue st) <= 20 ->
  let kept :=
    drop (length (Channel.messageQueue st ++ msgs) - 20)
      (Channel.messageQueue st ++ msgs) in
  Channel.posts p kept p1 ->
  let st' :=
    Channel.run st
      (map Channel.EvSend msgs
       ++ [Channel.EvConnect (Channel.ConnectReturns p)]) in
  Channel.port st' = Some p1 /\
  Channel.messageQueue st' = [] /\
  Channel.posted st' = Channel.posted st ++ kept /\
  Channel.reconnectAttempts st' = 0 /\
  Channel.reconnectTimer st' = None.
Proof.
  intros Hport Hcap kept Hposts st'.
  unfold st', Channel.run. rewrite fold_left_app.
  fold (Channel.run st (map Channel.EvSend msgs)).
  destruct (send_disconnected msgs st Hport) as [Hnone Hqueue].
  pose proof (send_disconnected_posted msgs st Hport) as Hposted.
  rewrite (fold_push_shift _ msgs) in Hqueue by exact Hcap.
  fold kept in Hqueue.
  set (s := Channel.run st (map Channel.EvSend msgs)) in *.
  cbn [fold_left Channel.step].
  assert (Hq : Channel.messageQueue s = kept) by exact Hqueue.
  rewrite <- Hq in Hposts.
  rewrite (connect_returns_all s p p1 Hposts). cbn.
  by rewrite Hposted, Hq.
Qed.

(** X9.  The flag returned by [sendPortMessage] tells what happened to the
    message.  True: there was a port, it accepted the message, and
    nothing else changed.  False: the port is gone, the message is the
    newest entry of the queue, nothing was posted, and a reconnection is
    pending unless the 50 attempts are spent. *)
Theorem sendPortMessage_reports_delivery
    (msg : Msg) (st : Channel.State (Msg := Msg)) :
  let st' := fst (Channel.sendPortMessage msg st) in
  if snd (Channel.sendPortMessage msg st) then
    (exists p, Channel.port st = Some p /\ fst (postMessage p msg) = true /\
               Channel.port st' = Some (snd (postMessage p msg))) /\
    Channel.posted st' = Channel.posted st ++ [msg] /\
    Channel.messageQueue st' = Channel.messageQueue st /\
    Channel.reconnectTimer st' = Channel.reconnectTimer st /\
    Channel.reconnectAttempts st' = Channel.reconnectAttempts st
  else
    Channel.port st' = None /\
    Channel.posted st' = Channel.posted st /\
    last (Channel.messageQueue st') = Some msg /\
    (Channel.reconnectTimer st' <> None \/
     50 <= Channel.reconnectAttempts st').
Proof.
  assert (Hqueued : forall s,
    Channel.port s = None ->
    Channel.port (Channel.queue_and_reconnect msg s) = None /\
    Channel.posted (Channel.queue_and_reconnect msg s) = Channel.posted s /\
    last (Channel.messageQueue (Channel.queue_and_reconnect msg s)) = Some msg /\
    (Channel.reconnectTimer (Channel.queue_and_reconnect msg s) <> None \/
     50 <= Channel.reconnectAttempts (Channel.queue_and_reconnect msg s))).
  { intros s Hs.
    destruct (queue_and_reconnect_queue msg s) as (Hq & Hp & Hposted).
    rewrite Hq, Hp, Hposted. split_and!; [done|done| |].
    - apply push_shift_last. change Channel.MESSAGE_QUEUE_CAP with 20. lia.
    - unfold Channel.queue_and_reconnect. cbn zeta.
      destruct (Channel.reconnectTimer (Channel.enqueueMessage msg s))
        as [d|] eqn:Hd; [left; by rewrite Hd|].
      unfold Channel.scheduleReconnect. rewrite Hd.
      destruct (Nat.leb_spec Channel.MAX_RECONNECT_ATTEMPTS
                  (Channel.reconnectAttempts (Channel.enqueueMessage msg s)))
        as [Hge|Hlt]; [by right|by left]. }
  cbn zeta. unfold Channel.sendPortMessage.
  destruct (Channel.port st) as [p|] eqn:Hport.
  - destruct (postMessage p msg) as [[|] p'] eqn:Hpost; cbn [fst snd].
    + split_and!; try done. exists p. by rewrite Hpost.
    + destruct (Hqueued (Channel.set_port None st) eq_refl)
        as (Hp & Hposted & Hlast & Hretry).
      by split_and!.
  - cbn [fst snd]. by apply Hqueued.
Qed.

End ChannelReconnect.

(** ** Identities and tokens *)

Lemma hex_digit_is_hex n : Expect.is_hex (Hub.hex_digit n) = true.
Proof. do 16 (destruct n as [|n]; [reflexivity|]). reflexivity. Qed.

Lemma hex_digit_is_variant n :
  n < 16 ->
  Expect.is_variant (Hub.hex_digit (Nat.lor (Nat.land n 3) 8)) = true.
Proof.
  intros Hn. do 16 (destruct n as [|n]; [reflexivity|]). lia.
Qed.

Section TokenFacts.
Context `{Hub.HubHost}.

Lemma fill_template_shape tpl : forall k,
  Expect.matches_template tpl (fst (Hub.fill_template tpl k)) = true /\
  String.length (fst (Hub.fill_template tpl k)) = String.length tpl.
Proof.
  induction tpl as [|t tpl IH]; intros k; [done|].
  cbn [Hub.fill_template].
  destruct (Ascii.eqb t "x") eqn:Hx.
  - destruct (IH (S k)) as [Hm Hl].
    destruct (Hub.fill_template tpl (S k)) as [s k'].
    cbn [fst Expect.matches_template String.length] in *.
    by rewrite Hx, hex_digit_is_hex, Hm, Hl.
  - destruct (Ascii.eqb t "y") eqn:Hy.
    + destruct (IH (S k)) as [Hm Hl].
      destruct (Hub.fill_template tpl (S k)) as [s k'].
      cbn [fst Expect.matches_template String.length] in *.
      rewrite Hx, Hy, hex_digit_is_variant, Hm, Hl; [done|].
      apply Nat.mod_upper_bound. lia.
    + destruct (IH k) as [Hm Hl].
      destruct (Hub.fill_template tpl k) as [s k'].
      cbn [fst Expect.matches_template String.length] in *.
      by rewrite Hx, Hy, Ascii.eqb_refl, Hm, Hl.
Qed.

(** X10.  Whatever [Math.random] returns, [generateUUID] yields a string
    of 36 characters of the shape xxxxxxxx-xxxx-4xxx-yxxx-xxxxxxxxxxxx
    with a lower-case hexadecimal digit for every x and one of 8, 9, a, b
    for y (a version 4 UUID), and draws exactly 31 random numbers for
    it. *)
Theorem generateUUID_is_a_version_4_uuid (w : Hub.World) :
  Expect.matches_template Hub.UUID_TEMPLATE (fst (Hub.generateUUID w)) = true /\
  String.length (fst (Hub.generateUUID w)) = 36 /\
  snd (Hub.generateUUID w) = Hub.set_randoms (Hub.randoms w + 31) w.
Proof.
  destruct (fill_template_shape Hub.UUID_TEMPLATE (Hub.randoms w))
    as [Hm Hl].
  pose proof (generateUUID_draws w) as (Hdraws & _ & Hfst & _).
  rewrite Hfst. split_and!; [exact Hm|exact Hl|].
  unfold Hub.generateUUID in *.
  destruct (Hub.fill_template Hub.UUID_TEMPLATE (Hub.randoms w)) as [u k].
  cbn in *. by rewrite Hdraws, Nat.add_comm.
Qed.

End TokenFacts.

Lemma scheduleRetry_sockets now room ov w :
  Hub.sockets (Hub.scheduleRetry now room ov w) = Hub.sockets w /\
  Hub.ws (Hub.scheduleRetry now room ov w) = Hub.ws w /\
  Hub.isConnecting (Hub.scheduleRetry now room ov w) = Hub.isConnecting w /\
  Hub.authErrorBackoff (Hub.scheduleRetry now room ov w)
  = Hub.authErrorBackoff w /\
  Hub.inflight (Hub.scheduleRetry now room ov w) = Hub.inflight w /\
  Hub.currentRoom (Hub.scheduleRetry now room ov w) = Hub.currentRoom w.
Proof. unfold Hub.scheduleRetry. by destruct (_ <=? _). Qed.

Lemma usable_token_grants o tok :
  Hub.usable_token (Hub.fetchHubToken o) = Some tok <-> Expect.grants o tok.
Proof.
  unfold Expect.grants, Hub.usable_token, Hub.fetchHubToken. split.
  - destruct o as [|status body]; [done|].
    destruct (Z.leb_spec 200 status), (Z.leb_spec status 299); cbn;
      try (by destruct (status =? 401)%Z).
    destruct body as [t|]; [|done]. cbn.
    destruct t as [|c t]; [done|]. cbn. intros [= <-].
    exists status. by split_and!.
  - intros (status & -> & [Hlo Hhi] & Hne).
    destruct (Z.leb_spec 200 status), (Z.leb_spec status 299); try lia.
    cbn. by destruct tok.
Qed.

(** X11.  [connect] opens a socket exactly when the token service answered
    with a status from 200 to 299 and a token that is not empty, and the
    [WebSocket] constructor did not throw: the socket is then a new one
    for the room, connecting, with the token in its url, and
    [authErrorBackoff] is cleared.  On any other answer no socket is made,
    [ws] is left alone and [isConnecting] is cleared; the answer counts as
    an authorization failure exactly when its status is 401. *)
Theorem connect_opens_a_socket_only_with_a_token
    (now : Z) (roomId : string) (o : Hub.HttpOutcome) (ctor_ok : bool)
    (w : Hub.World) :
  let w' := Hub.connect_resume now roomId (Hub.fetchHubToken o) ctor_ok w in
  (forall tok, Expect.grants o tok -> ctor_ok = true ->
     w' = Hub.new_socket roomId tok (Hub.set_authErrorBackoff false w) /\
     Hub.sockets w'
     = Hub.sockets w
       ++ [Hub.mkWebSocket roomId (Hub.wsUrl roomId tok) Hub.CONNECTING
             (Some roomId) []] /\
     Hub.ws w' = Some (length (Hub.sockets w))) /\
  ((forall tok, ~ Expect.grants o tok) \/ ctor_ok = false ->
   Hub.sockets w' = Hub.sockets w /\ Hub.ws w' = Hub.ws w /\
   Hub.isConnecting w' = false) /\
  (Hub.isAuthError (Hub.fetchHubToken o) = true <->
   exists body, o = Hub.Response 401 body) /\
  (Hub.isAuthError (Hub.fetchHubToken o) = true ->
   Hub.usable_token (Hub.fetchHubToken o) = None /\
   Hub.authErrorBackoff w' = true).
Proof.
  cbn zeta. split_and!.
  - intros tok Hgrant ->. apply usable_token_grants in Hgrant.
    unfold Hub.connect_resume. by rewrite Hgrant.
  - intros Hno. unfold Hub.connect_resume.
    destruct (Hub.usable_token (Hub.fetchHubToken o)) as [tok|] eqn:Htok.
    + apply usable_token_grants in Htok.
      destruct Hno as [Hno| ->]; [by destruct (Hno tok)|].
      by destruct (scheduleRetry_sockets now roomId None
                     (Hub.set_isConnecting false
                        (Hub.set_authErrorBackoff false w)))
        as (-> & -> & -> & _).
    + destruct (Hub.isAuthError (Hub.fetchHubToken o)).
      * by destruct (scheduleRetry_sockets now roomId
                       (Some Hub.AUTH_ERROR_BACKOFF_MS)
                       (Hub.set_authErrorBackoff true
                          (Hub.set_isConnecting false w)))
          as (-> & -> & -> & _).
      * by destruct (scheduleRetry_sockets now roomId None
                       (Hub.set_isConnecting false w))
          as (-> & -> & -> & _).
  - unfold Hub.fetchHubToken. split.
    + destruct o as [|status body]; [done|].
      destruct ((200 <=? status)%Z && (status <=? 299)%Z); [done|].
      destruct (Z.eqb_spec status 401) as [->|_]; [|done].
      intros _. by exists body.
    + by intros [body ->].
  - intros Hauth. unfold Hub.connect_resume.
    assert (Hnone : Hub.usable_token (Hub.fetchHubToken o) = None).
    { unfold Hub.fetchHubToken in *. destruct o as [|status body]; [done|].
      destruct ((200 <=? status)%Z && (status <=? 299)%Z); [done|].
      by destruct (status =? 401)%Z. }
    rewrite Hnone, Hauth. split; [done|].
    by destruct (scheduleRetry_sockets now roomId
                   (Some Hub.AUTH_ERROR_BACKOFF_MS)
                   (Hub.set_authErrorBackoff true
                      (Hub.set_isConnecting false w)))
      as (_ & _ & _ & -> & _).
Qed.

(** ** Rooms *)

Lemma cut_query_fragment_chars s c :
  In c (list_ascii_of_string (RoomSpec.cut_query_fragment s)) ->
  In c (list_ascii_of_string s) /\ c <> "?"%char /\ c <> "#"%char.
Proof.
  induction s as [|a rest IH]; [done|]. cbn.
  destruct (Ascii.eqb_spec a "?") as [->|Hq]; [done|].
  destruct (Ascii.eqb_spec a "#") as [->|Hh]; [done|]. cbn.
  intros [<-|Hin]; [by split_and!; [left|..]|].
  destruct (IH Hin) as (? & ? & ?). by split_and!; [right|..].
Qed.

Lemma strip_trailing_slash_chars s c :
  In c (list_ascii_of_string (JsString.strip_trailing_slash s)) ->
  In c (list_ascii_of_string s).
Proof.
  induction s as [|a rest IH]; [done|].
  destruct rest as [|b rest].
  - cbn. by destruct (Ascii.eqb a "/").
  - change (JsString.strip_trailing_slash (String a (String b rest)))
      with (String a (JsString.strip_trailing_slash (String b rest))).
    change (list_ascii_of_string (String a ?t))
      with (a :: list_ascii_of_string t).
    intros [<-|Hin]; [by left|]. right. by apply IH.
Qed.

Lemma final_segment_from_chars s : forall acc,
  (RoomSpec.final_segment_from acc s = acc /\
   ~ In "/"%char (list_ascii_of_string s)) \/
  (forall c, In c (list_ascii_of_string (RoomSpec.final_segment_from acc s)) ->
             In c (list_ascii_of_string s) /\ c <> "/"%char).
Proof.
  induction s as [|a rest IH]; intros acc;
    [left; split; [done|by intros []]|]. cbn.
  destruct (Ascii.eqb_spec a "/") as [->|Hne].
  - right. intros c Hin. destruct (IH rest) as [[Heq Hno]|Hsub].
    + rewrite Heq in Hin. split; [by right|]. by intros ->.
    + destruct (Hsub c Hin). split; [by right|done].
  - destruct (IH acc) as [[Heq Hno]|Hsub].
    + left. split; [done|]. by intros [?|?].
    + right. intros c Hin. destruct (Hsub c Hin). split; [by right|done].
Qed.

Lemma final_segment_chars s c :
  In c (list_ascii_of_string (RoomSpec.final_segment s)) ->
  In c (list_ascii_of_string s) /\ c <> "/"%char.
Proof.
  unfold RoomSpec.final_segment.
  destruct (final_segment_from_chars s s) as [[-> Hno]|Hsub]; [|by apply Hsub].
  intros Hin. split; [done|]. by intros ->.
Qed.

Lemma cut_query_fragment_plain s :
  (forall c, In c (list_ascii_of_string s) ->
             c <> "?"%char /\ c <> "#"%char) ->
  RoomSpec.cut_query_fragment s = s.
Proof.
  induction s as [|a rest IH]; [done|]. intros Hplain. cbn.
  destruct (Hplain a) as [Hq Hh]; [by left|].
  destruct (Ascii.eqb_spec a "?"); [done|].
  destruct (Ascii.eqb_spec a "#"); [done|]. cbn.
  rewrite IH; [done|]. intros c Hin. apply Hplain. by right.
Qed.

Lemma strip_trailing_slash_plain s :
  ~ In "/"%char (list_ascii_of_string s) ->
  JsString.strip_trailing_slash s = s.
Proof.
  induction s as [|a rest IH]; [done|]. intros Hno.
  destruct rest as [|b rest].
  - cbn. destruct (Ascii.eqb_spec a "/") as [->|]; [|done].
    destruct Hno. by left.
  - change (JsString.strip_trailing_slash (String a (String b rest)))
      with (String a (JsString.strip_trailing_slash (String b rest))).
    rewrite IH; [done|]. intros Hin. apply Hno. by right.
Qed.

Lemma final_segment_from_plain s : forall acc,
  ~ In "/"%char (list_ascii_of_string s) ->
  RoomSpec.final_segment_from acc s = acc.
Proof.
  induction s as [|a rest IH]; intros acc Hno; [done|]. cbn.
  destruct (Ascii.eqb_spec a "/") as [->|]; [destruct Hno; by left|].
  apply IH. intros Hin. apply Hno. by right.
Qed.

Lemma cut_query_fragment_app u s :
  RoomSpec.cut_query_fragment (u ++ s)%string = RoomSpec.cut_query_fragment u \/
  (RoomSpec.cut_query_fragment u = u /\
   RoomSpec.cut_query_fragment (u ++ s)%string
   = (u ++ RoomSpec.cut_query_fragment s)%string).
Proof.
  induction u as [|a u IH]; [right; by split|].
  change (String a u ++ s)%string with (String a (u ++ s)%string).
  cbn [RoomSpec.cut_query_fragment].
  destruct (Ascii.eqb a "?" || Ascii.eqb a "#"); [by left|].
  destruct IH as [->|[-> ->]]; [by left|right; by split].
Qed.

Lemma list_ascii_of_string_app u s :
  list_ascii_of_string (u ++ s)%string
  = list_ascii_of_string u ++ list_ascii_of_string s.
Proof.
  induction u as [|a u IH]; [done|].
  change (String a u ++ s)%string with (String a (u ++ s)%string).
  cbn [list_ascii_of_string]. by rewrite IH.
Qed.

(** X12.  A room that [extractRoomFromUrl] returns is made of characters
    of the url, holds none of the delimiters slash, question mark and
    hash, and is neither empty nor white space only.  Conversely every
    string of that kind is a room on its own: extraction returns it
    unchanged, so extracting twice is extracting once. *)
Theorem extracted_room_is_a_clean_segment (url room : string) :
  (extractRoomFromUrl (JsStr url) = Some room ->
   Expect.plain room /\
   (forall c, In c (list_ascii_of_string room) ->
              In c (list_ascii_of_string url)) /\
   JsString.truthy room = true /\ JsString.all_white room = false /\
   extractRoomFromUrl (JsStr room) = Some room) /\
  (Expect.plain room -> JsString.all_white room = false ->
   extractRoomFromUrl (JsStr room) = Some room).
Proof.
  assert (Hfix : forall r, Expect.plain r -> JsString.all_white r = false ->
                           extractRoomFromUrl (JsStr r) = Some r).
  { intros r Hplain Hwhite. cbn [extractRoomFromUrl].
    rewrite extractRoomFromString_spec. unfold RoomSpec.room. cbn zeta.
    assert (Hno : ~ In "/"%char (list_ascii_of_string r)).
    { intros Hin. by destruct (Hplain _ Hin) as [? _]. }
    rewrite cut_query_fragment_plain
      by (intros c Hin; by destruct (Hplain c Hin) as (_ & ? & ?)).
    rewrite <- strip_trailing_slash_trim, strip_trailing_slash_plain by done.
    unfold RoomSpec.final_segment.
    rewrite final_segment_from_plain by done. by rewrite Hwhite. }
  split; [|apply Hfix].
  cbn [extractRoomFromUrl]. rewrite extractRoomFromString_spec.
  unfold RoomSpec.room. cbn zeta.
  destruct (JsString.all_white _) eqn:Hwhite; [done|]. intros [= <-].
  set (seg := RoomSpec.final_segment _) in *.
  assert (Hchars : forall c, In c (list_ascii_of_string seg) ->
            In c (list_ascii_of_string url) /\
            c <> "/"%char /\ c <> "?"%char /\ c <> "#"%char).
  { intros c Hin. apply final_segment_chars in Hin as [Hin Hslash].
    rewrite <- strip_trailing_slash_trim in Hin.
    apply strip_trailing_slash_chars, cut_query_fragment_chars in Hin.
    by destruct Hin as (? & ? & ?). }
  assert (Hplain : Expect.plain seg).
  { intros c Hin. by destruct (Hchars c Hin) as (_ & ? & ? & ?). }
  split_and!; [done| |by destruct seg|done|].
  - intros c Hin. by destruct (Hchars c Hin).
  - by apply (Hfix seg).
Qed.

(** X13.  [extractRoomFromUrl] does not look past the first question mark
    or hash: a query string or a fragment appended to a url leaves the
    room what it was.  A slash appended to a url that does not end in one
    leaves it what it was as well. *)
Theorem room_ignores_query_fragment_and_final_slash (url rest : string) :
  extractRoomFromUrl (JsStr (url ++ String "?" rest))
  = extractRoomFromUrl (JsStr url) /\
  extractRoomFromUrl (JsStr (url ++ String "#" rest))
  = extractRoomFromUrl (JsStr url) /\
  (RoomSpec.ends_with_slash url = false ->
   extractRoomFromUrl (JsStr (url ++ "/")) = extractRoomFromUrl (JsStr url)).
Proof.
  cbn [extractRoomFromUrl]. rewrite !extractRoomFromString_spec.
  unfold RoomSpec.room. cbn zeta.
  assert (Hcut : forall d,
            d = "?"%char \/ d = "#"%char ->
            RoomSpec.cut_query_fragment (url ++ String d rest)
            = RoomSpec.cut_query_fragment url).
  { intros d Hd.
    destruct (cut_query_fragment_app url (String d rest)) as [->|[Hu ->]];
      [done|].
    rewrite Hu. cbn.
    replace (Ascii.eqb d "?" || Ascii.eqb d "#") with true
      by (by destruct Hd as [-> | ->]).
    clear. induction url as [|a u IH]; [done|].
    change (String a u ++ "")%string with (String a (u ++ "")%string).
    by rewrite IH. }
  split_and!.
  - by rewrite Hcut by (by left).
  - by rewrite Hcut by (by right).
  - intros Hend.
    destruct (cut_query_fragment_app url "/") as [->|[Hu ->]]; [done|].
    rewrite Hu. cbn [RoomSpec.cut_query_fragment].
    change (Ascii.eqb "/" "?" || Ascii.eqb "/" "#") with false. cbn iota.
    assert (Htrim : RoomSpec.trim_slash (url ++ "/") = RoomSpec.trim_slash url).
    { unfold RoomSpec.trim_slash at 2. rewrite Hend.
      unfold RoomSpec.trim_slash, RoomSpec.ends_with_slash,
        RoomSpec.drop_last.
      rewrite list_ascii_of_string_app. cbn [list_ascii_of_string].
      rewrite last_snoc, removelast_last. cbn.
      by rewrite string_of_list_ascii_of_string. }
    by rewrite Htrim.
Qed.

(** ** The worker over bursts and runs *)

Lemma extracted_room_truthy v room :
  extractRoomFromUrl v = Some room ->
  JsString.truthy room = true /\ js_truthy v = true.
Proof.
  destruct v as [s|b]; [|done]. cbn [extractRoomFromUrl js_truthy].
  intros Hroom. split; [|by destruct s].
  unfold extractRoomFromString in Hroom. cbn zeta in Hroom.
  destruct (JsString.last_elem _) as [l|]; [|done].
  destruct (JsString.truthy l) eqn:Htruthy; [|done].
  destruct (JsString.trim_nonempty l); [|done].
  by injection Hroom as <-.
Qed.

Section HubBursts.
Context `{Hub.HubHost}.

Lemma ws_is_open_live w : Hub.ws_is_open w = true -> Hub.ws_is_live w = true.
Proof.
  unfold Hub.ws_is_open, Hub.ws_is_live.
  destruct (Hub.current_socket w) as [s|]; [|done].
  intros ->. apply orb_true_r.
Qed.

Lemma connect_busy roomId w :
  Hub.currentRoom w = Some roomId ->
  Hub.isConnecting w = true \/ Hub.ws_is_live w = true ->
  Hub.connect roomId w = w.
Proof.
  intros Hroom Hbusy. unfold Hub.connect, Hub.connect_begin.
  destruct (JsString.truthy roomId); [|done]. cbn [negb].
  rewrite (bool_decide_eq_true_2 _ Hroom).
  destruct (Hub.ws_is_open w); [done|]. cbn [andb].
  destruct (Hub.isConnecting w); [done|].
  by destruct Hbusy as [?| ->].
Qed.

Lemma connect_makes_busy roomId w :
  JsString.truthy roomId = true ->
  let w1 := Hub.connect roomId w in
  Hub.currentRoom w1 = Some roomId /\
  (Hub.isConnecting w1 = true \/ Hub.ws_is_live w1 = true) /\
  Hub.publisherIds w1 = Hub.publisherIds w /\
  Hub.queue w1 = Hub.queue w /\
  (Hub.inflight w1 = Hub.inflight w \/
   Hub.inflight w1
   = Hub.inflight w ++ [Hub.AwaitIdentity roomId (Hub.publisherIds w)]).
Proof.
  intros Htruthy. cbn zeta.
  destruct (decide (Hub.currentRoom w = Some roomId)) as [Hroom|Hroom].
  - unfold Hub.connect, Hub.connect_begin. rewrite Htruthy. cbn [negb].
    rewrite (bool_decide_eq_true_2 _ Hroom).
    destruct (Hub.ws_is_open w) eqn:Hopen; cbn [andb].
    { split_and!; try done; [right; by apply ws_is_open_live|by left]. }
    destruct (Hub.isConnecting w) eqn:Hconn.
    { split_and!; try done; [by left|by left]. }
    destruct (Hub.ws_is_live w) eqn:Hlive.
    { split_and!; try done; [by right|by left]. }
    split_and!; try done; [by left|by right].
  - unfold Hub.connect. rewrite connect_begin_switch by done.
    rewrite disconnect_spec.
    split_and!; try done; [by left|by right].
Qed.

Lemma handleHandData_busy hd roomId w :
  extractRoomFromUrl (Page.hd_url hd) = Some roomId ->
  Hub.currentRoom w = Some roomId ->
  Hub.isConnecting w = true \/ Hub.ws_is_live w = true ->
  Hub.handleHandData hd w
  = Hub.set_inflight
      (Hub.inflight w ++ [Hub.AwaitPublish roomId hd (Hub.publisherIds w)]) w.
Proof.
  intros Hurl Hroom Hbusy. unfold Hub.handleHandData.
  destruct (extracted_room_truthy _ _ Hurl) as [_ ->]. cbn [negb].
  rewrite Hurl. cbn zeta. by rewrite connect_busy.
Qed.

Lemma burst_when_busy roomId hds : forall w,
  Forall (fun hd => extractRoomFromUrl (Page.hd_url hd) = Some roomId) hds ->
  Hub.currentRoom w = Some roomId ->
  Hub.isConnecting w = true \/ Hub.ws_is_live w = true ->
  fold_left (fun w hd => Hub.handleHandData hd w) hds w
  = Hub.set_inflight
      (Hub.inflight w
       ++ map (fun hd => Hub.AwaitPublish roomId hd (Hub.publisherIds w)) hds)
      w.
Proof.
  induction hds as [|hd hds IH]; intros w Hall Hroom Hbusy.
  - cbn. rewrite app_nil_r. by destruct w.
  - apply Forall_cons in Hall as [Hhd Hall].
    cbn [fold_left map]. rewrite (handleHandData_busy hd roomId) by done.
    rewrite IH; [|done|done|exact Hbusy].
    cbn. by rewrite <- app_assoc.
Qed.

(** X14.  Hands that arrive for one room in a row start at most one
    connection attempt: the first of them may suspend one [connect] at the
    request for the publisher id, the others find the room targeted and
    the publisher connecting or connected and leave it at that.  Each hand
    suspends one publish continuation, in the order of arrival, and none
    of them touches the queue or the stored ids.  When the room was
    already targeted and busy, the continuations are all that changes. *)
Theorem burst_of_hands_connects_once
    (hds : list Page.HandData) (roomId : string) (w : Hub.World) :
  Forall (fun hd => extractRoomFromUrl (Page.hd_url hd) = Some roomId) hds ->
  let w' := fold_left (fun w hd => Hub.handleHandData hd w) hds w in
  let publishes :=
    map (fun hd => Hub.AwaitPublish roomId hd (Hub.publisherIds w)) hds in
  (Hub.inflight w' = Hub.inflight w ++ publishes \/
   Hub.inflight w'
   = Hub.inflight w
     ++ Hub.AwaitIdentity roomId (Hub.publisherIds w) :: publishes) /\
  Hub.queue w' = Hub.queue w /\
  Hub.publisherIds w' = Hub.publisherIds w /\
  (hds <> [] ->
   Hub.currentRoom w' = Some roomId /\
   (Hub.isConnecting w' = true \/ Hub.ws_is_live w' = true)) /\
  (Hub.currentRoom w = Some roomId ->
   Hub.isConnecting w = true \/ Hub.ws_is_live w = true ->
   w' = Hub.set_inflight (Hub.inflight w ++ publishes) w).
Proof.
  intros Hall. cbn zeta.
  assert (Hbusy : Hub.currentRoom w = Some roomId ->
            Hub.isConnecting w = true \/ Hub.ws_is_live w = true ->
            fold_left (fun w hd => Hub.handleHandData hd w) hds w
            = Hub.set_inflight
                (Hub.inflight w
                 ++ map (fun hd =>
                           Hub.AwaitPublish roomId hd (Hub.publisherIds w))
                      hds) w).
  { intros. by apply burst_when_busy. }
  destruct hds as [|hd hds].
  { cbn. rewrite app_nil_r. split_and!; try done; [by left|].
    intros _ _. by destruct w. }
  apply Forall_cons in Hall as [Hhd Hall].
  destruct (extracted_room_truthy _ _ Hhd) as [Htruthy Hurl].
  destruct (connect_makes_busy roomId w Htruthy)
    as (Hroom & Hlive & Hids & Hqueue & Hflight).
  set (w1 := Hub.connect roomId w) in *.
  assert (Hfold :
            fold_left (fun w hd => Hub.handleHandData hd w) (hd :: hds) w
            = Hub.set_inflight
                ((Hub.inflight w1
                  ++ [Hub.AwaitPublish roomId hd (Hub.publisherIds w)])
                 ++ map (fun hd =>
                           Hub.AwaitPublish roomId hd (Hub.publisherIds w))
                      hds) w1).
  { cbn [fold_left]. unfold Hub.handleHandData at 2.
    rewrite Hurl, Hhd. cbn [negb]. cbn zeta. fold w1.
    rewrite (burst_when_busy roomId hds) by done.
    cbn [Hub.inflight Hub.publisherIds Hub.set_inflight]. by rewrite Hids. }
  split_and!; [| | | |exact Hbusy]; rewrite Hfold;
    cbn [Hub.inflight Hub.queue Hub.publisherIds Hub.currentRoom
         Hub.isConnecting Hub.set_inflight map]; try done.
  - destruct Hflight as [-> | ->]; [left|right].
    + by rewrite <- app_assoc.
    + by rewrite <- !app_assoc.
Qed.

End HubBursts.

Section HubOrder.
Context `{Hub.HubHost}.

Lemma socket_ok_log_sent frame s :
  Expect.socket_ok s -> Hub.is_OPEN (Hub.readyState s) = true ->
  Expect.socket_ok (Hub.log_sent frame s).
Proof.
  destruct s as [room url [] oc sent]; unfold Expect.socket_ok; cbn;
    intros (? & ? & ? & ?) ?; by split_and!.
Qed.

Lemma socket_ok_opened s :
  Expect.socket_ok s -> Hub.is_CONNECTING (Hub.readyState s) = true ->
  Expect.socket_ok (Hub.set_readyState Hub.OPEN s) /\
  Hub.ws_onclose s = Some (Hub.ws_room s).
Proof.
  destruct s as [room url [] [oc|] sent]; unfold Expect.socket_ok; cbn;
    intros (? & Hoc & Hnone & ?) ?; try done.
  - pose proof (Hoc oc eq_refl) as ->. by split_and!.
  - by destruct Hnone.
Qed.

Lemma socket_ok_closed s :
  Expect.socket_ok s -> Expect.socket_ok (Hub.set_readyState Hub.CLOSED s).
Proof.
  destruct s as [room url st oc sent]; unfold Expect.socket_ok; cbn;
    intros (? & ? & ? & ?); by split_and!.
Qed.

Lemma socket_ok_torn s :
  Expect.socket_ok s ->
  Expect.socket_ok (Hub.close_socket (Hub.detach_onclose s)).
Proof.
  destruct s as [room url [] oc sent]; unfold Expect.socket_ok; cbn;
    intros (? & ? & ? & ?); by split_and!.
Qed.

(** Fields the order of a worker does not depend on, or depends on in a
    way that is checked apart. *)
Lemma in_order_fields w w' :
  Expect.in_order w ->
  Hub.ws w' = Hub.ws w -> Hub.sockets w' = Hub.sockets w ->
  Hub.retryCount w' <= Hub.MAX_RETRIES ->
  (forall r, Hub.currentRoom w' = Some r -> JsString.truthy r = true) ->
  Forall (fun t => JsString.truthy (Expect.task_room t) = true)
    (Hub.inflight w') ->
  Expect.in_order w'.
Proof.
  intros (Hws & _ & _ & _ & Hsocks) Hws' Hsocks' Hcount Hroom Htasks.
  unfold Expect.in_order. rewrite Hws', Hsocks'. by split_and!.
Qed.

Lemma in_order_alter id f w :
  Expect.in_order w ->
  (forall s, Hub.sockets w !! id = Some s -> Expect.socket_ok s ->
             Expect.socket_ok (f s)) ->
  (forall s, Hub.ws w = Some id -> Hub.sockets w !! id = Some s ->
             Hub.ws_onclose (f s) = Hub.ws_onclose s /\
             Hub.ws_room (f s) = Hub.ws_room s /\
             Hub.is_CLOSED (Hub.readyState (f s)) = false) ->
  Expect.in_order (Hub.update_socket id f w).
Proof.
  intros (Hws & Hcount & Hroom & Htasks & Hsocks) Hok Hkeep.
  unfold Expect.in_order, Hub.update_socket. cbn.
  split_and!; try done.
  - intros i Hi. destruct (Hws i Hi) as (s & Hs & Hoc & Hclosed).
    destruct (decide (i = id)) as [->|Hne].
    + exists (f s). rewrite list_lookup_alter_eq, Hs. cbn.
      destruct (Hkeep s Hi Hs) as (-> & -> & ->). by split_and!.
    + exists s. by rewrite list_lookup_alter_ne.
  - apply Forall_alter; [done|]. intros s Hs Hoks. by apply Hok.
Qed.

Lemma in_order_alter_drop id f w :
  Expect.in_order w ->
  (forall s, Expect.socket_ok s -> Expect.socket_ok (f s)) ->
  Expect.in_order (Hub.set_ws None (Hub.update_socket id f w)).
Proof.
  intros (Hws & Hcount & Hroom & Htasks & Hsocks) Hok.
  unfold Expect.in_order, Hub.update_socket. cbn.
  split_and!; try done.
  apply Forall_alter; [done|]. intros s _ Hoks. by apply Hok.
Qed.

Lemma in_order_scheduleRetry now room ov w :
  Expect.in_order w -> Expect.in_order (Hub.scheduleRetry now room ov w).
Proof.
  intros Hord. pose proof Hord as (_ & Hcount & Hroom & Htasks & _).
  unfold Hub.scheduleRetry.
  destruct (Nat.leb_spec Hub.MAX_RETRIES (Hub.retryCount w));
    (eapply in_order_fields; [exact Hord|done..]).
Qed.

Lemma in_order_disconnect w :
  Expect.in_order w -> Expect.in_order (Hub.disconnect w).
Proof.
  intros Hord. pose proof Hord as (_ & Hcount & Hroom & Htasks & _).
  rewrite disconnect_spec.
  destruct (Hub.ws w) as [id|] eqn:Hws.
  - eapply (in_order_fields
              (Hub.set_ws None
                 (Hub.update_socket id
                    (fun s => Hub.close_socket (Hub.detach_onclose s)) w)));
      [|done..].
    apply in_order_alter_drop; [done|]. apply socket_ok_torn.
  - eapply in_order_fields; [exact Hord|by cbn..].
Qed.

Lemma in_order_connect roomId w :
  JsString.truthy roomId = true ->
  Expect.in_order w -> Expect.in_order (Hub.connect roomId w).
Proof.
  intros Htruthy Hord. unfold Hub.connect, Hub.connect_begin.
  rewrite Htruthy. cbn [negb].
  destruct (bool_decide (Hub.currentRoom w = Some roomId) && Hub.ws_is_open w);
    [done|].
  set (w1 := if bool_decide (Hub.currentRoom w = Some roomId) then w else _).
  assert (Hord1 : Expect.in_order w1).
  { subst w1. destruct (bool_decide _); [done|].
    pose proof (in_order_disconnect w Hord) as Hdis.
    pose proof Hdis as (_ & _ & _ & Htasks & _).
    eapply in_order_fields; [exact Hdis|try done..].
    - cbn. lia.
    - by intros r [= <-]. }
  clearbody w1. pose proof Hord1 as (_ & Hcount & Hroom & Htasks & _).
  destruct (Hub.isConnecting w1); [done|].
  destruct (Hub.ws_is_live w1); [done|].
  eapply in_order_fields; [exact Hord1|try done..].
  cbn. apply Forall_app. split; [done|].
  by repeat constructor.
Qed.

Lemma in_order_callback roomId ids w :
  Expect.in_order w ->
  Expect.in_order (snd (Hub.getPublisherId_callback roomId ids w)) /\
  Hub.inflight (snd (Hub.getPublisherId_callback roomId ids w))
  = Hub.inflight w.
Proof.
  intros Hord. pose proof Hord as (_ & Hcount & Hroom & Htasks & _).
  unfold Hub.getPublisherId_callback, Hub.generateUUID.
  destruct (Hub.fill_template _ _) as [u k].
  destruct (js_truthy (Hub.lookup_id ids roomId)); [done|].
  split; [|done]. eapply in_order_fields; [exact Hord|done..].
Qed.

Lemma in_order_connect_resume now roomId r ctor_ok w :
  JsString.truthy roomId = true ->
  Expect.in_order w ->
  Expect.in_order (Hub.connect_resume now roomId r ctor_ok w).
Proof.
  intros Htruthy Hord.
  pose proof Hord as (Hws & Hcount & Hroom & Htasks & Hsocks).
  unfold Hub.connect_resume.
  destruct (Hub.usable_token r) as [tok|].
  - destruct ctor_ok.
    + unfold Expect.in_order, Hub.new_socket. cbn. split_and!; try done.
      * intros id [= <-]. eexists. rewrite lookup_app_r by done.
        rewrite Nat.sub_diag. by split_and!.
      * apply Forall_app. split; [done|]. repeat constructor; try done.
        cbn. by intros r0 [= <-].
    + apply in_order_scheduleRetry.
      eapply in_order_fields; [exact Hord|done..].
  - destruct (Hub.isAuthError r); apply in_order_scheduleRetry;
      (eapply in_order_fields; [exact Hord|done..]).
Qed.

Lemma in_order_log_frames frames : forall w,
  Hub.ws_is_open w = true ->
  Expect.in_order w -> Expect.in_order (Hub.log_frames frames w).
Proof.
  induction frames as [|f frames IH]; intros w Hopen Hord; [done|].
  rewrite log_frames_cons.
  pose proof (log_frames_open [f] w) as Hopen1.
  rewrite log_frames_cons in Hopen1.
  change (Hub.log_frames [] ?x) with x in Hopen1.
  apply IH; [by rewrite Hopen1|].
  unfold Hub.ws_is_open, Hub.current_socket in Hopen.
  destruct (Hub.ws w) as [id|] eqn:Hws; [|done].
  apply in_order_alter; [done|..].
  - intros s Hs Hok. apply socket_ok_log_sent; [done|].
    by rewrite Hs in Hopen.
  - intros s _ Hs. split_and!; try done. cbn. rewrite Hs in Hopen.
    by destruct (Hub.readyState s).
Qed.

Lemma in_order_enqueue e w :
  Expect.in_order w -> Expect.in_order (Hub.enqueue e w).
Proof.
  intros Hord. pose proof Hord as (_ & Hcount & Hroom & Htasks & _).
  eapply in_order_fields; [exact Hord|done..].
Qed.

Lemma in_order_publish e w :
  Expect.in_order w -> Expect.in_order (Hub.publish e w).
Proof.
  intros Hord. unfold Hub.publish.
  destruct (Hub.stringify e) as [frame|]; [|done].
  destruct (Hub.ws_is_open w) eqn:Hopen; [|by apply in_order_enqueue].
  destruct (Hub.ws_send frame w) as [[|] w'] eqn:Hsend.
  - apply ws_send_accepted in Hsend as ->. by apply in_order_log_frames.
  - apply ws_send_refused in Hsend as ->. by apply in_order_enqueue.
Qed.

Lemma in_order_flush_loop q : forall w,
  Expect.in_order w -> Expect.in_order (snd (Hub.flush_loop q w)).
Proof.
  induction q as [|e q IH]; intros w Hord; [done|]. cbn [Hub.flush_loop].
  destruct (Hub.ws_is_open w) eqn:Hopen; [|done].
  destruct (Hub.stringify e) as [frame|]; [|done].
  destruct (Hub.ws_send frame w) as [[|] w1] eqn:Hsend.
  - apply ws_send_accepted in Hsend as ->.
    by apply IH, in_order_log_frames.
  - by apply ws_send_refused in Hsend as ->.
Qed.

Lemma in_order_flushQueue w :
  Expect.in_order w -> Expect.in_order (Hub.flushQueue w).
Proof.
  intros Hord. unfold Hub.flushQueue.
  pose proof (in_order_flush_loop (Hub.queue w) w Hord) as Hloop.
  destruct (Hub.flush_loop (Hub.queue w) w) as [q' w'].
  pose proof Hloop as (_ & Hcount & Hroom & Htasks & _).
  eapply in_order_fields; [exact Hloop|done..].
Qed.

Lemma in_order_take_task k t w w1 :
  Expect.in_order w -> Hub.take_task k w = Some (t, w1) ->
  Expect.in_order w1 /\ JsString.truthy (Expect.task_room t) = true.
Proof.
  intros Hord. pose proof Hord as (_ & Hcount & Hroom & Htasks & _).
  unfold Hub.take_task.
  destruct (Hub.inflight w !! k) as [t'|] eqn:Hk; [|done].
  intros [= <- <-]. split.
  - eapply in_order_fields; [exact Hord|try done..].
    cbn. by apply Forall_delete.
  - by apply (Forall_lookup_1 _ _ _ _ Htasks Hk).
Qed.

Lemma hub_step_in_order w e w' :
  Expect.in_order w -> Hub.step w e = Some w' -> Expect.in_order w'.
Proof.
  intros Hord Hstep.
  pose proof Hord as (Hws & Hcount & Hroom & Htasks & Hsocks).
  destruct e as [hd|k|k now o ctor|k now|id|id|id now|]; cbn [Hub.step] in Hstep.
  - injection Hstep as <-. unfold Hub.handleHandData.
    destruct (negb _); [done|].
    destruct (extractRoomFromUrl _) as [roomId|] eqn:Hurl; [|done].
    destruct (extracted_room_truthy _ _ Hurl) as [Htruthy _].
    pose proof (in_order_connect roomId w Htruthy Hord) as Hconn.
    pose proof Hconn as (_ & ? & ? & ? & _).
    eapply in_order_fields; [exact Hconn|try done..].
    cbn. apply Forall_app. split; [done|]. by repeat constructor.
  - destruct (Hub.take_task k w) as [[t w1]|] eqn:Htake; [|done].
    destruct (in_order_take_task _ _ _ _ Hord Htake) as [Hord1 Htruthy].
    destruct t as [roomId snapshot| |]; try done.
    destruct (in_order_callback roomId snapshot w1 Hord1) as [Hord2 Hflight].
    destruct (Hub.getPublisherId_callback roomId snapshot w1) as [pid w2].
    injection Hstep as <-. cbn [snd] in *.
    pose proof Hord2 as (_ & ? & ? & ? & _).
    eapply in_order_fields; [exact Hord2|try done..].
    cbn. apply Forall_app. split; [done|]. by repeat constructor.
  - destruct (Hub.take_task k w) as [[t w1]|] eqn:Htake; [|done].
    destruct (in_order_take_task _ _ _ _ Hord Htake) as [Hord1 Htruthy].
    destruct t as [|roomId pid|]; try done.
    injection Hstep as <-. by apply in_order_connect_resume.
  - destruct (Hub.take_task k w) as [[t w1]|] eqn:Htake; [|done].
    destruct (in_order_take_task _ _ _ _ Hord Htake) as [Hord1 Htruthy].
    destruct t as [| |roomId hd snapshot]; try done.
    destruct (in_order_callback roomId snapshot w1 Hord1) as [Hord2 Hflight].
    destruct (Hub.getPublisherId_callback roomId snapshot w1) as [pid w2].
    injection Hstep as <-. by apply in_order_publish.
  - destruct (Hub.sockets w !! id) as [s|] eqn:Hs; [|done].
    destruct (Hub.is_CONNECTING (Hub.readyState s)) eqn:Hstate; [|done].
    injection Hstep as <-. unfold Hub.onopen. apply in_order_flushQueue.
    assert (Hopened : Expect.in_order
                        (Hub.update_socket id (Hub.set_readyState Hub.OPEN) w)).
    { apply in_order_alter; [done|..].
      - intros s' Hs' Hok. rewrite Hs in Hs'. injection Hs' as <-.
        by apply socket_ok_opened.
      - intros s' _ Hs'. by split_and!. }
    pose proof Hopened as (_ & ? & ? & ? & _).
    eapply in_order_fields; [exact Hopened|try done..]. cbn. lia.
  - destruct (Hub.sockets w !! id) as [s|]; [|done]. by injection Hstep as <-.
  - destruct (Hub.sockets w !! id) as [s|] eqn:Hs; [|done].
    destruct (Hub.is_CLOSED (Hub.readyState s)) eqn:Hstate; [done|].
    destruct (Hub.ws_onclose s) as [roomId|] eqn:Hoc; injection Hstep as <-.
    + unfold Hub.onclose. apply in_order_scheduleRetry.
      assert (Hclosed : Expect.in_order
                          (Hub.set_ws None
                             (Hub.update_socket id
                                (Hub.set_readyState Hub.CLOSED) w))).
      { apply in_order_alter_drop; [done|]. apply socket_ok_closed. }
      pose proof Hclosed as (_ & ? & ? & ? & _).
      eapply in_order_fields; [exact Hclosed|done..].
    + apply in_order_alter; [done|..].
      * intros s' _ Hok. by apply socket_ok_closed.
      * intros s' Hid Hs'. destruct (Hws id Hid) as (s0 & Hs0 & Hoc0 & _).
        rewrite Hs in Hs0. injection Hs0 as <-. by rewrite Hoc in Hoc0.
  - destruct (Hub.alarm w); [|done]. injection Hstep as <-.
    unfold Hub.onAlarm.
    assert (Hcleared : Expect.in_order (Hub.clearRetryAlarm w)).
    { eapply in_order_fields; [exact Hord|done..]. }
    destruct (Hub.currentRoom (Hub.clearRetryAlarm w)) as [room|] eqn:Hcur;
      [|done].
    apply in_order_connect; [|done]. by apply Hroom.
Qed.

Lemma hub_run_in_order evs : forall w w',
  Expect.in_order w -> Hub.run w evs = Some w' -> Expect.in_order w'.
Proof.
  induction evs as [|e evs IH]; intros w w' Hord Hrun; cbn in Hrun.
  - by injection Hrun as <-.
  - destruct (Hub.step w e) as [w1|] eqn:Hstep; [|done].
    eapply IH; [|exact Hrun]. by eapply hub_step_in_order.
Qed.

(** X15.  However the events fall, the worker started by the service
    worker script stays in order.  [ws], when set, refers to a socket that
    has not closed and still carries its [onclose] handler, the closure
    made with the room the socket was created for as its [roomId] (which
    room the retry it schedules reconnects is another matter: that is
    [currentRoom] when the alarm fires); [retryCount] never passes
    [MAX_RETRIES]; the targeted room and the room of every suspended
    continuation are non-empty strings; a socket whose handler was taken
    off by [disconnect] is closing or closed, and a socket that is still
    connecting has been sent nothing. *)
Theorem worker_stays_in_order (evs : list Hub.Event) (w' : Hub.World) :
  Hub.run Hub.init evs = Some w' ->
  Expect.in_order w' /\
  (Hub.ws_is_open w' = true ->
   exists id s, Hub.ws w' = Some id /\ Hub.sockets w' !! id = Some s /\
                Hub.ws_onclose s = Some (Hub.ws_room s) /\
                JsString.truthy (Hub.ws_room s) = true) /\
  forall evs' w'', Hub.run w' evs' = Some w'' -> Expect.in_order w''.
Proof.
  intros Hrun.
  assert (Hinit : Expect.in_order Hub.init).
  { unfold Expect.in_order. cbn. split_and!; try done. lia. }
  pose proof (hub_run_in_order evs _ _ Hinit Hrun) as Hord.
  split_and!; [done| |].
  - intros Hopen. unfold Hub.ws_is_open, Hub.current_socket in Hopen.
    destruct Hord as (Hws & _ & _ & _ & Hsocks).
    destruct (Hub.ws w') as [id|] eqn:Hid; [|done].
    destruct (Hws id eq_refl) as (s & Hs & Hoc & _).
    exists id, s. split_and!; try done.
    by destruct (Forall_lookup_1 _ _ _ _ Hsocks Hs) as [? _].
  - intros evs' w'' Hrun'. by eapply hub_run_in_order.
Qed.

End HubOrder.

Section HubSockets.
Context `{Hub.HubHost}.

Lemma socket_advances_refl s : Expect.socket_advances s s.
Proof. by unfold Expect.socket_advances. Qed.

Lemma socket_advances_trans s1 s2 s3 :
  Expect.socket_advances s1 s2 -> Expect.socket_advances s2 s3 ->
  Expect.socket_advances s1 s3.
Proof.
  intros (Hr1 & Hu1 & Hk1 & Hp1 & Hq1 & Ho1) (Hr2 & Hu2 & Hk2 & Hp2 & Hq2 & Ho2).
  unfold Expect.socket_advances. split_and!.
  - by rewrite Hr2.
  - by rewrite Hu2.
  - lia.
  - by transitivity (Hub.ws_sent s2).
  - intros Hrank. rewrite Hq2 by lia. by apply Hq1.
  - intros Hnone. by apply Ho2, Ho1.
Qed.

Lemma advance_same w w' :
  Hub.sockets w' = Hub.sockets w -> Expect.sockets_advance w w'.
Proof.
  intros Hsame id s Hs. exists s. rewrite Hsame.
  split; [done|apply socket_advances_refl].
Qed.

Lemma advance_trans w1 w2 w3 :
  Expect.sockets_advance w1 w2 -> Expect.sockets_advance w2 w3 ->
  Expect.sockets_advance w1 w3.
Proof.
  intros H12 H23 id s Hs.
  destruct (H12 id s Hs) as (s2 & Hs2 & Hadv2).
  destruct (H23 id s2 Hs2) as (s3 & Hs3 & Hadv3).
  exists s3. split; [done|]. by eapply socket_advances_trans.
Qed.

Lemma advance_alter w w' id f :
  Hub.sockets w' = alter f id (Hub.sockets w) ->
  (forall s, Hub.sockets w !! id = Some s -> Expect.socket_advances s (f s)) ->
  Expect.sockets_advance w w'.
Proof.
  intros Hsocks Hf i s Hs. rewrite Hsocks.
  destruct (decide (i = id)) as [->|Hne].
  - exists (f s). rewrite list_lookup_alter_eq, Hs. split; [done|by apply Hf].
  - exists s. rewrite list_lookup_alter_ne by done.
    split; [done|apply socket_advances_refl].
Qed.

Lemma advance_app w w' l :
  Hub.sockets w' = Hub.sockets w ++ l -> Expect.sockets_advance w w'.
Proof.
  intros Hsocks id s Hs. exists s. rewrite Hsocks.
  split; [by apply lookup_app_l_Some|apply socket_advances_refl].
Qed.

Lemma advances_log_sent frame s :
  Hub.is_OPEN (Hub.readyState s) = true ->
  Expect.socket_advances s (Hub.log_sent frame s).
Proof.
  intros Hopen. unfold Expect.socket_advances. cbn.
  split_and!; try done.
  - by apply prefix_app_r.
  - destruct (Hub.readyState s); try done. cbn. lia.
Qed.

Lemma advances_set_state r s :
  Expect.state_rank (Hub.readyState s) <= Expect.state_rank r ->
  Expect.socket_advances s (Hub.set_readyState r s).
Proof. intros Hrank. by unfold Expect.socket_advances. Qed.

Lemma advances_torn s :
  Expect.socket_advances s (Hub.close_socket (Hub.detach_onclose s)).
Proof.
  unfold Expect.socket_advances.
  destruct s as [room url [] oc sent]; cbn; split_and!; try done; lia.
Qed.

Lemma advance_disconnect w : Expect.sockets_advance w (Hub.disconnect w).
Proof.
  rewrite disconnect_spec. destruct (Hub.ws w) as [id|].
  - eapply advance_alter; [done|]. intros s _. apply advances_torn.
  - by apply advance_same.
Qed.

Lemma advance_connect roomId w :
  Expect.sockets_advance w (Hub.connect roomId w).
Proof.
  unfold Hub.connect, Hub.connect_begin.
  destruct (negb _); [by apply advance_same|].
  destruct (_ && _); [by apply advance_same|].
  destruct (bool_decide _).
  - by destruct (Hub.isConnecting w), (Hub.ws_is_live w); apply advance_same.
  - set (w1 := Hub.set_authErrorBackoff _ _).
    assert (Hadv : Expect.sockets_advance w w1).
    { eapply advance_trans; [apply advance_disconnect|by apply advance_same]. }
    clearbody w1.
    destruct (Hub.isConnecting w1); [done|].
    destruct (Hub.ws_is_live w1); [done|].
    eapply advance_trans; [exact Hadv|by apply advance_same].
Qed.

Lemma advance_connect_resume now roomId r ctor_ok w :
  Expect.sockets_advance w (Hub.connect_resume now roomId r ctor_ok w).
Proof.
  unfold Hub.connect_resume.
  destruct (Hub.usable_token r) as [tok|].
  - destruct ctor_ok.
    + by eapply advance_app.
    + apply advance_same.
      by destruct (scheduleRetry_sockets now roomId None
                     (Hub.set_isConnecting false
                        (Hub.set_authErrorBackoff false w))) as [-> _].
  - apply advance_same. destruct (Hub.isAuthError r).
    + by destruct (scheduleRetry_sockets now roomId
                     (Some Hub.AUTH_ERROR_BACKOFF_MS)
                     (Hub.set_authErrorBackoff true
                        (Hub.set_isConnecting false w))) as [-> _].
    + by destruct (scheduleRetry_sockets now roomId None
                     (Hub.set_isConnecting false w)) as [-> _].
Qed.

Lemma advance_callback roomId ids w :
  Expect.sockets_advance w (snd (Hub.getPublisherId_callback roomId ids w)).
Proof.
  apply advance_same.
  unfold Hub.getPublisherId_callback, Hub.generateUUID.
  destruct (Hub.fill_template _ _) as [u k].
  by destruct (js_truthy (Hub.lookup_id ids roomId)).
Qed.

Lemma advance_log_frames frames : forall w,
  Hub.ws_is_open w = true ->
  Expect.sockets_advance w (Hub.log_frames frames w).
Proof.
  induction frames as [|f frames IH]; intros w Hopen;
    [by apply advance_same|].
  rewrite log_frames_cons.
  pose proof (log_frames_open [f] w) as Hopen1.
  rewrite log_frames_cons in Hopen1.
  change (Hub.log_frames [] ?x) with x in Hopen1.
  eapply advance_trans; [|apply IH; by rewrite Hopen1].
  unfold Hub.ws_is_open, Hub.current_socket in Hopen.
  destruct (Hub.ws w) as [id|]; [|done].
  eapply advance_alter; [done|]. intros s Hs. rewrite Hs in Hopen.
  by apply advances_log_sent.
Qed.

Lemma advance_publish e w : Expect.sockets_advance w (Hub.publish e w).
Proof.
  unfold Hub.publish.
  destruct (Hub.stringify e) as [frame|]; [|by apply advance_same].
  destruct (Hub.ws_is_open w) eqn:Hopen; [|by apply advance_same].
  destruct (Hub.ws_send frame w) as [[|] w'] eqn:Hsend.
  - apply ws_send_accepted in Hsend as ->. by apply advance_log_frames.
  - apply ws_send_refused in Hsend as ->. by apply advance_same.
Qed.

Lemma advance_flush_loop q : forall w,
  Expect.sockets_advance w (snd (Hub.flush_loop q w)).
Proof.
  induction q as [|e q IH]; intros w; [by apply advance_same|].
  cbn [Hub.flush_loop].
  destruct (Hub.ws_is_open w) eqn:Hopen; [|by apply advance_same].
  destruct (Hub.stringify e) as [frame|]; [|by apply advance_same].
  destruct (Hub.ws_send frame w) as [[|] w1] eqn:Hsend.
  - apply ws_send_accepted in Hsend as ->.
    eapply advance_trans; [by apply advance_log_frames|apply IH].
  - apply ws_send_refused in Hsend as ->. by apply advance_same.
Qed.

Lemma advance_flushQueue w : Expect.sockets_advance w (Hub.flushQueue w).
Proof.
  unfold Hub.flushQueue.
  pose proof (advance_flush_loop (Hub.queue w) w) as Hloop.
  destruct (Hub.flush_loop (Hub.queue w) w) as [q' w'].
  eapply advance_trans; [exact Hloop|by apply advance_same].
Qed.

Lemma advance_take_task k t w w1 :
  Hub.take_task k w = Some (t, w1) -> Expect.sockets_advance w w1.
Proof.
  unfold Hub.take_task. destruct (Hub.inflight w !! k); [|done].
  intros [= <- <-]. by apply advance_same.
Qed.

Lemma hub_step_advance w e w' :
  Hub.step w e = Some w' -> Expect.sockets_advance w w'.
Proof.
  intros Hstep.
  destruct e as [hd|k|k now o ctor|k now|id|id|id now|]; cbn [Hub.step] in Hstep.
  - injection Hstep as <-. unfold Hub.handleHandData.
    destruct (negb _); [by apply advance_same|].
    destruct (extractRoomFromUrl _) as [roomId|]; [|by apply advance_same].
    eapply advance_trans; [apply advance_connect|by apply advance_same].
  - destruct (Hub.take_task k w) as [[t w1]|] eqn:Htake; [|done].
    apply advance_take_task in Htake.
    destruct t as [roomId snapshot| |]; try done.
    pose proof (advance_callback roomId snapshot w1) as Hcb.
    destruct (Hub.getPublisherId_callback roomId snapshot w1) as [pid w2].
    injection Hstep as <-.
    eapply advance_trans; [exact Htake|].
    eapply advance_trans; [exact Hcb|by apply advance_same].
  - destruct (Hub.take_task k w) as [[t w1]|] eqn:Htake; [|done].
    apply advance_take_task in Htake.
    destruct t as [|roomId pid|]; try done.
    injection Hstep as <-.
    eapply advance_trans; [exact Htake|apply advance_connect_resume].
  - destruct (Hub.take_task k w) as [[t w1]|] eqn:Htake; [|done].
    apply advance_take_task in Htake.
    destruct t as [| |roomId hd snapshot]; try done.
    pose proof (advance_callback roomId snapshot w1) as Hcb.
    destruct (Hub.getPublisherId_callback roomId snapshot w1) as [pid w2].
    injection Hstep as <-.
    eapply advance_trans; [exact Htake|].
    eapply advance_trans; [exact Hcb|apply advance_publish].
  - destruct (Hub.sockets w !! id) as [s|] eqn:Hs; [|done].
    destruct (Hub.is_CONNECTING (Hub.readyState s)) eqn:Hstate; [|done].
    injection Hstep as <-. unfold Hub.onopen.
    eapply advance_trans; [|apply advance_flushQueue].
    eapply advance_alter; [done|].
    intros s' Hs'. rewrite Hs in Hs'. injection Hs' as <-.
    apply advances_set_state. destruct (Hub.readyState s); try done. cbn. lia.
  - destruct (Hub.sockets w !! id) as [s|]; [|done]. injection Hstep as <-.
    by apply advance_same.
  - destruct (Hub.sockets w !! id) as [s|] eqn:Hs; [|done].
    destruct (Hub.is_CLOSED (Hub.readyState s)) eqn:Hstate; [done|].
    assert (Hclosed : Expect.sockets_advance w
                        (Hub.update_socket id
                           (Hub.set_readyState Hub.CLOSED) w)).
    { eapply advance_alter; [done|]. intros s' _.
      apply advances_set_state. destruct (Hub.readyState s'); cbn; lia. }
    destruct (Hub.ws_onclose s) as [roomId|]; injection Hstep as <-; [|done].
    eapply advance_trans; [exact Hclosed|]. apply advance_same.
    unfold Hub.onclose.
    by destruct (scheduleRetry_sockets now roomId None
                   (Hub.set_ws None
                      (Hub.set_isConnecting false
                         (Hub.update_socket id
                            (Hub.set_readyState Hub.CLOSED) w)))) as [-> _].
  - destruct (Hub.alarm w); [|done]. injection Hstep as <-.
    unfold Hub.onAlarm.
    destruct (Hub.currentRoom _) as [room|]; [|by apply advance_same].
    eapply advance_trans; [|apply advance_connect]. by apply advance_same.
Qed.

Lemma hub_run_advance evs : forall w w',
  Hub.run w evs = Some w' -> Expect.sockets_advance w w'.
Proof.
  induction evs as [|e evs IH]; intros w w' Hrun; cbn in Hrun.
  - injection Hrun as <-. by apply advance_same.
  - destruct (Hub.step w e) as [w1|] eqn:Hstep; [|done].
    eapply advance_trans; [by eapply hub_step_advance|by apply IH].
Qed.

(** X16.  Over any run of the worker a socket object only moves forward.
    It is never dropped from the heap, its room and url stay what they
    were at creation, its [readyState] never goes back (CONNECTING, OPEN,
    CLOSING, CLOSED in that order), the frames it was sent stay and new
    ones are only added after them, an [onclose] handler taken off is not
    put back, and a socket that is closing or closed is sent nothing
    more. *)
Theorem sockets_only_move_forward
    (evs : list Hub.Event) (w w' : Hub.World) :
  Hub.run w evs = Some w' ->
  Expect.sockets_advance w w' /\
  length (Hub.sockets w) <= length (Hub.sockets w') /\
  forall id s,
    Hub.sockets w !! id = Some s ->
    Hub.is_CLOSED (Hub.readyState s) = true ->
    exists s', Hub.sockets w' !! id = Some s' /\
               Hub.is_CLOSED (Hub.readyState s') = true /\
               Hub.ws_sent s' = Hub.ws_sent s.
Proof.
  intros Hrun. pose proof (hub_run_advance evs w w' Hrun) as Hadv.
  split_and!; [done| |].
  - destruct (Nat.le_gt_cases (length (Hub.sockets w))
                (length (Hub.sockets w'))) as [|Hlt]; [done|].
    destruct (Hub.sockets w !! length (Hub.sockets w')) as [s|] eqn:Hs.
    + destruct (Hadv _ _ Hs) as (s' & Hs' & _).
      apply lookup_lt_Some in Hs'. lia.
    + apply lookup_ge_None in Hs. lia.
  - intros id s Hs Hclosed.
    destruct (Hadv id s Hs) as (s' & Hs' & _ & _ & Hrank & _ & Hsent & _).
    exists s'. split_and!; [done| |].
    + destruct (Hub.readyState s); try done.
      destruct (Hub.readyState s'); try done; cbn in Hrank; lia.
    + apply Hsent. destruct (Hub.readyState s); try done. cbn. lia.
Qed.

End HubSockets.

Section HubReliable.
Context `{Hub.HubHost}.
Hypothesis stringify_returns : forall e, Hub.stringify e <> None.
Hypothesis send_accepts : forall s frame, Hub.socket_send s frame = true.

Lemma ws_send_reliable frame w :
  Hub.ws_is_open w = true ->
  Hub.ws_send frame w = (true, Hub.log_frames [frame] w).
Proof.
  unfold Hub.ws_is_open, Hub.ws_send, Hub.log_frames. cbn.
  destruct (Hub.current_socket w) as [s|] eqn:Hs; [|done]. intros _.
  unfold Hub.current_socket in Hs.
  destruct (Hub.ws w) as [id|]; [|done]. by rewrite send_accepts.
Qed.

Lemma flush_loop_reliable q : forall w,
  Hub.ws_is_open w = true -> fst (Hub.flush_loop q w) = [].
Proof.
  induction q as [|e q IH]; intros w Hopen; [done|]. cbn [Hub.flush_loop].
  rewrite Hopen.
  destruct (Hub.stringify e) as [frame|] eqn:Hstr;
    [|by destruct (stringify_returns e)].
  rewrite ws_send_reliable by done. apply IH. by rewrite log_frames_open.
Qed.

Lemma flushQueue_reliable w :
  Hub.ws_is_open (Hub.flushQueue w) = true -> Hub.queue (Hub.flushQueue w) = [].
Proof.
  unfold Hub.flushQueue.
  destruct (Hub.ws_is_open w) eqn:Hopen.
  - pose proof (flush_loop_reliable (Hub.queue w) w Hopen) as Hall.
    destruct (Hub.flush_loop (Hub.queue w) w) as [q' w']. by cbn in *.
  - rewrite hub_flush_loop_closed by done.
    intros Hopen'. exfalso.
    assert (Hsame : Hub.ws_is_open (Hub.set_queue (Hub.queue w) w)
                    = Hub.ws_is_open w) by done.
    by rewrite Hsame, Hopen in Hopen'.
Qed.

Lemma connect_open roomId w :
  Hub.ws_is_open (Hub.connect roomId w) = true -> Hub.ws_is_open w = true.
Proof.
  unfold Hub.connect, Hub.connect_begin.
  destruct (negb _); [done|].
  destruct (_ && _); [done|].
  destruct (bool_decide _).
  - by destruct (Hub.isConnecting w), (Hub.ws_is_live w).
  - set (w1 := Hub.set_authErrorBackoff _ _).
    assert (Hws : Hub.ws w1 = None).
    { subst w1. by rewrite disconnect_spec. }
    clearbody w1.
    destruct (Hub.isConnecting w1), (Hub.ws_is_live w1);
      unfold Hub.ws_is_open, Hub.current_socket; cbn; by rewrite Hws.
Qed.

Lemma scheduleRetry_open now room ov w :
  Hub.ws_is_open (Hub.scheduleRetry now room ov w) = Hub.ws_is_open w.
Proof. unfold Hub.scheduleRetry. by destruct (_ <=? _). Qed.

Lemma callback_open roomId ids w :
  Hub.ws_is_open (snd (Hub.getPublisherId_callback roomId ids w))
  = Hub.ws_is_open w.
Proof.
  unfold Hub.getPublisherId_callback, Hub.generateUUID.
  destruct (Hub.fill_template _ _) as [u k].
  by destruct (js_truthy (Hub.lookup_id ids roomId)).
Qed.

Lemma connect_resume_open now roomId r ctor_ok w :
  Hub.ws_is_open (Hub.connect_resume now roomId r ctor_ok w) = true ->
  Hub.ws_is_open w = true.
Proof.
  unfold Hub.connect_resume.
  destruct (Hub.usable_token r) as [tok|].
  - destruct ctor_ok; [|by rewrite scheduleRetry_open].
    unfold Hub.ws_is_open, Hub.current_socket, Hub.new_socket. cbn.
    rewrite lookup_app_r by done. by rewrite Nat.sub_diag.
  - by destruct (Hub.isAuthError r); rewrite scheduleRetry_open.
Qed.

Lemma take_task_open k t w w1 :
  Hub.take_task k w = Some (t, w1) ->
  Hub.ws_is_open w1 = Hub.ws_is_open w /\ Hub.queue w1 = Hub.queue w.
Proof.
  unfold Hub.take_task. destruct (Hub.inflight w !! k); [|done].
  by intros [= <- <-].
Qed.

Lemma hub_step_calm w e w' :
  (Hub.ws_is_open w = true -> Hub.queue w = []) ->
  Hub.step w e = Some w' ->
  Hub.ws_is_open w' = true -> Hub.queue w' = [].
Proof.
  intros Hcalm Hstep.
  destruct e as [hd|k|k now o ctor|k now|id|id|id now|]; cbn [Hub.step] in Hstep.
  - injection Hstep as <-. unfold Hub.handleHandData.
    destruct (negb _); [done|].
    destruct (extractRoomFromUrl _) as [roomId|]; [|done].
    intros Hopen. cbn. rewrite connect_queue.
    apply Hcalm. by apply (connect_open roomId).
  - destruct (Hub.take_task k w) as [[t w1]|] eqn:Htake; [|done].
    apply take_task_open in Htake as [Hopen1 Hqueue1].
    destruct t as [roomId snapshot| |]; try done.
    pose proof (callback_open roomId snapshot w1) as Hopen2.
    pose proof (callback_queue roomId snapshot w1) as Hqueue2.
    destruct (Hub.getPublisherId_callback roomId snapshot w1) as [pid w2].
    injection Hstep as <-. cbn [snd] in *. intros Hopen. cbn.
    rewrite Hqueue2, Hqueue1. apply Hcalm.
    by rewrite <- Hopen1, <- Hopen2.
  - destruct (Hub.take_task k w) as [[t w1]|] eqn:Htake; [|done].
    apply take_task_open in Htake as [Hopen1 Hqueue1].
    destruct t as [|roomId pid|]; try done.
    injection Hstep as <-. intros Hopen.
    rewrite connect_resume_queue, Hqueue1. apply Hcalm.
    rewrite <- Hopen1. by eapply connect_resume_open.
  - destruct (Hub.take_task k w) as [[t w1]|] eqn:Htake; [|done].
    apply take_task_open in Htake as [Hopen1 Hqueue1].
    destruct t as [| |roomId hd snapshot]; try done.
    pose proof (callback_open roomId snapshot w1) as Hopen2.
    pose proof (callback_queue roomId snapshot w1) as Hqueue2.
    destruct (Hub.getPublisherId_callback roomId snapshot w1) as [pid w2].
    injection Hstep as <-. cbn [snd] in *.
    unfold Hub.publishMessage, Hub.publish.
    set (env := Hub.mkEnvelope _ _ _ _ _).
    destruct (Hub.stringify env) as [frame|] eqn:Hstr;
      [|by destruct (stringify_returns env)].
    destruct (Hub.ws_is_open w2) eqn:Hopen.
    + rewrite ws_send_reliable by done. intros _.
      destruct (log_frames_fields [frame] w2) as (_ & -> & _).
      rewrite Hqueue2, Hqueue1. apply Hcalm. by rewrite <- Hopen1, <- Hopen2.
    + intros Hopen'. exfalso.
      assert (Hsame : Hub.ws_is_open (Hub.enqueue env w2)
                      = Hub.ws_is_open w2) by done.
      by rewrite Hsame, Hopen in Hopen'.
  - destruct (Hub.sockets w !! id) as [s|] eqn:Hs; [|done].
    destruct (Hub.is_CONNECTING (Hub.readyState s)) eqn:Hstate; [|done].
    injection Hstep as <-. unfold Hub.onopen. apply flushQueue_reliable.
  - destruct (Hub.sockets w !! id) as [s|]; [|done]. by injection Hstep as <-.
  - destruct (Hub.sockets w !! id) as [s|] eqn:Hs; [|done].
    destruct (Hub.is_CLOSED (Hub.readyState s)) eqn:Hstate; [done|].
    destruct (Hub.ws_onclose s) as [roomId|]; injection Hstep as <-.
    + unfold Hub.onclose. by rewrite scheduleRetry_open.
    + intros Hopen. cbn. apply Hcalm.
      unfold Hub.ws_is_open, Hub.current_socket in *. cbn in Hopen.
      destruct (Hub.ws w) as [i|]; [|done].
      destruct (decide (i = id)) as [->|Hne].
      * by rewrite list_lookup_alter_eq, Hs in Hopen.
      * by rewrite list_lookup_alter_ne in Hopen.
  - destruct (Hub.alarm w); [|done]. injection Hstep as <-.
    unfold Hub.onAlarm.
    destruct (Hub.currentRoom _) as [room|]; [|done].
    intros Hopen. rewrite connect_queue. apply Hcalm.
    by apply connect_open in Hopen.
Qed.

Lemma hub_run_calm evs : forall w w',
  (Hub.ws_is_open w = true -> Hub.queue w = []) ->
  Hub.run w evs = Some w' ->
  Hub.ws_is_open w' = true -> Hub.queue w' = [].
Proof.
  induction evs as [|e evs IH]; intros w w' Hcalm Hrun; cbn in Hrun.
  - by injection Hrun as <-.
  - destruct (Hub.step w e) as [w1|] eqn:Hstep; [|done].
    eapply IH; [|exact Hrun]. by eapply hub_step_calm.
Qed.

(** X17.  On a host on which neither [JSON.stringify] nor [send] ever
    throws, nothing waits in the queue while the socket in [ws] is open:
    an envelope is queued only while there is no open socket, and the
    [onopen] handler empties the queue.  This holds after every run from
    the initial worker, so in such a run [publish] on an open socket sends
    straight away and never overtakes a queued envelope. *)
Theorem nothing_waits_while_the_socket_is_open
    (evs : list Hub.Event) (w' : Hub.World) :
  Hub.run Hub.init evs = Some w' ->
  Hub.ws_is_open w' = true ->
  Hub.queue w' = [] /\
  forall e frame,
    Hub.stringify e = Some frame ->
    Hub.publish e w' = Hub.log_frames [frame] w' /\
    Hub.queue (Hub.publish e w') = [].
Proof.
  intros Hrun Hopen.
  assert (Hqueue : Hub.queue w' = []).
  { by apply (hub_run_calm evs Hub.init w'). }
  split; [done|]. intros e frame Hstr. unfold Hub.publish.
  rewrite Hstr, Hopen, ws_send_reliable by done. split; [done|].
  by destruct (log_frames_fields [frame] w') as (_ & -> & _).
Qed.

End HubReliable.

(** ** The port manager on a port that never throws *)

Section ChannelReliable.
Context {Msg : Type} `{PortHost Msg}.
Hypothesis post_accepts : forall p (m : Msg), fst (postMessage p m) = true.

Lemma flush_loop_accepts q : forall p sent,
  exists p', Channel.flush_loop q p sent = ([], p', sent ++ q).
Proof.
  induction q as [|m q IH]; intros p sent; cbn.
  - exists p. by rewrite app_nil_r.
  - pose proof (post_accepts p m) as Hpost.
    destruct (postMessage p m) as [[|] p1]; [|done].
    destruct (IH p1 (sent ++ [m])) as [p' ->]. exists p'.
    by rewrite <- app_assoc.
Qed.

Lemma connectPort_ordered o st :
  (Channel.port st <> None -> Channel.messageQueue st = []) ->
  let st' := fst (Channel.connectPort o st) in
  (Channel.port st' <> None -> Channel.messageQueue st' = []) /\
  Channel.posted st' ++ Channel.messageQueue st'
  = Channel.posted st ++ Channel.messageQueue st /\
  length (Channel.messageQueue st') <= length (Channel.messageQueue st).
Proof.
  intros Hinv. destruct o as [| |p]; cbn.
  - by split_and!.
  - by split_and!.
  - unfold Channel.flushMessageQueue. cbn.
    destruct (flush_loop_accepts (Channel.messageQueue st) p []) as [p' ->].
    cbn. rewrite app_nil_r. split_and!; [done..|lia].
Qed.

Lemma step_ordered st e :
  (Channel.port st <> None -> Channel.messageQueue st = []) ->
  let st' := Channel.step st e in
  (Channel.port st' <> None -> Channel.messageQueue st' = []) /\
  Channel.posted st' ++ Channel.messageQueue st'
    `sublist_of` (Channel.posted st ++ Channel.messageQueue st)
                 ++ Expect.sends [e] /\
  (length (Channel.messageQueue st) + length (Expect.sends [e])
   <= Channel.MESSAGE_QUEUE_CAP ->
   Channel.posted st' ++ Channel.messageQueue st'
   = (Channel.posted st ++ Channel.messageQueue st) ++ Expect.sends [e]) /\
  length (Channel.messageQueue st')
  <= length (Channel.messageQueue st) + length (Expect.sends [e]).
Proof.
  intros Hinv. destruct e as [o|msg| |o]; cbn zeta; cbn [Channel.step].
  - destruct (connectPort_ordered o st Hinv) as (Hinv' & Heq & Hlen).
    cbn. rewrite app_nil_r, Heq. split_and!; [done..|lia].
  - unfold Channel.sendPortMessage.
    destruct (Channel.port st) as [p|] eqn:Hp.
    + pose proof (post_accepts p msg) as Hpost.
      destruct (postMessage p msg) as [[|] p']; [|done]. cbn.
      rewrite (Hinv ltac:(done)). rewrite !app_nil_r.
      split_and!; [done..|cbn; lia].
    + cbn [fst].
      destruct (queue_and_reconnect_queue msg st) as (-> & -> & ->).
      rewrite Hp. cbn. split_and!; [done| | |].
      * rewrite <- app_assoc. apply sublist_app; [done|].
        apply push_shift_sublist.
      * intros Hlen. rewrite <- app_assoc. f_equal. unfold push_shift.
        cbn zeta.
        replace (Channel.MESSAGE_QUEUE_CAP
                 <? length (Channel.messageQueue st ++ [msg])) with false;
          [done|].
        symmetry. apply Nat.ltb_ge. rewrite length_app. exact Hlen.
      * unfold push_shift. cbn zeta.
        pose proof (length_app (Channel.messageQueue st) [msg]) as Hlen.
        destruct (_ <? _); [|cbn in Hlen; lia].
        destruct (Channel.messageQueue st ++ [msg]); cbn in *; lia.
  - unfold Channel.onDisconnect.
    destruct (scheduleReconnect_queue (Channel.set_port None st))
      as (-> & -> & ->).
    cbn. rewrite app_nil_r. split_and!; [done..|lia].
  - destruct (Channel.reconnectTimer st).
    + unfold Channel.onReconnectTimer.
      destruct (connectPort_ordered o (Channel.set_reconnectTimer None st)
                  Hinv) as (Hinv' & Heq & Hlen).
      cbn. rewrite app_nil_r. cbn in Heq. rewrite Heq.
      split_and!; [done..|]. cbn in Hlen. lia.
    + cbn. rewrite app_nil_r. split_and!; [done..|lia].
Qed.

(** X18.  Over a port whose [postMessage] never throws, the port manager
    delivers in order.  While a port is held nothing is queued (what was
    queued is flushed by [connectPort]); the messages accepted so far
    followed by those still queued are, in the order of the calls of
    [sendPortMessage], the messages sent, less those the cap has dropped;
    and none is dropped when no more than [MESSAGE_QUEUE_CAP] were
    sent. *)
Theorem port_delivers_in_order
    (es : list (Channel.Event (Msg := Msg))) (st : Channel.State) :
  (Channel.port st <> None -> Channel.messageQueue st = []) ->
  let st' := Channel.run st es in
  (Channel.port st' <> None -> Channel.messageQueue st' = []) /\
  Channel.posted st' ++ Channel.messageQueue st'
    `sublist_of` (Channel.posted st ++ Channel.messageQueue st)
                 ++ Expect.sends es /\
  (length (Channel.messageQueue st) + length (Expect.sends es)
   <= Channel.MESSAGE_QUEUE_CAP ->
   Channel.posted st' ++ Channel.messageQueue st'
   = (Channel.posted st ++ Channel.messageQueue st) ++ Expect.sends es).
Proof.
  revert st. induction es as [|e es IH]; intros st Hinv.
  - cbn. rewrite !app_nil_r. by split_and!.
  - change (Channel.run st (e :: es))
      with (Channel.run (Channel.step st e) es).
    assert (Hsends : Expect.sends (e :: es)
                     = Expect.sends [e] ++ Expect.sends es).
    { unfold Expect.sends. cbn. by destruct e. }
    destruct (step_ordered st e Hinv) as (Hinv1 & Hsub1 & Heq1 & Hlen1).
    destruct (IH (Channel.step st e) Hinv1) as (Hinv' & Hsub' & Heq').
    cbn zeta in *. rewrite Hsends. split_and!; [done| |].
    + transitivity ((Channel.posted (Channel.step st e)
                     ++ Channel.messageQueue (Channel.step st e))
                    ++ Expect.sends es); [exact Hsub'|].
      rewrite (app_assoc _ (Expect.sends [e])). by apply sublist_app.
    + rewrite length_app. intros Hlen.
      rewrite Heq' by lia. rewrite Heq1 by lia. by rewrite <- !app_assoc.
Qed.

End ChannelReliable.

(** ** From a hand to a frame *)

Section HubDelivery.
Context `{Hub.HubHost}.

Lemma alter_last {A : Type} (f : A -> A) (l : list A) (x : A) :
  alter f (length l) (l ++ [x]) = l ++ [f x].
Proof.
  rewrite <- (Nat.add_0_r (length l)) at 1. by rewrite alter_app_r.
Qed.

Lemma lookup_last {A : Type} (l : list A) (x : A) :
  (l ++ [x]) !! length l = Some x.
Proof. rewrite lookup_app_r by done. by rewrite Nat.sub_diag. Qed.

(** X19.  A hand for a room whose publisher id is stored, arriving at a
    worker that holds no socket, has no attempt under way and nothing
    queued or suspended, is delivered exactly once on a new socket for
    that room, whichever continuation runs first.  If the socket opens
    before the publisher id is read for the envelope, [publish] sends the
    frame itself; if the id is read before the token has been requested,
    [publish] queues the envelope and [onopen] flushes it.  Both orders
    end in the same world: the new socket open and current with the one
    frame, the queue empty, [retryCount] zero and nothing suspended. *)
Theorem hand_is_delivered_whichever_comes_first
    (hd : Page.HandData) (roomId pid tok frame : string) (now t : Z)
    (o : Hub.HttpOutcome) (w : Hub.World) :
  extractRoomFromUrl (Page.hd_url hd) = Some roomId ->
  Hub.inflight w = [] -> Hub.queue w = [] -> Hub.ws w = None ->
  Hub.isConnecting w = false ->
  Hub.publisherIds w !! roomId = Some pid -> JsString.truthy pid = true ->
  Expect.grants o tok ->
  Hub.stringify
    (Hub.mkEnvelope (JsStr pid) (js_or_null (Page.hd_playerId hd))
       (js_or_null (Page.hd_playerName hd)) hd t) = Some frame ->
  (forall s, Hub.socket_send s frame = true) ->
  let n := length (Hub.sockets w) in
  let delivered :=
    Hub.mkWorld (Some n) [] 0 (Some roomId) false false
      (Hub.sockets w
       ++ [Hub.mkWebSocket roomId (Hub.wsUrl roomId tok) Hub.OPEN
             (Some roomId) [frame]])
      None (Hub.publisherIds w) (Hub.randoms w) [] in
  Hub.run w [Hub.EvHandData hd; Hub.EvIdentity 0; Hub.EvToken 1 now o true;
             Hub.EvSocketOpen n; Hub.EvPublish 0 t] = Some delivered /\
  Hub.run w [Hub.EvHandData hd; Hub.EvPublish 1 t; Hub.EvIdentity 0;
             Hub.EvToken 0 now o true; Hub.EvSocketOpen n] = Some delivered.
Proof.
  intros Hurl Hflight Hqueue Hws Hconn Hpid Htruthy Hgrant Hstr Hsend.
  destruct (extracted_room_truthy _ _ Hurl) as [Hroom Hjs].
  apply usable_token_grants in Hgrant.
  destruct w as [ws q rc cur ic ab socks al ids rs fl].
  cbn in Hflight, Hqueue, Hws, Hconn, Hpid. subst.
  cbn zeta. cbn [Hub.sockets Hub.publisherIds Hub.randoms].
  assert (Hhand : exists rc1 ab1,
    Hub.handleHandData hd
      (Hub.mkWorld None [] rc cur false ab socks al ids rs [])
    = Hub.mkWorld None [] rc1 (Some roomId) true ab1 socks None
        ids rs [Hub.AwaitIdentity roomId ids; Hub.AwaitPublish roomId hd ids]).
  { unfold Hub.handleHandData. rewrite Hjs, Hurl. cbn [negb]. cbn zeta.
    unfold Hub.connect, Hub.connect_begin. rewrite Hroom.
    cbn [negb Hub.currentRoom].
    destruct (decide (cur = Some roomId)) as [->|Hne].
    - rewrite bool_decide_eq_true_2 by done. by exists rc, ab.
    - rewrite bool_decide_eq_false_2 by done. by exists 0, false. }
  destruct Hhand as (rc1 & ab1 & Hhand).
  set (env := Hub.mkEnvelope (JsStr pid) _ _ hd t) in *.
  set (AI := Hub.AwaitIdentity roomId ids) in *.
  set (AP := Hub.AwaitPublish roomId hd ids) in *.
  set (AT := Hub.AwaitToken roomId (JsStr pid)) in *.
  assert (Harrives :
    Hub.step (Hub.mkWorld None [] rc cur false ab socks al ids rs [])
      (Hub.EvHandData hd)
    = Some (Hub.mkWorld None [] rc1 (Some roomId) true ab1 socks None ids rs
              [AI; AP])).
  { cbn [Hub.step]. by rewrite Hhand. }
  clear Hhand.
  set (sock := fun st sent =>
         Hub.mkWebSocket roomId (Hub.wsUrl roomId tok) st (Some roomId) sent).
  assert (Hidentity : forall q fl,
    Hub.step (Hub.mkWorld None q rc1 (Some roomId) true ab1 socks None ids rs
                (AI :: fl)) (Hub.EvIdentity 0)
    = Some (Hub.mkWorld None q rc1 (Some roomId) true ab1 socks None ids rs
              (fl ++ [AT]))).
  { intros q fl. cbn [Hub.step]. unfold Hub.take_task.
    cbn [Hub.inflight lookup list_lookup]. subst AI. cbn iota.
    by rewrite (callback_known roomId ids pid). }
  assert (Htoken : forall q fl1 fl2,
    length fl1 = 0 \/ length fl1 = 1 ->
    Hub.step (Hub.mkWorld None q rc1 (Some roomId) true ab1 socks None ids rs
                (fl1 ++ AT :: fl2)) (Hub.EvToken (length fl1) now o true)
    = Some (Hub.mkWorld (Some (length socks)) q rc1 (Some roomId) true false
              (socks ++ [sock Hub.CONNECTING []]) None ids rs (fl1 ++ fl2))).
  { intros q fl1 fl2 Hlen. cbn [Hub.step]. unfold Hub.take_task.
    cbn [Hub.inflight]. rewrite list_lookup_middle by done. subst AT.
    cbn iota. unfold Hub.connect_resume. rewrite Hgrant.
    destruct fl1 as [|x [|y fl1]]; try (cbn in Hlen; lia); reflexivity. }
  assert (Hopen : forall fl,
    Hub.step (Hub.mkWorld (Some (length socks)) [] rc1 (Some roomId) true false
                (socks ++ [sock Hub.CONNECTING []]) None ids rs fl)
      (Hub.EvSocketOpen (length socks))
    = Some (Hub.mkWorld (Some (length socks)) [] 0 (Some roomId) false false
              (socks ++ [sock Hub.OPEN []]) None ids rs fl)).
  { intros fl. cbn [Hub.step Hub.sockets]. rewrite lookup_last.
    cbn [Hub.readyState sock Hub.is_CONNECTING].
    unfold Hub.onopen, Hub.update_socket. cbn [Hub.sockets].
    rewrite alter_last. reflexivity. }
  assert (Hflush :
    Hub.step (Hub.mkWorld (Some (length socks)) [env] rc1 (Some roomId) true
                false (socks ++ [sock Hub.CONNECTING []]) None ids rs [])
      (Hub.EvSocketOpen (length socks))
    = Some (Hub.mkWorld (Some (length socks)) [] 0 (Some roomId) false false
              (socks ++ [sock Hub.OPEN [frame]]) None ids rs [])).
  { cbn [Hub.step Hub.sockets]. rewrite lookup_last.
    cbn [Hub.readyState sock Hub.is_CONNECTING].
    unfold Hub.onopen, Hub.update_socket. cbn [Hub.sockets].
    rewrite alter_last.
    change (Hub.set_retryCount 0 _)
      with (Hub.mkWorld (Some (length socks)) [env] 0 (Some roomId) false
              false (socks ++ [sock Hub.OPEN []]) None ids rs []).
    unfold Hub.flushQueue. cbn [Hub.queue Hub.flush_loop].
    unfold Hub.ws_is_open, Hub.ws_send, Hub.current_socket.
    cbn [Hub.ws Hub.sockets]. rewrite lookup_last.
    cbn [Hub.readyState sock Hub.is_OPEN]. rewrite Hstr, Hsend.
    unfold Hub.update_socket. cbn [Hub.sockets].
    rewrite alter_last. reflexivity. }
  assert (Hpublish :
    Hub.step (Hub.mkWorld (Some (length socks)) [] 0 (Some roomId) false false
                (socks ++ [sock Hub.OPEN []]) None ids rs [AP])
      (Hub.EvPublish 0 t)
    = Some (Hub.mkWorld (Some (length socks)) [] 0 (Some roomId) false false
              (socks ++ [sock Hub.OPEN [frame]]) None ids rs [])).
  { cbn [Hub.step]. unfold Hub.take_task.
    cbn [Hub.inflight lookup list_lookup]. subst AP. cbn iota.
    rewrite (callback_known roomId ids pid) by done.
    change (Hub.set_inflight _ _)
      with (Hub.mkWorld (Some (length socks)) [] 0 (Some roomId) false false
              (socks ++ [sock Hub.OPEN []]) None ids rs []).
    unfold Hub.publishMessage, Hub.publish. fold env. rewrite Hstr.
    unfold Hub.ws_is_open, Hub.ws_send, Hub.current_socket.
    cbn [Hub.ws Hub.sockets]. rewrite lookup_last.
    cbn [Hub.readyState sock Hub.is_OPEN]. rewrite Hsend.
    unfold Hub.update_socket. cbn [Hub.sockets].
    rewrite alter_last. reflexivity. }
  assert (Hqueued :
    Hub.step (Hub.mkWorld None [] rc1 (Some roomId) true ab1 socks None ids rs
                [AI; AP]) (Hub.EvPublish 1 t)
    = Some (Hub.mkWorld None [env] rc1 (Some roomId) true ab1 socks None ids
              rs [AI])).
  { cbn [Hub.step]. unfold Hub.take_task.
    cbn [Hub.inflight lookup list_lookup]. subst AP. cbn iota.
    rewrite (callback_known roomId ids pid) by done.
    unfold Hub.publishMessage, Hub.publish. fold env. rewrite Hstr.
    reflexivity. }
  pose proof (Htoken [] [AP] [] ltac:(by right)) as Htoken1.
  pose proof (Htoken [env] [] [] ltac:(by left)) as Htoken0.
  pose proof (Hidentity [] [AP]) as Hidentity1.
  pose proof (Hidentity [env] []) as Hidentity0.
  cbn [app length] in Htoken1, Htoken0, Hidentity1, Hidentity0.
  split; cbn [Hub.run].
  - by rewrite Harrives, Hidentity1, Htoken1, Hopen, Hpublish.
  - by rewrite Harrives, Hqueued, Hidentity0, Htoken0, Hflush.
Qed.
End HubDelivery.

(** * The further properties at concrete inputs *)

(** X1 at work: an empty store is given the default tables. *)
Lemma normalizeRangeFold_witness :
  fst (fst (Range.normalizeRangeFold (Range.mkStored None None)))
  = Range.buildDefaultRange /\
  snd (fst (Range.normalizeRangeFold (Range.mkStored None None)))
  = replicate 169 false.
Proof.
  pose proof (normalizeRangeFold_repairs_storage (Range.mkStored None None))
    as Hrepair.
  cbn zeta in Hrepair.
  destruct Hrepair as (_ & _ & _ & _ & _ & _ & Hrange & Hfold & _).
  split; [apply Hrange|apply Hfold]; reflexivity.
Defined.

(** X2 at work: ace and king of hearts against the installed tables. *)
Lemma checkRange_table_witness :
  Range.table_index 12 11 true < 169 /\
  Range.text
    (Range.checkRange true (Demo.hand "A" "h" "K" "h" "u") Range.installed)
  = false.
Proof.
  pose proof (checkRange_reads_the_fold_table true
                (Demo.hand "A" "h" "K" "h" "u") Range.installed 12 11)
    as Hread.
  cbn zeta in Hread.
  destruct Hread as (Hlt & Htext & _).
  - reflexivity.
  - reflexivity.
  - vm_compute. reflexivity.
  - split; [exact Hlt|]. rewrite Htext. vm_compute. reflexivity.
Defined.

(** X3 at work: without a stored fold table nothing is folded. *)
Lemma checkRange_default_witness :
  Range.text
    (Range.checkRange true (Demo.hand "A" "h" "K" "h" "u")
       (Range.mkStored None None)) = false.
Proof.
  destruct (checkRange_folds_nothing_by_default true
              (Demo.hand "A" "h" "K" "h" "u") (Range.mkStored None None))
    as (Hdefault & _).
  destruct Hdefault as [Htext _]; [left; reflexivity|exact Htext].
Defined.

(** X6 at work: the timer after a send without a port. *)
Lemma reconnect_timer_witness :
  Expect.timer_in_step
    (Channel.run (H := Demo.budget_port nat) Channel.init [Channel.EvSend 7]).
Proof.
  destruct (reconnect_timer_stays_in_step (H := Demo.budget_port nat)
              [Channel.EvSend 7] Channel.init)
    as (Hinit & _).
  exact Hinit.
Defined.

(** X8 at work: three messages sent without a port, then a port that
    takes five. *)
Lemma reconnect_delivers_witness :
  Channel.posted
    (Channel.run (H := Demo.budget_port nat) Channel.init
       (map Channel.EvSend [1; 2; 3]
        ++ [Channel.EvConnect (Channel.ConnectReturns (H := Demo.budget_port nat) 5)]))
  = [1; 2; 3].
Proof.
  pose proof (reconnect_delivers_the_queue (H := Demo.budget_port nat)
                Channel.init [1; 2; 3] 5 2) as Hdeliver.
  cbn zeta in Hdeliver.
  destruct Hdeliver as (_ & _ & Hposted & _).
  - reflexivity.
  - vm_compute. lia.
  - vm_compute. repeat (econstructor; [reflexivity|]). constructor.
  - exact Hposted.
Defined.

(** X11 at work: a token for room r at the initial worker. *)
Lemma connect_token_witness :
  Hub.ws
    (Hub.connect_resume 0 "r"
       (Hub.fetchHubToken (Hub.Response 200 (Some "tok"))) true Hub.init)
  = Some 0.
Proof.
  destruct (connect_opens_a_socket_only_with_a_token 0 "r"
              (Hub.Response 200 (Some "tok")) true Hub.init)
    as (Hgrant & _).
  destruct (Hgrant "tok") as (_ & _ & Hws).
  - exists 200%Z. split; [reflexivity|]. split; [lia|discriminate].
  - reflexivity.
  - exact Hws.
Defined.

(** X12 at work: the room of a game url is a room by itself. *)
Lemma extracted_room_witness :
  extractRoomFromUrl (JsStr "abc123") = Some "abc123".
Proof.
  destruct (extracted_room_is_a_clean_segment "https://host/games/abc123"
              "abc123") as (Hclean & _).
  destruct Hclean as (_ & _ & _ & _ & Hfix); [reflexivity|exact Hfix].
Defined.

(** X13 at work: a game url with and without a final slash. *)
Lemma room_final_slash_witness :
  extractRoomFromUrl (JsStr ("https://host/games/abc123" ++ "/"))
  = extractRoomFromUrl (JsStr "https://host/games/abc123").
Proof.
  destruct (room_ignores_query_fragment_and_final_slash
              "https://host/games/abc123" "x=1") as (_ & _ & Hslash).
  apply Hslash. reflexivity.
Defined.

(** X14 at work: two hands for room r at the initial worker. *)
Lemma burst_witness :
  Hub.queue
    (fold_left (fun w hd => Hub.handleHandData hd w)
       [Demo.hand_at "https://host/games/r";
        Demo.hand_at "https://host/games/r"] Hub.init)
  = [].
Proof.
  pose proof (burst_of_hands_connects_once
                [Demo.hand_at "https://host/games/r";
                 Demo.hand_at "https://host/games/r"] "r" Hub.init)
    as Hburst.
  cbn zeta in Hburst.
  destruct Hburst as (_ & Hqueue & _).
  - repeat constructor.
  - exact Hqueue.
Defined.

(** X15 at work: the worker connected to room r. *)
Lemma worker_in_order_witness : Expect.in_order (Demo.connected id).
Proof.
  destruct (worker_stays_in_order (H := Demo.reliable id)
              Demo.connected_trace (Demo.connected id))
    as (Horder & _).
  - vm_compute. reflexivity.
  - exact Horder.
Defined.

(** X16 at work: from the initial worker to the connected one. *)
Lemma sockets_forward_witness :
  length (Hub.sockets Hub.init) <= length (Hub.sockets (Demo.connected id)).
Proof.
  destruct (sockets_only_move_forward (H := Demo.reliable id)
              Demo.connected_trace Hub.init (Demo.connected id))
    as (_ & Hlen & _).
  - vm_compute. reflexivity.
  - exact Hlen.
Defined.

(** X17 at work: the worker connected to room r has nothing queued. *)
Lemma nothing_waits_witness : Hub.queue (Demo.connected id) = [].
Proof.
  destruct (nothing_waits_while_the_socket_is_open (H := Demo.reliable id)
              ltac:(discriminate) ltac:(reflexivity)
              Demo.connected_trace (Demo.connected id))
    as (Hqueue & _).
  - vm_compute. reflexivity.
  - vm_compute. reflexivity.
  - exact Hqueue.
Defined.

(** X18 at work: two messages before and one after a port that never
    throws is connected. *)
Lemma port_order_witness :
  Channel.posted (Channel.run Channel.init Demo.steady_trace)
  ++ Channel.messageQueue (Channel.run Channel.init Demo.steady_trace)
  = [1; 2; 3].
Proof.
  pose proof (port_delivers_in_order (H := Demo.steady_port nat)
                ltac:(reflexivity) Demo.steady_trace Channel.init) as Horder.
  cbn zeta in Horder.
  destruct Horder as (_ & _ & Hall).
  - intros _. reflexivity.
  - apply Hall. vm_compute. lia.
Defined.

(** X19 at work: a hand for room r at a worker that knows its id for r. *)
Lemma hand_delivery_witness :
  exists w,
    Hub.run (H := Demo.reliable id) Demo.known_room
      [Hub.EvHandData (Demo.hand_at "https://host/games/r");
       Hub.EvPublish 1 7; Hub.EvIdentity 0;
       Hub.EvToken 0 3 (Hub.Response 200 (Some "tok")) true;
       Hub.EvSocketOpen 0] = Some w /\
    Hub.queue w = [].
Proof.
  pose proof (hand_is_delivered_whichever_comes_first (H := Demo.reliable id)
                (Demo.hand_at "https://host/games/r") "r" "p1" "tok"
                "p1 https://host/games/r AsKs" 3 7
                (Hub.Response 200 (Some "tok")) Demo.known_room)
    as Hdelivered.
  cbn zeta in Hdelivered.
  destruct Hdelivered as (_ & Hqueued).
  - reflexivity.
  - reflexivity.
  - reflexivity.
  - reflexivity.
  - reflexivity.
  - vm_compute. reflexivity.
  - reflexivity.
  - exists 200%Z. split; [reflexivity|]. split; [lia|discriminate].
  - vm_compute. reflexivity.
  - reflexivity.
  - eexists. split; [exact Hqueued|reflexivity].
Defined.
